(** * repomirror: sync orchestration and remote configuration

    A shallow embedding of the command layer of repomirror (sync.ts with
    the interfaces of types.ts): the configuration store ([loadConfig],
    [saveConfig]), the sync executor ([sync], [syncForever]), the remote
    registry ([remote]) and the push/pull coordinator ([push], [pull]).

    The commands are asynchronous TypeScript functions that read and write
    files, start child processes, print to the console and end the process
    with [process.exit].  They are embedded as computations of a small
    monad [M] over an explicit [World]; everything the commands do to the
    outside is, in order, in the [events] of its run.  The libraries
    the commands call (yaml, path, execa) are the fields of the class
    [Platform]. *)

From Stdlib Require Import ZArith Floats.PrimFloat.
From stdpp Require Import gmap strings list fin_maps.

Open Scope string_scope.
Open Scope list_scope.

(** ** types.ts *)

Record RemoteConfig := {
  name : string;
  url : string;
  branch : string;
}.

(** Optional members ([field?: T]) are [option]s: [None] is a member that
    is not there. *)
Record RepomirrorConfig := {
  source_repo : string;
  target_repo : string;
  transformation_instructions : string;
  config_version : string;
  default_remote : option string;
  auto_sync : option bool;
  remotes : option (list RemoteConfig);
  target_remote : option string;
  times_to_loop : option float;
}.

Record SyncOptions := {
  autoPush : option bool;
}.

Record PushOptions := {
  remote_opt : option string;   (* remote?: string *)
  branch_opt : option string;   (* branch?: string *)
  all : option bool;
  dryRun : option bool;
}.

Record PullOptions := {
  sourceOnly : option bool;
  syncAfter : option bool;
  check : option bool;
}.

(** ** JavaScript values in a boolean position *)

(** A string is truthy unless it is empty; a member that is not there is
    [undefined], which is falsy. *)
Definition truthy_string (s : string) : bool :=
  match s with
  | EmptyString => false
  | String _ _ => true
  end.

Definition truthy (o : option string) : bool :=
  match o with
  | Some s => truthy_string s
  | None => false
  end.

Definition truthy_flag (o : option bool) : bool :=
  match o with
  | Some b => b
  | None => false
  end.

(** [a || b] on strings that may be missing, and the same with [b] a
    string that is there. *)
Definition js_or (a b : option string) : option string :=
  if truthy a then a else b.

Definition or_else (a : option string) (b : string) : string :=
  match a with
  | Some s => if truthy_string s then s else b
  | None => b
  end.

(** [options?.member]. *)
Definition opt_member {O A} (f : O -> option A) (options : option O) : option A :=
  match options with
  | Some o => f o
  | None => None
  end.

(** ** The outside world *)

(** What a rejected promise or a [throw] carries.  The errors of execa
    have a [signal] member when a signal ended the child. *)
Record JsError := {
  message : string;
  signal : option string;
}.

(** [execa(file, args, { cwd, stdio })]. *)
Record Command := {
  file : string;
  args : list string;
  cwd : string;
  stdio : option string;
}.

Inductive ProcResult :=
  | Resolved (stdout : string)
  | Rejected (error : JsError).

(** The two signals the sync executor listens to. *)
Inductive Signal := SIGINT | SIGTERM.

Definition signal_name (s : Signal) : string :=
  match s with
  | SIGINT => "SIGINT"
  | SIGTERM => "SIGTERM"
  end.

#[global] Instance Signal_eq_dec : EqDecision Signal.
Proof. solve_decision. Defined.

(** The libraries and the environment of a run.  [child_result n c] is how
    the [n]-th child process of the run ends when it was started as [c];
    [signals_during n] are the signals that reach this process while it
    awaits that child.  [yaml_parse] is [None] both for a text that yaml
    rejects and for one that parses to [null]. *)
Class Platform := {
  process_cwd : string;
  resolve : string -> string -> string;
  join : list string -> string;
  yaml_stringify : RepomirrorConfig -> string;
  yaml_parse : string -> option RepomirrorConfig;
  child_result : nat -> Command -> ProcResult;
  signals_during : nat -> list Signal;
}.

Inductive Node :=
  | File (content : string)
  | Dir.

Inductive FsCall :=
  | Mkdir (path : string)
  | WriteFile (path content : string)
  | ReadFile (path : string)
  | Access (path : string)
  | Rename (oldPath newPath : string)
  | Chmod (path : string) (mode : Z).

(** The console messages of the commands, one constructor per template
    string of the source; [render] gives the text. *)
Inductive Message :=
  | MsgSyncScriptMissing
  | MsgRunningSync
  | MsgStoppingSync
  | MsgSyncCompleted
  | MsgSyncStopped
  | MsgSyncFailed (reason : string)
  | MsgRalphScriptMissing
  | MsgRunningRalph
  | MsgPressCtrlC
  | MsgStoppingContinuous
  | MsgContinuousStopped
  | MsgContinuousFailed (reason : string)
  | MsgConfigMissing
  | MsgUsageAdd
  | MsgUpdatedRemote (n : string)
  | MsgAddedRemote (n : string)
  | MsgNoRemotesListed
  | MsgConfiguredRemotes
  | MsgRemoteLine (r : RemoteConfig)
  | MsgUsageRemove
  | MsgRemoteNotFound (n : string)
  | MsgRemovedRemote (n : string)
  | MsgUnknownAction (action : string)
  | MsgAvailableActions
  | MsgNoRemotesConfigured
  | MsgPushingAll
  | MsgPushingTo (n b : string)
  | MsgPushedTo (n : string)
  | MsgFailedPushTo (n reason : string)
  | MsgErrRemoteNotFound (n : string)
  | MsgFailedPush (reason : string)
  | MsgDryRun (u b : string)
  | MsgChecking
  | MsgText (text : string)
  | MsgFailedCheck (reason : string)
  | MsgPulling
  | MsgSourceUpdated
  | MsgFailedPull (reason : string).

Definition newline : string :=
  String (Ascii.ascii_of_nat 10) EmptyString.

Definition render (m : Message) : string :=
  match m with
  | MsgSyncScriptMissing =>
      "Error: .repomirror/sync.sh not found. Run 'npx repomirror init' first."
  | MsgRunningSync => "Running sync.sh..."
  | MsgStoppingSync => newline +:+ "Stopping sync..."
  | MsgSyncCompleted => "Sync completed successfully"
  | MsgSyncStopped => newline +:+ "Sync stopped by user"
  | MsgSyncFailed reason => "Sync failed: " +:+ reason
  | MsgRalphScriptMissing =>
      "Error: .repomirror/ralph.sh not found. Run 'npx repomirror init' first."
  | MsgRunningRalph => "Running ralph.sh (continuous sync)..."
  | MsgPressCtrlC => "Press Ctrl+C to stop"
  | MsgStoppingContinuous => newline +:+ "Stopping continuous sync..."
  | MsgContinuousStopped => newline +:+ "Continuous sync stopped by user"
  | MsgContinuousFailed reason => "Continuous sync failed: " +:+ reason
  | MsgConfigMissing =>
      "Error: repomirror.yaml not found. Run 'npx repomirror init' first."
  | MsgUsageAdd => "Usage: repomirror remote add <name> <url> [branch]"
  | MsgUpdatedRemote n => "✅ Updated remote '" +:+ n +:+ "'"
  | MsgAddedRemote n => "✅ Added remote '" +:+ n +:+ "'"
  | MsgNoRemotesListed => "No remotes configured"
  | MsgConfiguredRemotes => "Configured remotes:"
  | MsgRemoteLine r =>
      "  " +:+ name r +:+ ": " +:+ url r +:+ " (" +:+ branch r +:+ ")"
  | MsgUsageRemove => "Usage: repomirror remote remove <name>"
  | MsgRemoteNotFound n => "Remote '" +:+ n +:+ "' not found"
  | MsgRemovedRemote n => "✅ Removed remote '" +:+ n +:+ "'"
  | MsgUnknownAction action => "Unknown action: " +:+ action
  | MsgAvailableActions => "Available actions: add, list, remove"
  | MsgNoRemotesConfigured =>
      "Error: No remotes configured. Use 'repomirror remote add' to add a remote."
  | MsgPushingAll => "Pushing to all configured remotes..."
  | MsgPushingTo n b => "Pushing to " +:+ n +:+ " (" +:+ b +:+ ")..."
  | MsgPushedTo n => "✅ Pushed to " +:+ n
  | MsgFailedPushTo n reason => "Failed to push to " +:+ n +:+ ": " +:+ reason
  | MsgErrRemoteNotFound n => "Error: Remote '" +:+ n +:+ "' not found"
  | MsgFailedPush reason => "Failed to push: " +:+ reason
  | MsgDryRun u b => "[DRY RUN] Would push to " +:+ u +:+ " (" +:+ b +:+ ")"
  | MsgChecking => "Checking for source changes..."
  | MsgText text => text
  | MsgFailedCheck reason => "Failed to check: " +:+ reason
  | MsgPulling => "Pulling source changes..."
  | MsgSourceUpdated => "✅ Source updated"
  | MsgFailedPull reason => "Failed to pull: " +:+ reason
  end.

(** The closures the sync executor registers with [process.on]; each
    closes over its child process. *)
Inductive Listener :=
  | SyncHandler (child : nat)
  | SyncForeverHandler (child : nat).

#[global] Instance Listener_eq_dec : EqDecision Listener.
Proof. solve_decision. Defined.

Inductive Stream := Stdout | Stderr.

Inductive Event :=
  | Console (s : Stream) (m : Message)
  | Fs (c : FsCall)
  | Spawn (child : nat) (c : Command)
  | Kill (child : nat) (sig : string)
  | ProcessOn (sig : Signal) (l : Listener)
  | ProcessOff (sig : Signal) (l : Listener).

(** The state of a run: the files, the number of child processes started
    so far, and the listeners registered with [process.on], newest
    first. *)
Record World := {
  files : gmap string Node;
  children : nat;
  listeners : list (Signal * Listener);
}.

(** ** The command monad *)

(** A computation returns, throws (a rejected promise), or ends the
    process with [process.exit(code)]; nothing runs after an exit, not
    even a [catch] or a [finally]. *)
Inductive Outcome (A : Type) :=
  | Ret (a : A)
  | Throw (e : JsError)
  | Exit (code : Z).

Arguments Ret {A} a.
Arguments Throw {A} e.
Arguments Exit {A} code.

(** A run ends with an outcome in a world, and has done the [events], in
    this order, to the outside. *)
Record Result (A : Type) := Run {
  outcome : Outcome A;
  world : World;
  events : list Event;
}.

Arguments Run {A} outcome world events.
Arguments outcome {A} r.
Arguments world {A} r.
Arguments events {A} r.

Definition M (A : Type) : Type := World -> Result A.

(** [after es r]: the run [r] after the events [es]. *)
Definition after {A} (es : list Event) (r : Result A) : Result A :=
  Run (outcome r) (world r) (es ++ events r).

Definition ret {A} (a : A) : M A := fun w => Run (Ret a) w [].

Definition bind {A B} (m : M A) (k : A -> M B) : M B :=
  fun w =>
    match m w with
    | Run (Ret a) w' es => after es (k a w')
    | Run (Throw e) w' es => Run (Throw e) w' es
    | Run (Exit c) w' es => Run (Exit c) w' es
    end.

Notation "x <- m ;; k" := (bind m (fun x => k))
  (at level 100, m at next level, right associativity).
Notation "m ;; k" := (bind m (fun _ => k))
  (at level 100, right associativity).

Definition throw {A} (e : JsError) : M A := fun w => Run (Throw e) w [].

Definition process_exit {A} (code : Z) : M A := fun w => Run (Exit code) w [].

(** [try { body } catch (error) { handler }]. *)
Definition try_catch {A} (body : M A) (handler : JsError -> M A) : M A :=
  fun w =>
    match body w with
    | Run (Throw e) w' es => after es (handler e w')
    | r => r
    end.

(** [try { body } finally { cleanup }]: the cleanup runs when the body
    returns or throws, then the body's outcome stands. *)
Definition try_finally {A} (body : M A) (cleanup : M unit) : M A :=
  fun w =>
    match body w with
    | Run (Ret a) w' es => after es ((cleanup ;; ret a) w')
    | Run (Throw e) w' es => after es ((cleanup ;; throw e) w')
    | Run (Exit c) w' es => Run (Exit c) w' es
    end.

Definition emit (e : Event) : M unit := fun w => Run (Ret tt) w [e].

Definition console_log (m : Message) : M unit := emit (Console Stdout m).
Definition console_error (m : Message) : M unit := emit (Console Stderr m).

Definition when (b : bool) (m : M unit) : M unit :=
  if b then m else ret tt.

(** [for (const x of xs) { body }]. *)
Fixpoint for_of {A} (xs : list A) (body : A -> M unit) : M unit :=
  match xs with
  | [] => ret tt
  | x :: xs' => body x ;; for_of xs' body
  end.

(** The exit status of the process when a command ends with outcome [o]:
    a command that returns leaves Node to end with status 0, an uncaught
    rejection ends it with status 1. *)
Definition exit_status {A} (o : Outcome A) : Z :=
  match o with
  | Ret _ => 0
  | Throw _ => 1
  | Exit c => c
  end.

(** ** The file system: fs.promises *)

Definition set_files (fs : gmap string Node) (w : World) : World :=
  {| files := fs; children := children w; listeners := listeners w |}.

Definition fs_error (code path : string) : JsError :=
  {| message := code +:+ ": " +:+ path; signal := None |}.

(** [fs.mkdir(path, { recursive: true })] is content when the directory
    is there already and fails on a file. *)
Definition fs_mkdir (path : string) : M unit :=
  emit (Fs (Mkdir path)) ;;
  fun w =>
    match files w !! path with
    | Some (File _) => Run (Throw (fs_error "EEXIST" path)) w []
    | _ => Run (Ret tt) (set_files (<[path := Dir]> (files w)) w) []
    end.

(** [fs.writeFile(path, content, "utf-8")] opens the file itself for
    writing, which empties it, and writes the content into it. *)
Definition fs_writeFile (path content : string) : M unit :=
  emit (Fs (WriteFile path content)) ;;
  fun w =>
    match files w !! path with
    | Some Dir => Run (Throw (fs_error "EISDIR" path)) w []
    | _ => Run (Ret tt) (set_files (<[path := File content]> (files w)) w) []
    end.

Definition fs_readFile (path : string) : M string :=
  emit (Fs (ReadFile path)) ;;
  fun w =>
    match files w !! path with
    | Some (File content) => Run (Ret content) w []
    | Some Dir => Run (Throw (fs_error "EISDIR" path)) w []
    | None => Run (Throw (fs_error "ENOENT" path)) w []
    end.

Definition fs_access (path : string) : M unit :=
  emit (Fs (Access path)) ;;
  fun w =>
    match files w !! path with
    | Some _ => Run (Ret tt) w []
    | None => Run (Throw (fs_error "ENOENT" path)) w []
    end.

Section Commands.

Context `{Platform}.

(** ** Config store *)

(** [sourceRepo && sourceRepo !== "./" ? resolve(process.cwd(), sourceRepo)
    : process.cwd()], the first lines of [loadConfig] and [saveConfig]. *)
Definition baseDir (sourceRepo : option string) : string :=
  match sourceRepo with
  | Some s =>
      if truthy_string s && negb (String.eqb s "./")
      then resolve process_cwd s
      else process_cwd
  | None => process_cwd
  end.

Definition configPath (sourceRepo : option string) : string :=
  join [baseDir sourceRepo; "repomirror.yaml"].

Definition loadConfig (sourceRepo : option string)
  : M (option RepomirrorConfig) :=
  try_catch
    (configContent <- fs_readFile (configPath sourceRepo) ;;
     ret (yaml_parse configContent))
    (fun _ => ret None).

Definition saveConfig (config : RepomirrorConfig) (sourceRepo : option string)
  : M unit :=
  fs_mkdir (baseDir sourceRepo) ;;
  let configContent := yaml_stringify config in
  fs_writeFile (configPath sourceRepo) configContent.

(** ** Child processes and signals *)

Record Subprocess := {
  pid : nat;
  command : Command;
}.

(** The world with one more child started. *)
Definition started (w : World) : World :=
  {| files := files w; children := S (children w); listeners := listeners w |}.

(** [execa(file, args, options)] starts the child and returns at once. *)
Definition execa (c : Command) : M Subprocess :=
  fun w =>
    Run (Ret {| pid := children w; command := c |}) (started w)
        [Spawn (children w) c].

(** [await subprocess]. *)
Definition await (p : Subprocess) : M string :=
  match child_result (pid p) (command p) with
  | Resolved stdout => ret stdout
  | Rejected error => throw error
  end.

(** [await execa(file, args, options)]. *)
Definition run (c : Command) : M string :=
  p <- execa c ;; await p.

(** [process.on] appends the listener; [process.off] takes away the
    instance of it that was added last, if there is one.  The newest
    listener is at the head of [listeners]. *)
Definition process_on (sig : Signal) (l : Listener) : M unit :=
  emit (ProcessOn sig l) ;;
  fun w =>
    Run (Ret tt)
        {| files := files w; children := children w;
           listeners := (sig, l) :: listeners w |} [].

Fixpoint remove_first (x : Signal * Listener) (ls : list (Signal * Listener))
  : list (Signal * Listener) :=
  match ls with
  | [] => []
  | y :: ls' => if decide (x = y) then ls' else y :: remove_first x ls'
  end.

Definition process_off (sig : Signal) (l : Listener) : M unit :=
  emit (ProcessOff sig l) ;;
  fun w =>
    Run (Ret tt)
        {| files := files w; children := children w;
           listeners := remove_first (sig, l) (listeners w) |} [].

(** The body of [signalHandler] in [sync] and in [syncForever]: both
    send SIGINT to their child, whichever signal arrived. *)
Definition signalHandler (l : Listener) : M unit :=
  match l with
  | SyncHandler child =>
      console_log MsgStoppingSync ;; emit (Kill child "SIGINT")
  | SyncForeverHandler child =>
      console_log MsgStoppingContinuous ;; emit (Kill child "SIGINT")
  end.

(** A signal that arrives runs its listeners in the order they were
    added; without a listener it ends the process. *)
Definition deliver (sig : Signal) : M unit :=
  fun w =>
    match filter (fun sl => sl.1 = sig) (reverse (listeners w)) with
    | [] => Run (Exit (match sig with SIGINT => 130 | SIGTERM => 143 end)) w []
    | ls => for_of ls (fun sl => signalHandler sl.2) w
    end.

(** [await subprocess] for a sync child: the signals of the run arrive
    while the child is running. *)
Definition await_listening (p : Subprocess) : M string :=
  for_of (signals_during (pid p)) deliver ;;
  await p.

(** ** remote *)

Fixpoint findIndex_from {A} (p : A -> bool) (i : Z) (xs : list A) : Z :=
  match xs with
  | [] => -1
  | x :: xs' => if p x then i else findIndex_from p (i + 1) xs'
  end.

(** [xs.findIndex(p)]: the first index whose element satisfies [p], or -1. *)
Definition findIndex {A} (p : A -> bool) (xs : list A) : Z :=
  findIndex_from p 0 xs.

Definition set_remotes (rs : list RemoteConfig) (c : RepomirrorConfig)
  : RepomirrorConfig :=
  {| source_repo := source_repo c;
     target_repo := target_repo c;
     transformation_instructions := transformation_instructions c;
     config_version := config_version c;
     default_remote := default_remote c;
     auto_sync := auto_sync c;
     remotes := Some rs;
     target_remote := target_remote c;
     times_to_loop := times_to_loop c |}.

(** [r => r.name === name], the predicate of every lookup by name. *)
Definition named (n : string) (r : RemoteConfig) : bool :=
  String.eqb (name r) n.

(** The case ["add"] once [name] and [url] passed the check: the remotes
    are updated in the configuration object, which is then saved. *)
Definition remote_add (config : RepomirrorConfig) (name url branch : string)
  : M unit :=
  let config_remotes := default [] (remotes config) in
  let existingIndex := findIndex (named name) config_remotes in
  config <-
    (if (0 <=? existingIndex)%Z
     then
       let r := {| name := name; url := url; branch := branch |} in
       console_log (MsgUpdatedRemote name) ;;
       ret (set_remotes (<[Z.to_nat existingIndex := r]> config_remotes) config)
     else
       let r := {| name := name; url := url; branch := branch |} in
       console_log (MsgAddedRemote name) ;;
       ret (set_remotes (config_remotes ++ [r]) config)) ;;
  saveConfig config None.

Definition remote_list (config : RepomirrorConfig) : M unit :=
  match remotes config with
  | None | Some [] => console_log MsgNoRemotesListed
  | Some config_remotes =>
      console_log MsgConfiguredRemotes ;;
      for_of config_remotes (fun remote => console_log (MsgRemoteLine remote))
  end.

Definition remote_remove (config : RepomirrorConfig) (name : string) : M unit :=
  match remotes config with
  | None => console_log (MsgRemoteNotFound name)
  | Some config_remotes =>
      let index := findIndex (named name) config_remotes in
      if (0 <=? index)%Z
      then
        console_log (MsgRemovedRemote name) ;;
        saveConfig (set_remotes (delete (Z.to_nat index) config_remotes) config) None
      else console_log (MsgRemoteNotFound name)
  end.

(** [remote(action, ...args)].  [const [name, url, branch = "main"] = args]
    takes the arguments by position; the default stands in for a third
    argument that is not there. *)
Definition remote (action : string) (args : list string) : M unit :=
  config <- loadConfig None ;;
  match config with
  | None => console_error MsgConfigMissing ;; process_exit 1
  | Some config =>
      if String.eqb action "add" then
        let branch := default "main" (args !! 2%nat) in
        match args !! 0%nat, args !! 1%nat with
        | Some name, Some url =>
            if negb (truthy_string name) || negb (truthy_string url)
            then console_error MsgUsageAdd ;; process_exit 1
            else remote_add config name url branch
        | _, _ => console_error MsgUsageAdd ;; process_exit 1
        end
      else if String.eqb action "list" then remote_list config
      else if String.eqb action "remove" then
        match args !! 0%nat with
        | Some name =>
            if negb (truthy_string name)
            then console_error MsgUsageRemove ;; process_exit 1
            else remote_remove config name
        | None => console_error MsgUsageRemove ;; process_exit 1
        end
      else
        console_error (MsgUnknownAction action) ;;
        console_log MsgAvailableActions ;;
        process_exit 1
  end.

(** ** push *)

Definition git_push (remote_url branch targetRepo : string) : Command :=
  {| file := "git"; args := ["push"; remote_url; "HEAD:" +:+ branch];
     cwd := targetRepo; stdio := None |}.

(** The body of the loop over the remotes: one [try]/[catch] for each
    remote. *)
Definition push_all_round (targetRepo : string) (dry : bool)
    (remote : RemoteConfig) : M unit :=
  try_catch
    (console_log (MsgPushingTo (name remote) (branch remote)) ;;
     when (negb dry)
       (run (git_push (url remote) (branch remote) targetRepo) ;; ret tt) ;;
     console_log (MsgPushedTo (name remote)))
    (fun error =>
       console_error (MsgFailedPushTo (name remote) (message error))).

Definition push_all (targetRepo : string) (dry : bool)
    (config_remotes : list RemoteConfig) : M unit :=
  console_log MsgPushingAll ;;
  for_of config_remotes (push_all_round targetRepo dry).

(** [options?.remote || config.default_remote || "origin"]. *)
Definition remoteName (options : option PushOptions) (config : RepomirrorConfig)
  : string :=
  or_else (js_or (opt_member remote_opt options) (default_remote config)) "origin".

Definition push_one (options : option PushOptions) (config : RepomirrorConfig)
    (config_remotes : list RemoteConfig) : M unit :=
  let targetRepo := target_repo config in
  let remoteName := remoteName options config in
  match List.find (named remoteName) config_remotes with
  | None => console_error (MsgErrRemoteNotFound remoteName) ;; process_exit 1
  | Some remote =>
      let branch := or_else (opt_member branch_opt options) (branch remote) in
      console_log (MsgPushingTo remoteName branch) ;;
      if negb (truthy_flag (opt_member dryRun options))
      then
        try_catch
          (run (git_push (url remote) branch targetRepo) ;;
           console_log (MsgPushedTo remoteName))
          (fun error =>
             console_error (MsgFailedPush (message error)) ;; process_exit 1)
      else console_log (MsgDryRun (url remote) branch)
  end.

Definition push (options : option PushOptions) : M unit :=
  config <- loadConfig None ;;
  let no_remotes := console_error MsgNoRemotesConfigured ;; process_exit 1 in
  match config with
  | None => no_remotes
  | Some config =>
      match remotes config with
      | None | Some [] => no_remotes
      | Some config_remotes =>
          if truthy_flag (opt_member all options)
          then push_all (target_repo config)
                 (truthy_flag (opt_member dryRun options)) config_remotes
          else push_one options config config_remotes
      end
  end.

(** ** sync and syncForever *)

Definition signal_is (error : JsError) (sig : string) : bool :=
  match signal error with
  | Some s => String.eqb s sig
  | None => false
  end.

Definition sync (options : option SyncOptions) : M unit :=
  let syncScript := join [process_cwd; ".repomirror"; "sync.sh"] in
  try_catch (fs_access syncScript)
    (fun _ => console_error MsgSyncScriptMissing ;; process_exit 1) ;;
  console_log MsgRunningSync ;;
  subprocess <- execa {| file := "bash"; args := [syncScript];
                         cwd := process_cwd; stdio := Some "inherit" |} ;;
  let signalHandler := SyncHandler (pid subprocess) in
  process_on SIGINT signalHandler ;;
  process_on SIGTERM signalHandler ;;
  try_finally
    (try_catch
       (await_listening subprocess ;;
        console_log MsgSyncCompleted ;;
        when (truthy_flag (opt_member autoPush options))
          (config <- loadConfig None ;;
           match config with
           | Some _ =>
               push (Some {| remote_opt := None; branch_opt := None;
                             all := Some true; dryRun := None |})
           | None => ret tt
           end))
       (fun error =>
          process_off SIGINT signalHandler ;;
          process_off SIGTERM signalHandler ;;
          when (signal_is error "SIGINT")
            (console_log MsgSyncStopped ;; process_exit 0) ;;
          console_error (MsgSyncFailed (message error)) ;;
          process_exit 1))
    (process_off SIGINT signalHandler ;;
     process_off SIGTERM signalHandler).

Definition syncForever (options : option SyncOptions) : M unit :=
  let ralphScript := join [process_cwd; ".repomirror"; "ralph.sh"] in
  try_catch (fs_access ralphScript)
    (fun _ => console_error MsgRalphScriptMissing ;; process_exit 1) ;;
  console_log MsgRunningRalph ;;
  console_log MsgPressCtrlC ;;
  subprocess <- execa {| file := "bash"; args := [ralphScript];
                         cwd := process_cwd; stdio := Some "inherit" |} ;;
  let signalHandler := SyncForeverHandler (pid subprocess) in
  process_on SIGINT signalHandler ;;
  process_on SIGTERM signalHandler ;;
  try_finally
    (try_catch
       (await_listening subprocess ;; ret tt)
       (fun error =>
          process_off SIGINT signalHandler ;;
          process_off SIGTERM signalHandler ;;
          when (signal_is error "SIGINT")
            (console_log MsgContinuousStopped ;; process_exit 0) ;;
          console_error (MsgContinuousFailed (message error)) ;;
          process_exit 1))
    (process_off SIGINT signalHandler ;;
     process_off SIGTERM signalHandler).

(** ** pull *)

Definition git (arguments : list string) (dir : string) (io : option string)
  : Command :=
  {| file := "git"; args := arguments; cwd := dir; stdio := io |}.

(** [if (!options?.sourceOnly) { ... }]: what [pull] goes on to after a
    pull that went through. *)
Definition pull_chain (options : option PullOptions) (config : RepomirrorConfig)
  : M unit :=
  when (negb (truthy_flag (opt_member sourceOnly options)))
    (if truthy_flag (opt_member syncAfter options)
     then syncForever None
     else if truthy_flag (auto_sync config)
     then sync None
     else ret tt).

Definition pull (options : option PullOptions) : M unit :=
  config <- loadConfig None ;;
  match config with
  | None => console_error MsgConfigMissing ;; process_exit 1
  | Some config =>
      let sourceRepo := source_repo config in
      if truthy_flag (opt_member check options)
      then
        console_log MsgChecking ;;
        try_catch
          (run (git ["fetch"] sourceRepo None) ;;
           stdout <- run (git ["status"; "-uno"] sourceRepo None) ;;
           console_log (MsgText stdout))
          (fun error =>
             console_error (MsgFailedCheck (message error)) ;; process_exit 1)
      else
        console_log MsgPulling ;;
        try_catch
          (run (git ["pull"] sourceRepo (Some "inherit")) ;;
           console_log MsgSourceUpdated ;;
           pull_chain options config)
          (fun error =>
             console_error (MsgFailedPull (message error)) ;; process_exit 1)
  end.

(** ** Reading runs *)

(** The two modes of the sync executor. *)
Inductive SyncMode := SingleShot | Continuous.

Definition executor (mode : SyncMode) : option SyncOptions -> M unit :=
  match mode with
  | SingleShot => sync
  | Continuous => syncForever
  end.

Definition script (mode : SyncMode) : string :=
  match mode with
  | SingleShot => join [process_cwd; ".repomirror"; "sync.sh"]
  | Continuous => join [process_cwd; ".repomirror"; "ralph.sh"]
  end.

Definition script_command (mode : SyncMode) : Command :=
  {| file := "bash"; args := [script mode]; cwd := process_cwd;
     stdio := Some "inherit" |}.

Definition handler_of (mode : SyncMode) (child : nat) : Listener :=
  match mode with
  | SingleShot => SyncHandler child
  | Continuous => SyncForeverHandler child
  end.

(** The world in which the executor awaits its child: the child is
    started and the handler listens to both signals. *)
Definition listening (mode : SyncMode) (w : World) : World :=
  {| files := files w; children := S (children w);
     listeners := (SIGTERM, handler_of mode (children w))
                  :: (SIGINT, handler_of mode (children w)) :: listeners w |}.

(** The document [loadConfig] finds in the world, if any. *)
Definition stored_config (sourceRepo : option string) (w : World)
  : option RepomirrorConfig :=
  match files w !! configPath sourceRepo with
  | Some (File content) => yaml_parse content
  | _ => None
  end.

(** The world after a save that went through. *)
Definition saved (config : RepomirrorConfig) (sourceRepo : option string)
    (w : World) : World :=
  set_files
    (<[configPath sourceRepo := File (yaml_stringify config)]>
       (<[baseDir sourceRepo := Dir]> (files w))) w.

End Commands.

(** What the listener [l] does when it is called. *)
Definition handler_events (l : Listener) : list Event :=
  match l with
  | SyncHandler child =>
      [Console Stdout MsgStoppingSync; Kill child "SIGINT"]
  | SyncForeverHandler child =>
      [Console Stdout MsgStoppingContinuous; Kill child "SIGINT"]
  end.

(** A computation that does not throw, whatever the world. *)
Definition no_throw {A} (m : M A) : Prop :=
  forall w e, outcome (m w) <> Throw e.

Definition spawned (es : list Event) : list Command :=
  omap (fun e => match e with Spawn _ c => Some c | _ => None end) es.

Definition fs_calls (es : list Event) : list FsCall :=
  omap (fun e => match e with Fs c => Some c | _ => None end) es.

(** What a run of [push] told the user: the destinations it announced,
    the verdict it gave for each, and the dry-run notices. *)
Inductive Report :=
  | Pushed (n : string)
  | Failed (n reason : string).

Definition reports (es : list Event) : list Report :=
  omap (fun e =>
          match e with
          | Console Stdout (MsgPushedTo n) => Some (Pushed n)
          | Console Stderr (MsgFailedPushTo n reason) => Some (Failed n reason)
          | _ => None
          end) es.

Definition announced (es : list Event) : list (string * string) :=
  omap (fun e =>
          match e with
          | Console Stdout (MsgPushingTo n b) => Some (n, b)
          | _ => None
          end) es.

Definition dry_run_notices (es : list Event) : list (string * string) :=
  omap (fun e =>
          match e with
          | Console Stdout (MsgDryRun u b) => Some (u, b)
          | _ => None
          end) es.

Definition verdict (remote : RemoteConfig) (result : ProcResult) : Report :=
  match result with
  | Resolved _ => Pushed (name remote)
  | Rejected error => Failed (name remote) (message error)
  end.

(** The same options for a push that is not a dry run. *)
Definition live (options : PushOptions) : PushOptions :=
  {| remote_opt := remote_opt options; branch_opt := branch_opt options;
     all := all options; dryRun := Some false |}.

(** The resolution of the remote name and of the branch as the
    specification words it: the option when it is given, else the
    configured default when it is set, else ["origin"]; the branch option
    when it is given, else the branch of the remote. *)
Definition specified_remoteName (options : option PushOptions)
    (config : RepomirrorConfig) : string :=
  match opt_member remote_opt options with
  | Some given => given
  | None => default "origin" (default_remote config)
  end.

Definition specified_branch (options : option PushOptions)
    (remote : RemoteConfig) : string :=
  default (branch remote) (opt_member branch_opt options).

(** Single-remote mode as the specification words it: the run is fatal
    when the specified name is not registered, and otherwise announces
    the specified name and branch. *)
Definition single_remote_as_specified (options : option PushOptions)
    (config : RepomirrorConfig) (config_remotes : list RemoteConfig)
    (r : Result unit) : Prop :=
  let n := specified_remoteName options config in
  match List.find (named n) config_remotes with
  | None => exit_status (outcome r) <> 0%Z
  | Some remote => announced (events r) = [(n, specified_branch options remote)]
  end.

(** The protocol the specification asks of [saveConfig]: the content goes
    to a temporary file that is then renamed to [path], and [path] itself
    is never opened for writing. *)
Definition writes_by_rename (path : string) (calls : list FsCall) : Prop :=
  (exists tmp content,
      tmp <> path /\ WriteFile tmp content ∈ calls /\ Rename tmp path ∈ calls)
  /\ (forall content, WriteFile path content ∉ calls).

(** ** A platform to run the commands on *)

(** A working directory [/work] that holds [repomirror.yaml], a yaml that
    knows the documents in [documents], and children that end as [results]
    says. *)
Module Demo.

Definition origin : RemoteConfig :=
  {| name := "origin"; url := "https://x/repo.git"; branch := "main" |}.

Definition staging : RemoteConfig :=
  {| name := "staging"; url := "https://x/repo2.git"; branch := "dev" |}.

Definition config : RepomirrorConfig :=
  {| source_repo := "./source"; target_repo := "./target";
     transformation_instructions := "convert to typescript";
     config_version := "0.1.0";
     default_remote := Some "staging"; auto_sync := Some true;
     remotes := Some [origin; staging];
     target_remote := None; times_to_loop := None |}.

Definition remote_eqb (a b : RemoteConfig) : bool :=
  String.eqb (name a) (name b) && String.eqb (url a) (url b)
  && String.eqb (branch a) (branch b).

Definition option_eqb {A} (eqb : A -> A -> bool) (a b : option A) : bool :=
  match a, b with
  | Some x, Some y => eqb x y
  | None, None => true
  | _, _ => false
  end.

Fixpoint list_eqb {A} (eqb : A -> A -> bool) (xs ys : list A) : bool :=
  match xs, ys with
  | [], [] => true
  | x :: xs', y :: ys' => eqb x y && list_eqb eqb xs' ys'
  | _, _ => false
  end.

Definition config_eqb (a b : RepomirrorConfig) : bool :=
  String.eqb (source_repo a) (source_repo b)
  && String.eqb (target_repo a) (target_repo b)
  && String.eqb (transformation_instructions a) (transformation_instructions b)
  && String.eqb (config_version a) (config_version b)
  && option_eqb String.eqb (default_remote a) (default_remote b)
  && option_eqb Bool.eqb (auto_sync a) (auto_sync b)
  && option_eqb (list_eqb remote_eqb) (remotes a) (remotes b)
  && option_eqb String.eqb (target_remote a) (target_remote b)
  && option_eqb PrimFloat.eqb (times_to_loop a) (times_to_loop b).

Definition lines (ls : list string) : string :=
  foldr (fun l text => l +:+ newline +:+ text) EmptyString ls.

Definition config_text : string :=
  lines
    ["source_repo: ./source";
     "target_repo: ./target";
     "transformation_instructions: convert to typescript";
     "config_version: 0.1.0";
     "default_remote: staging";
     "auto_sync: true";
     "remotes:";
     "  - name: origin";
     "    url: https://x/repo.git";
     "    branch: main";
     "  - name: staging";
     "    url: https://x/repo2.git";
     "    branch: dev"].

Definition documents : list (string * RepomirrorConfig) :=
  [(config_text, config)].

Definition stringify (c : RepomirrorConfig) : string :=
  match List.find (fun d => config_eqb d.2 c) documents with
  | Some d => d.1
  | None => lines ["{}"]
  end.

Definition parse (text : string) : option RepomirrorConfig :=
  snd <$> List.find (fun d => String.eqb d.1 text) documents.

Definition platform (results : nat -> Command -> ProcResult)
    (signals : nat -> list Signal) : Platform :=
  {| process_cwd := "/work";
     resolve := fun from to => from +:+ "/" +:+ to;
     join := fun parts => foldr (fun a b => if truthy_string b then a +:+ "/" +:+ b else a) "" parts;
     yaml_stringify := stringify;
     yaml_parse := parse;
     child_result := results;
     signals_during := signals |}.

Definition world : World :=
  {| files := {[ "/work/repomirror.yaml" := File config_text;
                 "/work/.repomirror/sync.sh" := File "#!/usr/bin/env bash";
                 "/work/.repomirror/ralph.sh" := File "#!/usr/bin/env bash" ]};
     children := 0;
     listeners := [] |}.

Definition all_fine : nat -> Command -> ProcResult :=
  fun _ _ => Resolved "".

Definition quiet : nat -> list Signal := fun _ => [].

(** Every child succeeds and no signal arrives. *)
Definition calm : Platform := platform all_fine quiet.

(** The url of [staging] cannot be reached: a [git push] to it fails. *)
Definition unreachable_error : JsError :=
  {| message := "Command failed with exit code 128: git push https://x/repo2.git HEAD:dev";
     signal := None |}.

Definition staging_down (n : nat) (c : Command) : ProcResult :=
  if decide (args c !! 1%nat = Some (url staging))
  then Rejected unreachable_error
  else Resolved "".

Definition unreachable : Platform := platform staging_down quiet.

(** The user presses Ctrl+C while the sync script runs, and the script
    dies of the SIGINT that is passed on. *)
Definition interrupted_error : JsError :=
  {| message := "Command was killed with SIGINT (User interruption with CTRL-C)";
     signal := Some "SIGINT" |}.

Definition killed_by_sigint (n : nat) (c : Command) : ProcResult :=
  if String.eqb (file c) "bash" then Rejected interrupted_error else Resolved "".

Definition interrupted : Platform :=
  platform killed_by_sigint (fun _ => [SIGINT]).

Definition check_and_sync_after : PullOptions :=
  {| sourceOnly := None; syncAfter := Some true; check := Some true |}.


Definition push_everywhere : PushOptions :=
  {| remote_opt := None; branch_opt := None; all := Some true; dryRun := None |}.

Definition dry_run_everywhere : PushOptions :=
  {| remote_opt := None; branch_opt := None; all := Some true;
     dryRun := Some true |}.

Definition push_to_origin : PushOptions :=
  {| remote_opt := Some "origin"; branch_opt := None; all := None;
     dryRun := None |}.

(** A remote option and a branch option that are given, and empty. *)
Definition empty_options : PushOptions :=
  {| remote_opt := Some ""; branch_opt := Some ""; all := None;
     dryRun := None |}.

End Demo.


(** * More of the command layer *)

From Stdlib Require Import DecimalString.

(** The remotes after [remote add]: what the case ["add"] hands to
    [saveConfig]. *)
Definition upsert (n u b : string) (rs : list RemoteConfig)
  : list RemoteConfig :=
  let i := findIndex (named n) rs in
  let r := {| name := n; url := u; branch := b |} in
  if (0 <=? i)%Z then <[Z.to_nat i := r]> rs else rs ++ [r].

(** The world after [n] more children were started. *)
Definition started_n (n : nat) (w : World) : World :=
  Nat.iter n started w.

(** The signals sent to children. *)
Definition kills (es : list Event) : list (nat * string) :=
  omap (fun e =>
          match e with
          | Kill child sig => Some (child, sig)
          | _ => None
          end) es.

(** The remotes [push] finds: those of the stored document, none when
    there is no document or it has no [remotes]. *)
Definition registry `{Platform} (w : World) : list RemoteConfig :=
  default [] (stored_config None w ≫= remotes).

(** What the listeners in [ls] do when [sig] arrives. *)
Definition answers (ls : list (Signal * Listener)) (sig : Signal)
  : list Event :=
  filter (fun sl => sl.1 = sig) (reverse ls) ≫= fun sl => handler_events sl.2.

(** The options [sync] passes to [push] for an automatic push. *)
Definition auto_push_options : PushOptions :=
  {| remote_opt := None; branch_opt := None; all := Some true; dryRun := None |}.

(** The world once both handlers are taken off again. *)
Definition unlistening (l : Listener) (w : World) : World :=
  {| files := files w; children := children w;
     listeners := remove_first (SIGTERM, l) (remove_first (SIGINT, l) (listeners w)) |}.

(** What [sync] does after its child, when asked to push. *)
Definition auto_push `{Platform} : M unit :=
  config <- loadConfig None ;;
  match config with
  | Some _ => push (Some auto_push_options)
  | None => ret tt
  end.

(** ** The setup flow: preflight checks, prompt and scripts *)

(** What [generateTransformationPrompt] returns and [createRepoMirrorFiles]
    writes to [prompt.md].  On the branch of the template it is a text.
    On the other branch it is what [query] returns, and that is not a
    text: [query] returns at once the [Query] of the SDK, the async
    generator over the messages of the session for the meta prompt;
    [await] hands it on as it is, and [as string] is a cast. *)
Inductive Prompt :=
  | PromptText (text : string)
  | PromptQuery (metaPrompt : string).

(** What comes of a [Query] in the hands of [fs.writeFile], which writes
    the chunks of an async iterable one by one and throws at a chunk that
    is neither a string nor a buffer: every chunk is written, or the
    writing is broken off, by an error of the session or by such a chunk,
    with [written] in the file by then. *)
Inductive Drained :=
  | Written (text : string)
  | Broken (written : string) (error : JsError).

(** What the setup flow reads from its host besides the [Platform]: the
    environment, the string primitives of JavaScript that depend on the
    encoding ([trim], [length]), [path.basename], the answers of the user
    to [inquirer.prompt] (given the name and the default of what was
    asked), and what the session of the Claude Code SDK for a meta prompt
    comes to when it is written out. *)
Class Host := {
  process_env : string -> option string;
  js_trim : string -> string;
  js_length : string -> nat;
  basename : string -> string;
  inquirer_answer : string -> string -> string;
  query : string -> Drained;
}.

(** [`${n}`] for a length. *)
Definition decimal (n : nat) : string :=
  NilZero.string_of_uint (Nat.to_uint n).

Definition dquote : string := String (Ascii.ascii_of_nat 34) EmptyString.
Definition tab : Ascii.ascii := Ascii.ascii_of_nat 9.
Definition linefeed : Ascii.ascii := Ascii.ascii_of_nat 10.

(** [s.split(sep)] for a separator of one character. *)
Fixpoint split_on (sep : Ascii.ascii) (s : string) : list string :=
  match s with
  | EmptyString => [EmptyString]
  | String c s' =>
      if Ascii.eqb c sep then EmptyString :: split_on sep s'
      else
        match split_on sep s' with
        | first :: rest => String c first :: rest
        | [] => [String c EmptyString]
        end
  end.

(** [[...new Set(xs)]]: the elements in the order of their first
    occurrence. *)
Definition js_set (xs : list string) : list string :=
  fold_left (fun seen x => if decide (x ∈ seen) then seen else seen ++ [x]) xs [].

(** [xs.join(sep)]. *)
Fixpoint join_with (sep : string) (xs : list string) : string :=
  match xs with
  | [] => EmptyString
  | [x] => x
  | x :: xs' => x +:+ sep +:+ join_with sep xs'
  end.

(** The spinners of ora write to stderr: the text when they start, and
    the text with a mark when they succeed or fail. *)
Definition ora_start (text : string) : M unit :=
  emit (Console Stderr (MsgText ("- " +:+ text))).
Definition ora_succeed (text : string) : M unit :=
  emit (Console Stderr (MsgText ("✔ " +:+ text))).
Definition ora_fail (text : string) : M unit :=
  emit (Console Stderr (MsgText ("✖ " +:+ text))).

Definition log (text : string) : M unit := console_log (MsgText text).
Definition log_error (text : string) : M unit := console_error (MsgText text).

Section Setup.

Context `{Platform} `{Host}.

(** [execa("claude", ["-p", "say hi more than 10 chars"], { timeout:
    30000, input: "" })]; the timeout is one of the ways in which the
    child can be rejected. *)
Definition claude_test : Command :=
  {| file := "claude"; args := ["-p"; "say hi more than 10 chars"];
     cwd := process_cwd; stdio := None |}.

Definition skip_claude_test : bool :=
  match process_env "SKIP_CLAUDE_TEST" with
  | Some value => String.eqb value "true"
  | None => false
  end.

Definition performPreflightChecks (targetRepo : string) : M unit :=
  log (newline +:+ "🔍 Performing preflight checks..." +:+ newline) ;;
  log "1. Checking if target directory exists..." ;;
  ora_start ("   Accessing " +:+ targetRepo) ;;
  try_catch
    (fs_access targetRepo ;;
     ora_succeed ("   Target directory " +:+ targetRepo +:+ " exists"))
    (fun _ =>
       ora_fail ("   Target directory " +:+ targetRepo +:+ " does not exist") ;;
       process_exit 1) ;;
  log "2. Checking if target directory is a git repository..." ;;
  ora_start ("   Verifying git repository in " +:+ targetRepo) ;;
  try_catch
    (stdout <- run (git ["rev-parse"; "--git-dir"] targetRepo None) ;;
     let gitDir := js_trim stdout in
     ora_succeed ("   Git repository found (git dir: " +:+ gitDir +:+ ")"))
    (fun _ =>
       ora_fail ("   Target directory " +:+ targetRepo
                 +:+ " is not a git repository") ;;
       process_exit 1) ;;
  log "3. Checking git remotes configuration..." ;;
  ora_start ("   Listing git remotes in " +:+ targetRepo) ;;
  try_catch
    (stdout <- run (git ["remote"; "-v"] targetRepo None) ;;
     when (negb (truthy_string (js_trim stdout)))
       (ora_fail ("   Target directory " +:+ targetRepo
                  +:+ " has no git remotes configured") ;;
        process_exit 1) ;;
     let remotes := split_on linefeed (js_trim stdout) in
     let remoteNames :=
       js_set ((fun line => hd EmptyString (split_on tab line)) <$> remotes) in
     ora_succeed ("   Found " +:+ decimal (length remoteNames)
                  +:+ " git remote(s): " +:+ join_with ", " remoteNames))
    (fun _ =>
       ora_fail ("   Failed to check git remotes in " +:+ targetRepo) ;;
       process_exit 1) ;;
  when (negb skip_claude_test)
    (log "4. Testing Claude Code configuration..." ;;
     ora_start "   Running Claude Code test command" ;;
     try_catch
       (stdout <- run claude_test ;;
        when (negb (truthy_string stdout) || Nat.ltb (js_length (js_trim stdout)) 10)
          (ora_fail "   Claude Code test failed - response was empty or too short" ;;
           process_exit 1) ;;
        ora_succeed "   Claude Code is working correctly")
       (fun _ =>
          ora_fail "   Claude Code is not properly configured" ;;
          log "   Please run `claude` to set up your profile" ;;
          process_exit 1)) ;;
  log (newline +:+ "✅ All preflight checks passed!" +:+ newline).

(** The template [generateTransformationPrompt] fills in when the Claude
    Code test is skipped. *)
Definition template_prompt
    (sourceRepo targetRepo transformationInstructions : string) : string :=
  join_with newline
    ["Your job is to port " +:+ sourceRepo +:+ " to " +:+ targetRepo
       +:+ " and maintain the repository.";
     "";
     "You have access to the current " +:+ sourceRepo
       +:+ " repository as well as the " +:+ targetRepo
       +:+ " repository.";
     "";
     "Make a commit and push your changes after every single file edit.";
     "";
     "Use the " +:+ targetRepo
       +:+ "/agent/ directory as a scratchpad for your work. Store long term plans and todo lists there.";
     "";
     transformationInstructions].

Definition metaPrompt
    (sourceRepo targetRepo transformationInstructions : string) : string :=
  join_with newline
    ["Generate an optimized prompt for repo transformation. Include instructions about:";
     "- Porting from " +:+ sourceRepo +:+ " to " +:+ targetRepo;
     "- Transformation requirements: " +:+ transformationInstructions;
     "- Using agent/ directory for planning";
     "- Making commits after each file edit";
     "- Maintaining the repository"].

(** [generateTransformationPrompt]: the template when the Claude Code
    test is skipped, else the [Query] for the meta prompt.  Nothing is
    asked of the SDK here: the session runs when the [Query] is iterated,
    which [fs.writeFile] does in [createRepoMirrorFiles]. *)
Definition generateTransformationPrompt
    (sourceRepo targetRepo transformationInstructions : string) : M Prompt :=
  if skip_claude_test then
    ret (PromptText
           (template_prompt sourceRepo targetRepo transformationInstructions))
  else
    ret (PromptQuery
           (metaPrompt sourceRepo targetRepo transformationInstructions)).

(** What comes of a prompt in the hands of [fs.writeFile]: a text is
    written as it is, a [Query] as its session goes. *)
Definition prompt_drained (data : Prompt) : Drained :=
  match data with
  | PromptText text => Written text
  | PromptQuery metaPrompt => query metaPrompt
  end.

(** [fs.writeFile(path, data, "utf-8")] for the prompt.  The file is
    opened for writing, which fails on a directory, and the text or the
    chunks of the session are written into it; the call is recorded with
    what it wrote. *)
Definition fs_writeFile_prompt (path : string) (data : Prompt) : M unit :=
  match prompt_drained data with
  | Written text => fs_writeFile path text
  | Broken written error =>
      emit (Fs (WriteFile path written)) ;;
      fun w =>
        match files w !! path with
        | Some Dir => Run (Throw (fs_error "EISDIR" path)) w []
        | _ =>
            Run (Throw error)
                (set_files (<[path := File written]> (files w)) w) []
        end
  end.

(** [fs.chmod(path, mode)]: the world of this model has no file modes, so
    what is left of it is the call and that the path must be there. *)
Definition fs_chmod (path : string) (mode : Z) : M unit :=
  emit (Fs (Chmod path mode)) ;;
  fun w =>
    match files w !! path with
    | Some _ => Run (Ret tt) w []
    | None => Run (Throw (fs_error "ENOENT" path)) w []
    end.

(** [0o755]. *)
Definition rwxr_xr_x : Z := 493.

Definition repomirrorDir (sourceRepo : string) : string :=
  join [resolve process_cwd sourceRepo; ".repomirror"].

Definition syncScript (sourceRepo targetRepo : string) : string :=
  join_with newline
    ["#!/usr/bin/env bash";
     "cd " +:+ dquote +:+ resolve process_cwd targetRepo +:+ dquote;
     "claude -p " +:+ dquote +:+ "$(cat "
       +:+ join [repomirrorDir sourceRepo; "prompt.md"] +:+ ")" +:+ dquote].

Definition ralphScript (sourceRepo targetRepo : string) : string :=
  join_with newline
    ["#!/usr/bin/env bash";
     "while true; do";
     "  cd " +:+ dquote +:+ resolve process_cwd targetRepo +:+ dquote;
     "  claude -p " +:+ dquote +:+ "$(cat "
       +:+ join [repomirrorDir sourceRepo; "prompt.md"] +:+ ")" +:+ dquote;
     "  echo " +:+ dquote
       +:+ "Claude session ended. Restarting in 3 seconds..." +:+ dquote;
     "  sleep 3";
     "done"].

Definition createRepoMirrorFiles (sourceRepo targetRepo : string)
    (prompt : Prompt) : M unit :=
  let repomirrorDir := repomirrorDir sourceRepo in
  fs_mkdir repomirrorDir ;;
  fs_writeFile_prompt (join [repomirrorDir; "prompt.md"]) prompt ;;
  fs_writeFile (join [repomirrorDir; "sync.sh"]) (syncScript sourceRepo targetRepo) ;;
  fs_chmod (join [repomirrorDir; "sync.sh"]) rwxr_xr_x ;;
  fs_writeFile (join [repomirrorDir; "ralph.sh"]) (ralphScript sourceRepo targetRepo) ;;
  fs_chmod (join [repomirrorDir; "ralph.sh"]) rwxr_xr_x ;;
  fs_writeFile (join [repomirrorDir; ".gitignore"])
    ("*.log" +:+ newline +:+ "tmp/" +:+ newline).

(** ** init *)

Record InitOptions := {
  sourceRepo : option string;
  targetRepo : option string;
  transformationInstructions : option string;
}.

(** One question of [inquirer.prompt]: it is put to the user when [asked]
    holds, and then the answer is what the user gives. *)
Definition ask (asked : bool) (name message default : string)
  : M (option string) :=
  if asked
  then log message ;; ret (Some (inquirer_answer name default))
  else ret None.

(** [existingConfig?.member] for a member that is a string. *)
Definition existing_member (f : RepomirrorConfig -> string)
    (existingConfig : option RepomirrorConfig) : option string :=
  f <$> existingConfig.

(** [a || b || c] with [c] a string that is there. *)
Definition first_of (a b : option string) (c : string) : string :=
  or_else (js_or a b) c.

Definition init (options : option InitOptions) : M unit :=
  log ("I'll help you maintain a transformed copy of this repo:" +:+ newline) ;;
  let sourceRepoPath := or_else (opt_member sourceRepo options) "./" in
  existingConfig <- loadConfig (Some sourceRepoPath) ;;
  when (bool_decide (is_Some existingConfig))
    (log ("Found existing repomirror.yaml, using as defaults" +:+ newline)) ;;
  let currentDir := process_cwd in
  let repoName := basename currentDir in
  let defaultTarget :=
    or_else (existing_member target_repo existingConfig)
      ("../" +:+ repoName +:+ "-transformed") in
  let default_sourceRepo :=
    first_of (opt_member sourceRepo options)
      (existing_member source_repo existingConfig) "./" in
  let default_targetRepo :=
    first_of (opt_member targetRepo options)
      (existing_member target_repo existingConfig) defaultTarget in
  let default_transformationInstructions :=
    first_of (opt_member transformationInstructions options)
      (existing_member transformation_instructions existingConfig)
      "translate this python repo to typescript" in
  answer_sourceRepo <-
    ask (negb (truthy (opt_member sourceRepo options))) "sourceRepo"
      "Source Repo you want to transform:" default_sourceRepo ;;
  answer_targetRepo <-
    ask (negb (truthy (opt_member targetRepo options))) "targetRepo"
      "Where do you want to transform code to:" default_targetRepo ;;
  answer_transformationInstructions <-
    ask (negb (truthy (opt_member transformationInstructions options)))
      "transformationInstructions" "What changes do you want to make:"
      default_transformationInstructions ;;
  let finalConfig :=
    {| source_repo :=
         first_of (opt_member sourceRepo options) answer_sourceRepo
           default_sourceRepo;
       target_repo :=
         first_of (opt_member targetRepo options) answer_targetRepo
           default_targetRepo;
       transformation_instructions :=
         first_of (opt_member transformationInstructions options)
           answer_transformationInstructions
           default_transformationInstructions;
       config_version := "0.1.0";
       default_remote := None; auto_sync := None; remotes := None;
       target_remote := None; times_to_loop := None |} in
  saveConfig finalConfig (Some (source_repo finalConfig)) ;;
  log (newline +:+ "✅ Saved configuration to repomirror.yaml") ;;
  performPreflightChecks (target_repo finalConfig) ;;
  log (newline +:+ "Generating transformation prompt...") ;;
  try_catch
    (optimizedPrompt <-
       generateTransformationPrompt (source_repo finalConfig)
         (target_repo finalConfig) (transformation_instructions finalConfig) ;;
     log "✔ Generated transformation prompt" ;;
     createRepoMirrorFiles (source_repo finalConfig) (target_repo finalConfig)
       optimizedPrompt ;;
     log (newline +:+ "✅ repomirror initialized successfully!") ;;
     log (newline +:+ "Next steps:") ;;
     log "run `npx repomirror sync` - this will run the sync.sh script once" ;;
     log "" ;;
     log "run `npx repomirror sync-forever` - this will run the ralph.sh script, working forever to implement all the changes")
    (fun error =>
       log "✖ Failed to generate transformation prompt" ;;
       log_error ("Error: " +:+ message error) ;;
       process_exit 1).

(** *** Reading runs of [init] *)

(** The document [init] finds, and the document it arrives at: the
    [finalConfig] of the source, as a function of the options, the world
    and the answers of the user. *)
Definition init_existing (options : option InitOptions) (w : World)
  : option RepomirrorConfig :=
  stored_config (Some (or_else (opt_member sourceRepo options) "./")) w.

Definition init_answer (given : option string) (name default : string)
  : option string :=
  if negb (truthy given) then Some (inquirer_answer name default) else None.

Definition init_config (options : option InitOptions) (w : World)
  : RepomirrorConfig :=
  let existingConfig := init_existing options w in
  let defaultTarget :=
    or_else (existing_member target_repo existingConfig)
      ("../" +:+ basename process_cwd +:+ "-transformed") in
  let default_sourceRepo :=
    first_of (opt_member sourceRepo options)
      (existing_member source_repo existingConfig) "./" in
  let default_targetRepo :=
    first_of (opt_member targetRepo options)
      (existing_member target_repo existingConfig) defaultTarget in
  let default_transformationInstructions :=
    first_of (opt_member transformationInstructions options)
      (existing_member transformation_instructions existingConfig)
      "translate this python repo to typescript" in
  {| source_repo :=
       first_of (opt_member sourceRepo options)
         (init_answer (opt_member sourceRepo options) "sourceRepo"
            default_sourceRepo)
         default_sourceRepo;
     target_repo :=
       first_of (opt_member targetRepo options)
         (init_answer (opt_member targetRepo options) "targetRepo"
            default_targetRepo)
         default_targetRepo;
     transformation_instructions :=
       first_of (opt_member transformationInstructions options)
         (init_answer (opt_member transformationInstructions options)
            "transformationInstructions" default_transformationInstructions)
         default_transformationInstructions;
     config_version := "0.1.0";
     default_remote := None; auto_sync := None; remotes := None;
     target_remote := None; times_to_loop := None |}.

(** What [init] does once the document is saved. *)
Definition init_setup (finalConfig : RepomirrorConfig) : M unit :=
  log (newline +:+ "✅ Saved configuration to repomirror.yaml") ;;
  performPreflightChecks (target_repo finalConfig) ;;
  log (newline +:+ "Generating transformation prompt...") ;;
  try_catch
    (optimizedPrompt <-
       generateTransformationPrompt (source_repo finalConfig)
         (target_repo finalConfig) (transformation_instructions finalConfig) ;;
     log "✔ Generated transformation prompt" ;;
     createRepoMirrorFiles (source_repo finalConfig) (target_repo finalConfig)
       optimizedPrompt ;;
     log (newline +:+ "✅ repomirror initialized successfully!") ;;
     log (newline +:+ "Next steps:") ;;
     log "run `npx repomirror sync` - this will run the sync.sh script once" ;;
     log "" ;;
     log "run `npx repomirror sync-forever` - this will run the ralph.sh script, working forever to implement all the changes")
    (fun error =>
       log "✖ Failed to generate transformation prompt" ;;
       log_error ("Error: " +:+ message error) ;;
       process_exit 1).

End Setup.

(** ** A second platform, with a host *)

Module Trial.

Definition backup : RemoteConfig :=
  {| name := "backup"; url := "https://x/backup.git"; branch := "main" |}.

(** [Demo.config] with [backup] registered as well. *)
Definition added : RepomirrorConfig :=
  set_remotes [Demo.origin; Demo.staging; backup] Demo.config.

Definition added_text : string :=
  Demo.lines
    ["source_repo: ./source";
     "target_repo: ./target";
     "transformation_instructions: convert to typescript";
     "config_version: 0.1.0";
     "default_remote: staging";
     "auto_sync: true";
     "remotes:";
     "  - name: origin";
     "    url: https://x/repo.git";
     "    branch: main";
     "  - name: staging";
     "    url: https://x/repo2.git";
     "    branch: dev";
     "  - name: backup";
     "    url: https://x/backup.git";
     "    branch: main"].

Definition documents : list (string * RepomirrorConfig) :=
  [(Demo.config_text, Demo.config); (added_text, added)].

Definition stringify (c : RepomirrorConfig) : string :=
  match List.find (fun d => Demo.config_eqb d.2 c) documents with
  | Some d => d.1
  | None => Demo.lines ["{}"]
  end.

Definition parse (text : string) : option RepomirrorConfig :=
  snd <$> List.find (fun d => String.eqb d.1 text) documents.

(** [path.resolve(from, to)] for the paths of the examples: the working
    directory itself, an absolute path, or a path below [from]. *)
Definition resolve_from (from to : string) : string :=
  if String.eqb to "./" || String.eqb to "." then from
  else if String.prefix "/" to then to
  else from +:+ "/" +:+ to.

Definition platform (results : nat -> Command -> ProcResult)
    (signals : nat -> list Signal) : Platform :=
  {| process_cwd := "/work";
     resolve := resolve_from;
     join := fun parts =>
       foldr (fun a b => if truthy_string b then a +:+ "/" +:+ b else a) "" parts;
     yaml_stringify := stringify;
     yaml_parse := parse;
     child_result := results;
     signals_during := signals |}.

(** Every child goes through and prints a line of [git remote -v]. *)
Definition listing : string := "origin  https://x/repo.git (fetch)".

Definition all_listing : nat -> Command -> ProcResult :=
  fun _ _ => Resolved listing.

Definition calm : Platform := platform all_listing Demo.quiet.

Definition is_blank (c : Ascii.ascii) : bool :=
  let n := Ascii.nat_of_ascii c in
  Nat.eqb n 32 || Nat.eqb n 9 || Nat.eqb n 10 || Nat.eqb n 13.

Fixpoint trim_start (s : string) : string :=
  match s with
  | String c rest => if is_blank c then trim_start rest else s
  | EmptyString => EmptyString
  end.

Definition backwards (s : string) : string :=
  String.string_of_list_ascii (reverse (String.list_ascii_of_string s)).

Definition trim (s : string) : string :=
  backwards (trim_start (backwards (trim_start s))).

Definition last_segment (path : string) : string :=
  List.last (split_on (Ascii.ascii_of_nat 47) path) EmptyString.

Definition no_sdk_error : JsError :=
  {| message := "Claude Code process exited with code 1"; signal := None |}.

(** The user takes every default that is offered. *)
Definition host (env : string -> option string) (sdk : string -> Drained)
  : Host :=
  {| process_env := env;
     js_trim := trim;
     js_length := String.length;
     basename := last_segment;
     inquirer_answer := fun _ default => default;
     query := sdk |}.

(** [SKIP_CLAUDE_TEST=true] in the environment. *)
Definition skipping : Host :=
  host (fun key => if String.eqb key "SKIP_CLAUDE_TEST" then Some "true" else None)
       (fun _ => Broken "" no_sdk_error).

(** An empty environment, and an SDK whose every session fails before a
    chunk is written. *)
Definition offline : Host :=
  host (fun _ => None) (fun _ => Broken "" no_sdk_error).

Definition options : InitOptions :=
  {| sourceRepo := Some "./"; targetRepo := Some "/target";
     transformationInstructions := Some "port it to go" |}.

(** A working directory with nothing in it, next to a target repository. *)
Definition world : World :=
  {| files := {[ "/target" := Dir ]}; children := 0; listeners := [] |}.

(** Nothing at all. *)
Definition nothing : World :=
  {| files := ∅; children := 0; listeners := [] |}.

Definition check_only : PullOptions :=
  {| sourceOnly := None; syncAfter := None; check := Some true |}.

Definition push_after : SyncOptions := {| autoPush := Some true |}.

End Trial.


(** * A model of the document codec *)

From Stdlib Require Floats.SpecFloat Floats.FloatOps Floats.FloatAxioms.
From Stdlib Require DecimalN DecimalPos.

Module Yaml.

(** ** Text *)

(** [expect p s]: what is left of [s] after the prefix [p]. *)
Fixpoint expect (p s : string) : option string :=
  match p with
  | EmptyString => Some s
  | String a p' =>
      match s with
      | String b s' => if Ascii.eqb a b then expect p' s' else None
      | EmptyString => None
      end
  end.

Definition double_quote : Ascii.ascii := Eval cbv in Ascii.ascii_of_nat 34.
Definition backslash : Ascii.ascii := Eval cbv in Ascii.ascii_of_nat 92.
Definition line_feed : Ascii.ascii := Eval cbv in Ascii.ascii_of_nat 10.
Definition letter_n : Ascii.ascii := Eval cbv in Ascii.ascii_of_nat 110.

(** A string in the double-quoted style: the quote, the backslash and the
    line feed are escaped, every other character stands for itself. *)
Fixpoint escape (s : string) : string :=
  match s with
  | EmptyString => EmptyString
  | String c rest =>
      if Ascii.eqb c double_quote
      then String backslash (String double_quote (escape rest))
      else if Ascii.eqb c backslash
      then String backslash (String backslash (escape rest))
      else if Ascii.eqb c line_feed
      then String backslash (String letter_n (escape rest))
      else String c (escape rest)
  end.

Definition put_quoted (s rest : string) : string :=
  String double_quote (escape s +:+ String double_quote rest).

Definition grown (c : Ascii.ascii) (read : option (string * string))
  : option (string * string) :=
  match read with
  | Some (v, rest) => Some (String c v, rest)
  | None => None
  end.

(** The text up to the closing quote, unescaped, and what follows the
    quote. *)
Fixpoint read_escaped (s : string) : option (string * string) :=
  match s with
  | EmptyString => None
  | String c rest =>
      if Ascii.eqb c double_quote then Some (EmptyString, rest)
      else if Ascii.eqb c backslash then
        match rest with
        | String d rest' =>
            if Ascii.eqb d letter_n then grown line_feed (read_escaped rest')
            else if Ascii.eqb d double_quote || Ascii.eqb d backslash
            then grown d (read_escaped rest')
            else None
        | EmptyString => None
        end
      else grown c (read_escaped rest)
  end.

Definition read_quoted (s : string) : option (string * string) :=
  match s with
  | String c rest => if Ascii.eqb c double_quote then read_escaped rest else None
  | EmptyString => None
  end.

(** ** Numbers *)

Definition digits (n : N) : string :=
  NilEmpty.string_of_uint (N.to_uint n).

(** The digits at the head of [s], and what follows them. *)
Fixpoint read_uint (s : string) : Decimal.uint * string :=
  match s with
  | EmptyString => (Decimal.Nil, EmptyString)
  | String c rest =>
      match uint_of_char c (Some Decimal.Nil) with
      | Some _ =>
          let (d, after) := read_uint rest in
          match uint_of_char c (Some d) with
          | Some d' => (d', after)
          | None => (Decimal.Nil, s)
          end
      | None => (Decimal.Nil, s)
      end
  end.

Definition no_digits (d : Decimal.uint) : bool :=
  match d with
  | Decimal.Nil => true
  | _ => false
  end.

(** [n]e-[k] without the zeros at the end of [n] that [k] can take up. *)
Fixpoint strip (fuel : nat) (n k : Z) : Z * Z :=
  match fuel with
  | O => (n, k)
  | S fuel' =>
      if (k =? 0)%Z then (n, k)
      else if (n mod 10 =? 0)%Z then strip fuel' (n / 10)%Z (k - 1)%Z
      else (n, k)
  end.

(** A double with mantissa [m] and binary exponent [e] is, exactly, the
    decimal [n]e-[k]: [m * 2^e = n * 10^-k]. *)
Definition decimal_of (m : positive) (e : Z) : Z * Z :=
  if (0 <=? e)%Z
  then (Z.pos m * 2 ^ e, 0)%Z
  else strip (Z.to_nat (- e)) (Z.pos m * 5 ^ (- e))%Z (- e)%Z.

(** The mantissa and the exponent of the double that is [m * 2^e]: a
    mantissa of 53 bits, or less at the least exponent. *)
Definition canonical (m e : Z) : positive * Z :=
  let e0 := Z.max (Z.log2 m + 1 + e - 53) (-1074) in
  (Z.to_pos (Z.shiftl m (e - e0)), e0).

Definition binary_of (n k : Z) : positive * Z :=
  canonical (n / 5 ^ k) (- k).

Definition sign_text (negative : bool) : string :=
  if negative then "-" else "".

Definition put_decimal (n k : Z) (rest : string) : string :=
  if (k =? 0)%Z then digits (Z.to_N n) +:+ rest
  else digits (Z.to_N n) +:+ "e-" +:+ digits (Z.to_N k) +:+ rest.

Definition put_number (f : float) (rest : string) : string :=
  match FloatOps.Prim2SF f with
  | SpecFloat.S754_zero s => sign_text s +:+ "0" +:+ rest
  | SpecFloat.S754_infinity s => sign_text s +:+ ".inf" +:+ rest
  | SpecFloat.S754_nan => ".nan" +:+ rest
  | SpecFloat.S754_finite s m e =>
      let (n, k) := decimal_of m e in
      sign_text s +:+ put_decimal n k rest
  end.

Definition read_sign (s : string) : bool * string :=
  match expect "-" s with
  | Some rest => (true, rest)
  | None => (false, s)
  end.

Definition read_exponent (s : string) : option (Z * string) :=
  match expect "e-" s with
  | Some s' =>
      let (k, rest) := read_uint s' in
      if no_digits k then None else Some (Z.of_N (N.of_uint k), rest)
  | None => Some (0%Z, s)
  end.

(** The double that is [n]e-[k], when there is one and this is how it is
    written. *)
Definition read_finite (negative : bool) (n : Z) (s : string)
  : option (float * string) :=
  match read_exponent s with
  | Some (k, rest) =>
      let (m, e) := binary_of n k in
      let (n', k') := decimal_of m e in
      if SpecFloat.bounded FloatOps.prec FloatOps.emax m e
         && (n' =? n)%Z && (k' =? k)%Z
      then Some (FloatOps.SF2Prim (SpecFloat.S754_finite negative m e), rest)
      else None
  | None => None
  end.

Definition read_number (s : string) : option (float * string) :=
  let (negative, s) := read_sign s in
  match expect ".inf" s with
  | Some rest =>
      Some (FloatOps.SF2Prim (SpecFloat.S754_infinity negative), rest)
  | None =>
      match expect ".nan" s with
      | Some rest =>
          if negative then None
          else Some (FloatOps.SF2Prim SpecFloat.S754_nan, rest)
      | None =>
          let (d, rest) := read_uint s in
          let n := Z.of_N (N.of_uint d) in
          if no_digits d then None
          else if (n =? 0)%Z
          then Some (FloatOps.SF2Prim (SpecFloat.S754_zero negative), rest)
          else read_finite negative n rest
      end
  end.

(** ** Members *)

Definition put_bool (b : bool) (rest : string) : string :=
  (if b then "true" else "false") +:+ rest.

Definition read_bool (s : string) : option (bool * string) :=
  match expect "true" s with
  | Some rest => Some (true, rest)
  | None =>
      match expect "false" s with
      | Some rest => Some (false, rest)
      | None => None
      end
  end.

(** One line: [key: value]. *)
Definition put_member {A} (key : string) (put : A -> string -> string)
    (v : A) (rest : string) : string :=
  key +:+ ": " +:+ put v (newline +:+ rest).

Definition get_member {A} (key : string)
    (read : string -> option (A * string)) (s : string)
  : option (A * string) :=
  match expect key s with
  | Some s0 =>
      match expect ": " s0 with
      | Some s1 =>
          match read s1 with
          | Some (v, s2) =>
              match expect newline s2 with
              | Some rest => Some (v, rest)
              | None => None
              end
          | None => None
          end
      | None => None
      end
  | None => None
  end.

(** A member that is optional: its line is there when it is set. *)
Definition put_optional {A} (key : string) (put : A -> string -> string)
    (v : option A) (rest : string) : string :=
  match v with
  | Some x => put_member key put x rest
  | None => rest
  end.

Definition get_optional {A} (key : string)
    (read : string -> option (A * string)) (s : string)
  : option (option A * string) :=
  match expect key s with
  | Some _ =>
      match get_member key read s with
      | Some (v, rest) => Some (Some v, rest)
      | None => None
      end
  | None => Some (None, s)
  end.

(** ** The sequence of remotes, in block style *)

Definition put_entry (r : RemoteConfig) (rest : string) : string :=
  "  - " +:+ put_member "name" put_quoted (name r)
    ("    " +:+ put_member "url" put_quoted (url r)
       ("    " +:+ put_member "branch" put_quoted (branch r) rest)).

Definition put_entries (rs : list RemoteConfig) (rest : string) : string :=
  foldr put_entry rest rs.

Definition get_entry (s : string) : option (RemoteConfig * string) :=
  match expect "  - " s with
  | Some s1 =>
      match get_member "name" read_quoted s1 with
      | Some (n, s2) =>
          match expect "    " s2 with
          | Some s3 =>
              match get_member "url" read_quoted s3 with
              | Some (u, s4) =>
                  match expect "    " s4 with
                  | Some s5 =>
                      match get_member "branch" read_quoted s5 with
                      | Some (b, rest) =>
                          Some ({| name := n; url := u; branch := b |}, rest)
                      | None => None
                      end
                  | None => None
                  end
              | None => None
              end
          | None => None
          end
      | None => None
      end
  | None => None
  end.

(** The entries at the head of [s]; every entry takes a unit of [fuel]. *)
Fixpoint get_entries (fuel : nat) (s : string)
  : option (list RemoteConfig * string) :=
  match expect "  - " s with
  | None => Some ([], s)
  | Some _ =>
      match fuel with
      | O => None
      | S fuel' =>
          match get_entry s with
          | Some (r, s') =>
              match get_entries fuel' s' with
              | Some (rs, rest) => Some (r :: rs, rest)
              | None => None
              end
          | None => None
          end
      end
  end.

Definition put_remotes (rs : option (list RemoteConfig)) (rest : string)
  : string :=
  match rs with
  | None => rest
  | Some [] => "remotes: []" +:+ newline +:+ rest
  | Some rs => "remotes:" +:+ newline +:+ put_entries rs rest
  end.

Definition get_remotes (s : string)
  : option (option (list RemoteConfig) * string) :=
  match expect "remotes:" s with
  | None => Some (None, s)
  | Some s1 =>
      match expect (" []" +:+ newline) s1 with
      | Some rest => Some (Some [], rest)
      | None =>
          match expect newline s1 with
          | Some s2 =>
              match get_entries (String.length s2) s2 with
              | Some (rs, rest) => Some (Some rs, rest)
              | None => None
              end
          | None => None
          end
      end
  end.

(** ** Documents *)

(** Modelled from the spec: [yaml.stringify] and [yaml.parse] of the yaml
    package, which [saveConfig] and [loadConfig] call and which is not
    under src/.  The spec asks of them that a document that was saved is
    read back equal to the original, with the optional members there when
    they were set.  The model writes a configuration in block style, the
    members in the order of the interface, every string double-quoted and a
    number as the exact decimal of the double, as short as an integer and
    a power of ten make it; it reads back what it writes. *)
Definition stringify (c : RepomirrorConfig) : string :=
  put_member "source_repo" put_quoted (source_repo c)
    (put_member "target_repo" put_quoted (target_repo c)
       (put_member "transformation_instructions" put_quoted
          (transformation_instructions c)
          (put_member "config_version" put_quoted (config_version c)
             (put_optional "default_remote" put_quoted (default_remote c)
                (put_optional "auto_sync" put_bool (auto_sync c)
                   (put_remotes (remotes c)
                      (put_optional "target_remote" put_quoted
                         (target_remote c)
                         (put_optional "times_to_loop" put_number
                            (times_to_loop c) EmptyString)))))))).

(** Modelled from the spec: [yaml.parse], as the reader of what [stringify]
    writes: the members in the same order, the optional ones where their
    key is there; any other text is refused. *)
Definition parse (text : string) : option RepomirrorConfig :=
  match get_member "source_repo" read_quoted text with
  | Some (source, s1) =>
  match get_member "target_repo" read_quoted s1 with
  | Some (target, s2) =>
  match get_member "transformation_instructions" read_quoted s2 with
  | Some (instructions, s3) =>
  match get_member "config_version" read_quoted s3 with
  | Some (version, s4) =>
  match get_optional "default_remote" read_quoted s4 with
  | Some (default, s5) =>
  match get_optional "auto_sync" read_bool s5 with
  | Some (auto, s6) =>
  match get_remotes s6 with
  | Some (rs, s7) =>
  match get_optional "target_remote" read_quoted s7 with
  | Some (target_rem, s8) =>
  match get_optional "times_to_loop" read_number s8 with
  | Some (times, EmptyString) =>
      Some {| source_repo := source; target_repo := target;
              transformation_instructions := instructions;
              config_version := version;
              default_remote := default; auto_sync := auto; remotes := rs;
              target_remote := target_rem; times_to_loop := times |}
  | _ => None
  end
  | None => None
  end
  | None => None
  end
  | None => None
  end
  | None => None
  end
  | None => None
  end
  | None => None
  end
  | None => None
  end
  | None => None
  end.

(** The platform [P] with the codec of the model. *)
Definition codec (P : Platform) : Platform :=
  {| process_cwd := @process_cwd P;
     resolve := @resolve P;
     join := @join P;
     yaml_stringify := stringify;
     yaml_parse := parse;
     child_result := @child_result P;
     signals_during := @signals_during P |}.

End Yaml.

(** ** The demo platform with the codec of the model *)

Module Desk.

Definition calm : Platform := Yaml.codec Demo.calm.

(** [Demo.config], where the loop is to run twice and a half. *)
Definition config : RepomirrorConfig :=
  {| source_repo := "./source"; target_repo := "./target";
     transformation_instructions := "convert to typescript";
     config_version := "0.1.0";
     default_remote := Some "staging"; auto_sync := Some true;
     remotes := Some [Demo.origin; Demo.staging];
     target_remote := None; times_to_loop := Some 2.5%float |}.

Definition config_text : string :=
  Demo.lines
    ["source_repo: " +:+ dquote +:+ "./source" +:+ dquote;
     "target_repo: " +:+ dquote +:+ "./target" +:+ dquote;
     "transformation_instructions: " +:+ dquote +:+ "convert to typescript"
       +:+ dquote;
     "config_version: " +:+ dquote +:+ "0.1.0" +:+ dquote;
     "default_remote: " +:+ dquote +:+ "staging" +:+ dquote;
     "auto_sync: true";
     "remotes:";
     "  - name: " +:+ dquote +:+ "origin" +:+ dquote;
     "    url: " +:+ dquote +:+ "https://x/repo.git" +:+ dquote;
     "    branch: " +:+ dquote +:+ "main" +:+ dquote;
     "  - name: " +:+ dquote +:+ "staging" +:+ dquote;
     "    url: " +:+ dquote +:+ "https://x/repo2.git" +:+ dquote;
     "    branch: " +:+ dquote +:+ "dev" +:+ dquote;
     "times_to_loop: 25e-1"].

(** A working directory with the scripts and no document yet. *)
Definition empty : World :=
  {| files := {[ "/work/.repomirror/sync.sh" := File "#!/usr/bin/env bash";
                 "/work/.repomirror/ralph.sh" := File "#!/usr/bin/env bash" ]};
     children := 0;
     listeners := [] |}.

(** The working directory with [config] saved in it. *)
Definition world : World :=
  {| files := {[ "/work" := Dir;
                 "/work/repomirror.yaml" := File config_text;
                 "/work/.repomirror/sync.sh" := File "#!/usr/bin/env bash";
                 "/work/.repomirror/ralph.sh" := File "#!/usr/bin/env bash" ]};
     children := 0;
     listeners := [] |}.

End Desk.

(** * Properties *)

(** ** The monad *)

Lemma after_nil {A} (r : Result A) : after [] r = r.
Proof. by destruct r. Qed.

Lemma after_after {A} es es' (r : Result A) :
  after es (after es' r) = after (es ++ es') r.
Proof. unfold after; simpl. by rewrite app_assoc. Qed.

Lemma bind_emit {B} e (k : unit -> M B) w :
  bind (emit e) k w = after [e] (k tt w).
Proof. reflexivity. Qed.

Lemma bind_ret {A B} (a : A) (k : A -> M B) w : bind (ret a) k w = k a w.
Proof. unfold bind, ret. by rewrite after_nil. Qed.

Lemma bind_bind {A B C} (m : M A) (k : A -> M B) (k' : B -> M C) w :
  bind (bind m k) k' w = bind m (fun a => bind (k a) k') w.
Proof.
  unfold bind. destruct (m w) as [[a|e|c] w1 es]; try reflexivity.
  destruct (k a w1) as [[b|e|c] w2 es']; try reflexivity.
  simpl. by rewrite after_after.
Qed.

Section Properties.

Context `{Platform}.

Lemma loadConfig_run sourceRepo w :
  loadConfig sourceRepo w
  = Run (Ret (stored_config sourceRepo w)) w
        [Fs (ReadFile (configPath sourceRepo))].
Proof.
  unfold loadConfig, try_catch, fs_readFile, bind, stored_config. simpl.
  destruct (files w !! configPath sourceRepo) as [[content|]|]; reflexivity.
Qed.

(** [saveConfig] in full: it fails without writing when a file sits where
    the base directory should be, and after making the directory when the
    configuration path is a directory. *)
Lemma saveConfig_run config sourceRepo w :
  saveConfig config sourceRepo w =
    let base := baseDir sourceRepo in
    let path := configPath sourceRepo in
    let content := yaml_stringify config in
    match files w !! base with
    | Some (File _) => Run (Throw (fs_error "EEXIST" base)) w [Fs (Mkdir base)]
    | _ =>
        match <[base := Dir]> (files w) !! path with
        | Some Dir =>
            Run (Throw (fs_error "EISDIR" path))
                (set_files (<[base := Dir]> (files w)) w)
                [Fs (Mkdir base); Fs (WriteFile path content)]
        | _ =>
            Run (Ret tt) (saved config sourceRepo w)
                [Fs (Mkdir base); Fs (WriteFile path content)]
        end
    end.
Proof.
  unfold saveConfig, fs_mkdir, fs_writeFile, bind, saved. simpl.
  destruct (files w !! baseDir sourceRepo) as [[c|]|]; simpl; try reflexivity;
    destruct (<[baseDir sourceRepo:=Dir]> (files w) !! configPath sourceRepo)
      as [[c'|]|]; reflexivity.
Qed.

Lemma saveConfig_returns config sourceRepo w w' es :
  saveConfig config sourceRepo w = Run (Ret tt) w' es ->
  w' = saved config sourceRepo w
  /\ es = [Fs (Mkdir (baseDir sourceRepo));
           Fs (WriteFile (configPath sourceRepo) (yaml_stringify config))]
  /\ configPath sourceRepo <> baseDir sourceRepo.
Proof.
  rewrite saveConfig_run. simpl.
  destruct (files w !! baseDir sourceRepo) as [[c|]|] eqn:Hbase; try discriminate;
    destruct (<[baseDir sourceRepo:=Dir]> (files w) !! configPath sourceRepo)
      as [[c'|]|] eqn:Hpath; try discriminate;
    intros [= <- <-]; (split; [reflexivity|split; [reflexivity|]]);
    intros Heq; rewrite Heq, lookup_insert_eq in Hpath; discriminate.
Qed.


(** ** Config store *)

(** What is loaded after a save, from the same base directory, is what
    the codec reads in what it wrote. *)
Lemma saved_document_loads config sourceRepo w w' es :
  yaml_parse (yaml_stringify config) = Some config ->
  saveConfig config sourceRepo w = Run (Ret tt) w' es ->
  exists loaded,
    outcome (loadConfig sourceRepo w') = Ret (Some loaded)
    /\ loaded = config
    /\ default_remote loaded = default_remote config
    /\ auto_sync loaded = auto_sync config
    /\ remotes loaded = remotes config
    /\ target_remote loaded = target_remote config
    /\ times_to_loop loaded = times_to_loop config.
Proof.
  intros Hyaml Hsave. exists config.
  apply saveConfig_returns in Hsave as (-> & _ & _).
  rewrite loadConfig_run. simpl. unfold stored_config, saved. simpl.
  rewrite lookup_insert_eq. rewrite Hyaml. repeat split.
Qed.

(** C6, as the code has it: a save that goes through has made the base
    directory and has written the whole document with one [writeFile] to
    the configuration path itself; no save renames anything, so it does
    not write by temporary file and rename. *)
Theorem saveConfig_writes_in_place config sourceRepo w w' es :
  saveConfig config sourceRepo w = Run (Ret tt) w' es ->
  fs_calls es
    = [Mkdir (baseDir sourceRepo);
       WriteFile (configPath sourceRepo) (yaml_stringify config)]
  /\ files w' !! baseDir sourceRepo = Some Dir
  /\ files w' !! configPath sourceRepo = Some (File (yaml_stringify config))
  /\ ~ writes_by_rename (configPath sourceRepo) (fs_calls es).
Proof.
  intros Hsave. apply saveConfig_returns in Hsave as (-> & -> & Hne).
  unfold saved; simpl. repeat split.
  - rewrite lookup_insert_ne by done. apply lookup_insert_eq.
  - apply lookup_insert_eq.
  - intros [_ Hnot]. apply (Hnot (yaml_stringify config)). set_solver.
Qed.

(** ** Remote registry *)

Lemma bind_loadConfig {B} sourceRepo (k : option RepomirrorConfig -> M B) w :
  bind (loadConfig sourceRepo) k w
  = after [Fs (ReadFile (configPath sourceRepo))] (k (stored_config sourceRepo w) w).
Proof. unfold bind. by rewrite loadConfig_run. Qed.

Lemma findIndex_from_shift {A} (p : A -> bool) i xs :
  (findIndex_from p 0 xs = -1 /\ findIndex_from p i xs = -1)%Z
  \/ (0 <= findIndex_from p 0 xs
      /\ findIndex_from p i xs = i + findIndex_from p 0 xs)%Z.
Proof.
  revert i. induction xs as [|x xs IH]; intros i; simpl; [by left|].
  destruct (p x); [right; lia|]. change (0 + 1)%Z with 1%Z.
  destruct (IH (i + 1)%Z) as [[H0 Hi]|[H0 Hi]], (IH 1%Z) as [[H0' H1]|[H0' H1]];
    lia.
Qed.

Lemma findIndex_from_none {A} (p : A -> bool) i xs :
  (0 <= i)%Z ->
  findIndex_from p i xs = (-1)%Z <-> Forall (fun x => p x = false) xs.
Proof.
  revert i. induction xs as [|x xs IH]; intros i Hi; simpl.
  - split; [constructor|done].
  - destruct (p x) eqn:Hp.
    + split; [lia|]. intros Hall. apply Forall_cons in Hall as [Hx _]. congruence.
    + rewrite IH by lia. split; [by constructor|]. by intros [_ ?]%Forall_cons.
Qed.

(** [findIndex] finds the first element that passes, or says -1. *)
Lemma findIndex_spec {A} (p : A -> bool) xs :
  (findIndex p xs = (-1)%Z /\ Forall (fun x => p x = false) xs)
  \/ (exists i x,
        findIndex p xs = Z.of_nat i /\ xs !! i = Some x /\ p x = true
        /\ forall j y, xs !! j = Some y -> j < i -> p y = false).
Proof.
  unfold findIndex. induction xs as [|x xs IH]; simpl.
  - left. split; [done|constructor].
  - destruct (p x) eqn:Hp.
    + right. exists 0, x. repeat split; [done..|]. intros; lia.
    + destruct IH as [[Hnone Hall]|(i & y & Hi & Hy & Hpy & Hfirst)].
      * left. split; [|by constructor].
        apply findIndex_from_none; [lia|done].
      * right. exists (S i), y. repeat split; [|done..|].
        -- unfold findIndex in Hi. change (0 + 1)%Z with 1%Z.
           destruct (findIndex_from_shift p 1 xs) as [[Hbad _]|[_ ->]]; lia.
        -- intros [|j] z Hz Hlt; simpl in Hz; [congruence|].
           apply (Hfirst j); [done|lia].
Qed.

Lemma named_true n r : named n r = true <-> name r = n.
Proof. unfold named. apply String.eqb_eq. Qed.

Lemma named_false n r : named n r = false <-> name r <> n.
Proof. unfold named. apply String.eqb_neq. Qed.

Lemma truthy_string_nonempty s : s <> "" -> truthy_string s = true.
Proof. by destruct s. Qed.

Lemma remote_add_run config n u b w :
  remote_add config n u b w =
    let rs := default [] (remotes config) in
    let new := {| name := n; url := u; branch := b |} in
    let i := findIndex (named n) rs in
    if (0 <=? i)%Z
    then after [Console Stdout (MsgUpdatedRemote n)]
           (saveConfig (set_remotes (<[Z.to_nat i := new]> rs) config) None w)
    else after [Console Stdout (MsgAddedRemote n)]
           (saveConfig (set_remotes (rs ++ [new]) config) None w).
Proof.
  unfold remote_add. simpl.
  destruct (0 <=? findIndex (named n) (default [] (remotes config)))%Z;
    rewrite bind_bind; unfold console_log; rewrite bind_emit, bind_ret; reflexivity.
Qed.

(** The arguments of ["add"]: name and url by position, and ["main"] for
    a branch that was not given. *)
Lemma remote_add_args config n u rest w :
  stored_config None w = Some config ->
  n <> "" -> u <> "" ->
  remote "add" (n :: u :: rest) w
  = after [Fs (ReadFile (configPath None))]
      (remote_add config n u (default "main" (rest !! 0)) w).
Proof.
  intros Hconfig Hn Hu. unfold remote. rewrite bind_loadConfig, Hconfig. simpl.
  by rewrite (truthy_string_nonempty n), (truthy_string_nonempty u).
Qed.

(** What the update does to the sequence of remotes. *)
Lemma upsert_in_place (rs : list RemoteConfig) i old new :
  rs !! i = Some old -> name old = name new ->
  length (<[i := new]> rs) = length rs
  /\ name <$> <[i := new]> rs = name <$> rs
  /\ <[i := new]> rs !! i = Some new
  /\ forall j, j <> i -> <[i := new]> rs !! j = rs !! j.
Proof.
  intros Hi Hname. repeat split.
  - apply length_insert.
  - rewrite list_fmap_insert. apply list_insert_id.
    by rewrite list_lookup_fmap, Hi, <- Hname.
  - apply list_lookup_insert_eq. by eapply lookup_lt_Some.
  - intros j Hj. by apply list_lookup_insert_ne.
Qed.

Lemma findIndex_first {A} (p : A -> bool) xs i x :
  xs !! i = Some x -> p x = true ->
  (forall j y, xs !! j = Some y -> j < i -> p y = false) ->
  findIndex p xs = Z.of_nat i.
Proof.
  intros Hi Hp Hfirst.
  destruct (findIndex_spec p xs) as [[_ Hall]|(i' & x' & -> & Hi' & Hp' & Hfirst')].
  - rewrite Forall_forall in Hall. apply list_elem_of_lookup_2 in Hi.
    apply Hall in Hi. congruence.
  - destruct (Nat.lt_trichotomy i i') as [Hlt|[->|Hgt]]; [|done|].
    + specialize (Hfirst' i x Hi Hlt). congruence.
    + specialize (Hfirst i' x' Hi' Hgt). congruence.
Qed.

Lemma first_named (rs : list RemoteConfig) n :
  n ∈ name <$> rs ->
  exists i old,
    rs !! i = Some old /\ name old = n
    /\ (forall j y, rs !! j = Some y -> j < i -> name y <> n).
Proof.
  intros Hin.
  destruct (findIndex_spec (named n) rs)
    as [[_ Hall]|(i & old & _ & Hi & Hold & Hfirst)].
  - rewrite Forall_forall in Hall.
    apply list_elem_of_fmap in Hin as (r & -> & Hr).
    apply Hall, named_false in Hr. done.
  - exists i, old. split; [done|]. split; [by apply named_true|].
    intros j y Hj Hlt. apply named_false. by eapply Hfirst.
Qed.

Lemma remote_add_existing config n u b w i old :
  let rs := default [] (remotes config) in
  let new := {| name := n; url := u; branch := b |} in
  rs !! i = Some old -> name old = n ->
  (forall j y, rs !! j = Some y -> j < i -> name y <> n) ->
  remote_add config n u b w
  = after [Console Stdout (MsgUpdatedRemote n)]
      (saveConfig (set_remotes (<[i := new]> rs) config) None w).
Proof.
  intros rs new Hi Hold Hfirst. rewrite remote_add_run. fold rs. fold new. simpl.
  rewrite (findIndex_first (named n) rs i old); [|done|by apply named_true|].
  - replace (0 <=? Z.of_nat i)%Z with true by (symmetry; apply Z.leb_le; lia).
    by rewrite Nat2Z.id.
  - intros j y Hj Hlt. apply named_false. by eapply Hfirst.
Qed.

Lemma remote_add_fresh config n u b w :
  let rs := default [] (remotes config) in
  let new := {| name := n; url := u; branch := b |} in
  n ∉ name <$> rs ->
  remote_add config n u b w
  = after [Console Stdout (MsgAddedRemote n)]
      (saveConfig (set_remotes (rs ++ [new]) config) None w).
Proof.
  intros rs new Hfresh. rewrite remote_add_run. fold rs. fold new. simpl.
  destruct (findIndex_spec (named n) rs)
    as [[-> _]|(i & old & _ & Hi & Hold & _)]; [done|].
  exfalso. apply Hfresh. apply list_elem_of_fmap. exists old.
  split; [symmetry; by apply named_true|]. by eapply list_elem_of_lookup_2.
Qed.

Lemma saveConfig_stored config sourceRepo w :
  outcome (saveConfig config sourceRepo w) = Ret tt ->
  files (world (saveConfig config sourceRepo w)) !! configPath sourceRepo
  = Some (File (yaml_stringify config)).
Proof.
  destruct (saveConfig config sourceRepo w) as [o w' es] eqn:Hsave. simpl.
  intros ->. apply saveConfig_returns in Hsave as (-> & _ & _).
  apply lookup_insert_eq.
Qed.

(** [remote add] in terms of [set_remotes]. *)
Lemma remote_add_upsert_facts w config n u b :
  stored_config None w = Some config ->
  n <> "" -> u <> "" ->
  let rs := default [] (remotes config) in
  let new := {| name := n; url := u; branch := b |} in
  exists rs' msg,
    remote "add" [n; u; b] w
    = after [Fs (ReadFile (configPath None)); Console Stdout msg]
        (saveConfig (set_remotes rs' config) None w)
    /\ (outcome (remote "add" [n; u; b] w) = Ret tt ->
        files (world (remote "add" [n; u; b] w)) !! configPath None
        = Some (File (yaml_stringify (set_remotes rs' config))))
    /\ (n ∈ name <$> rs ->
        exists i old,
          rs !! i = Some old /\ name old = n
          /\ (forall j y, rs !! j = Some y -> j < i -> name y <> n)
          /\ rs' = <[i := new]> rs
          /\ length rs' = length rs
          /\ name <$> rs' = name <$> rs
          /\ rs' !! i = Some new
          /\ (forall j, j <> i -> rs' !! j = rs !! j))
    /\ (n ∉ name <$> rs -> rs' = rs ++ [new])
    /\ (NoDup (name <$> rs) -> NoDup (name <$> rs')).
Proof.
  intros Hconfig Hn Hu rs new.
  rewrite (remote_add_args config n u [b] w Hconfig Hn Hu). simpl.
  destruct (decide (n ∈ name <$> rs)) as [Hin|Hfresh].
  - destruct (first_named rs n Hin) as (i & old & Hi & Hold & Hfirst).
    exists (<[i := new]> rs), (MsgUpdatedRemote n).
    rewrite (remote_add_existing config n u b w i old Hi Hold Hfirst).
    fold rs. fold new. rewrite after_after. simpl.
    destruct (upsert_in_place rs i old new Hi Hold) as (Hlen & Hnames & Hnew & Hrest).
    repeat split.
    + apply saveConfig_stored.
    + intros _. by exists i, old.
    + done.
    + intros Hnodup. by rewrite Hnames.
  - exists (rs ++ [new]), (MsgAddedRemote n).
    rewrite (remote_add_fresh config n u b w Hfresh).
    fold rs. fold new. rewrite after_after. simpl.
    repeat split.
    + apply saveConfig_stored.
    + done.
    + intros Hnodup. rewrite fmap_app. simpl. apply NoDup_app.
      split; [done|]. split; [|apply NoDup_singleton].
      intros x Hx ->%list_elem_of_singleton. done.
Qed.

(** C4: [remote add] with a name that is in the registry puts the new url
    and branch at the first entry of that name and leaves the length, the
    order and every other entry as they were; with a fresh name it appends
    the entry.  Either way the command ends by saving the whole document:
    the document that was stored, with these remotes for its [remotes] and
    every other member as it was; names that were unique stay unique. *)
Theorem remote_add_upsert w config n u b :
  stored_config None w = Some config ->
  n <> "" -> u <> "" ->
  let rs := default [] (remotes config) in
  let new := {| name := n; url := u; branch := b |} in
  let document rs' :=
    {| source_repo := source_repo config;
       target_repo := target_repo config;
       transformation_instructions := transformation_instructions config;
       config_version := config_version config;
       default_remote := default_remote config;
       auto_sync := auto_sync config;
       remotes := Some rs';
       target_remote := target_remote config;
       times_to_loop := times_to_loop config |} in
  exists rs' msg,
    remote "add" [n; u; b] w
    = after [Fs (ReadFile (configPath None)); Console Stdout msg]
        (saveConfig (document rs') None w)
    /\ (outcome (remote "add" [n; u; b] w) = Ret tt ->
        files (world (remote "add" [n; u; b] w)) !! configPath None
        = Some (File (yaml_stringify (document rs'))))
    /\ (n ∈ name <$> rs ->
        exists i old,
          rs !! i = Some old /\ name old = n
          /\ (forall j y, rs !! j = Some y -> j < i -> name y <> n)
          /\ rs' = <[i := new]> rs
          /\ length rs' = length rs
          /\ name <$> rs' = name <$> rs
          /\ rs' !! i = Some new
          /\ (forall j, j <> i -> rs' !! j = rs !! j))
    /\ (n ∉ name <$> rs -> rs' = rs ++ [new])
    /\ (NoDup (name <$> rs) -> NoDup (name <$> rs')).
Proof. exact (remote_add_upsert_facts w config n u b). Qed.

(** [remote add] without a branch, in terms of [set_remotes]. *)
Lemma remote_add_main_facts w config n u i old :
  stored_config None w = Some config ->
  n <> "" -> u <> "" ->
  let rs := default [] (remotes config) in
  let new := {| name := n; url := u; branch := "main" |} in
  rs !! i = Some old -> name old = n ->
  (forall j y, rs !! j = Some y -> j < i -> name y <> n) ->
  remote "add" [n; u] w
  = after [Fs (ReadFile (configPath None)); Console Stdout (MsgUpdatedRemote n)]
      (saveConfig (set_remotes (<[i := new]> rs) config) None w)
  /\ branch <$> <[i := new]> rs !! i = Some "main"
  /\ (outcome (remote "add" [n; u] w) = Ret tt ->
      files (world (remote "add" [n; u] w)) !! configPath None
      = Some (File (yaml_stringify (set_remotes (<[i := new]> rs) config)))).
Proof.
  intros Hconfig Hn Hu rs new Hi Hold Hfirst.
  rewrite (remote_add_args config n u [] w Hconfig Hn Hu). simpl.
  rewrite (remote_add_existing config n u "main" w i old Hi Hold Hfirst).
  fold rs. fold new. rewrite after_after. simpl. repeat split.
  - rewrite list_lookup_insert_eq; [done|]. by eapply lookup_lt_Some.
  - apply saveConfig_stored.
Qed.

(** C10: [remote add] with a name and a url only, on a name that is in
    the registry, saves the document with the branch of that entry set to
    ["main"], whatever its branch was: the entry at the first index of the
    name is the name, the url and ["main"], every other entry and every
    other member of the document is as it was. *)
Theorem remote_add_default_branch w config n u i old :
  stored_config None w = Some config ->
  n <> "" -> u <> "" ->
  let rs := default [] (remotes config) in
  let new := {| name := n; url := u; branch := "main" |} in
  let document :=
    {| source_repo := source_repo config;
       target_repo := target_repo config;
       transformation_instructions := transformation_instructions config;
       config_version := config_version config;
       default_remote := default_remote config;
       auto_sync := auto_sync config;
       remotes := Some (<[i := new]> rs);
       target_remote := target_remote config;
       times_to_loop := times_to_loop config |} in
  rs !! i = Some old -> name old = n ->
  (forall j y, rs !! j = Some y -> j < i -> name y <> n) ->
  remote "add" [n; u] w
  = after [Fs (ReadFile (configPath None)); Console Stdout (MsgUpdatedRemote n)]
      (saveConfig document None w)
  /\ (outcome (remote "add" [n; u] w) = Ret tt ->
      files (world (remote "add" [n; u] w)) !! configPath None
      = Some (File (yaml_stringify document)))
  /\ default [] (remotes document) !! i
     = Some {| name := n; url := u; branch := "main" |}
  /\ (forall j, j <> i -> default [] (remotes document) !! j = rs !! j).
Proof.
  intros Hconfig Hn Hu rs new document Hi Hold Hfirst.
  destruct (remote_add_main_facts w config n u i old Hconfig Hn Hu Hi Hold Hfirst)
    as (Hrun & _ & Hfile).
  split; [exact Hrun|]. split; [exact Hfile|].
  subst document. cbn [remotes default from_option id]. split.
  - apply list_lookup_insert_eq. by eapply lookup_lt_Some.
  - intros j Hj. by apply list_lookup_insert_ne.
Qed.

(** ** Push *)

Lemma run_run c w :
  run c w =
    match child_result (children w) c with
    | Resolved stdout => Run (Ret stdout) (started w) [Spawn (children w) c]
    | Rejected error => Run (Throw error) (started w) [Spawn (children w) c]
    end.
Proof.
  unfold run, bind, execa, await. simpl.
  destruct (child_result (children w) c); reflexivity.
Qed.

Lemma omap_cons_app {A B} (f : A -> option B) x xs :
  omap f (x :: xs) = omap f [x] ++ omap f xs.
Proof. simpl. by destruct (f x). Qed.

Lemma push_all_round_live targetRepo remote w :
  let c := git_push (url remote) (branch remote) targetRepo in
  push_all_round targetRepo false remote w
  = Run (Ret tt) (started w)
      [Console Stdout (MsgPushingTo (name remote) (branch remote));
       Spawn (children w) c;
       match child_result (children w) c with
       | Resolved _ => Console Stdout (MsgPushedTo (name remote))
       | Rejected error =>
           Console Stderr (MsgFailedPushTo (name remote) (message error))
       end].
Proof.
  unfold push_all_round, try_catch, bind, console_log, console_error, emit,
    when, run, execa, await, after. simpl.
  destruct (child_result (children w) _); reflexivity.
Qed.

Lemma push_all_round_dry targetRepo remote w :
  push_all_round targetRepo true remote w
  = Run (Ret tt) w
      [Console Stdout (MsgPushingTo (name remote) (branch remote));
       Console Stdout (MsgPushedTo (name remote))].
Proof. reflexivity. Qed.

Lemma for_of_cons {A} (x : A) xs (body : A -> M unit) w w1 es :
  body x w = Run (Ret tt) w1 es ->
  for_of (x :: xs) body w = after es (for_of xs body w1).
Proof. intros Hx. simpl. unfold bind. by rewrite Hx. Qed.

(** The loop of [push_all] when it pushes: one child for each remote, in
    the order of the registry, and one verdict for each, which is that
    child's own. *)
Lemma push_all_loop_live targetRepo rs w :
  let r := for_of rs (push_all_round targetRepo false) w in
  let c remote := git_push (url remote) (branch remote) targetRepo in
  outcome r = Ret tt
  /\ spawned (events r) = c <$> rs
  /\ announced (events r) = (fun remote => (name remote, branch remote)) <$> rs
  /\ reports (events r)
     = imap (fun k remote =>
               verdict remote (child_result (children w + k) (c remote))) rs.
Proof.
  revert w. induction rs as [|remote rs IH]; intros w; [done|].
  rewrite (for_of_cons _ _ _ _ _ _ (push_all_round_live targetRepo remote w)).
  destruct (IH (started w)) as (Hout & Hspawned & Hannounced & Hreports).
  cbn zeta in *. unfold after; cbn [outcome events].
  split; [done|]. unfold spawned, announced, reports in *.
  rewrite !omap_app, Hspawned, Hannounced, Hreports.
  cbn [imap fmap list_fmap]. rewrite Nat.add_0_r.
  assert (Hrest :
            imap (fun k remote0 =>
                    verdict remote0
                      (child_result (children (started w) + k)
                         (git_push (url remote0) (branch remote0) targetRepo))) rs
            = imap ((fun k remote0 =>
                       verdict remote0
                         (child_result (children w + k)
                            (git_push (url remote0) (branch remote0) targetRepo)))
                    ∘ S) rs).
  { apply imap_ext. intros k x _. simpl. by rewrite Nat.add_succ_r. }
  rewrite Hrest.
  destruct (child_result (children w) _); done.
Qed.

Lemma push_all_loop_dry targetRepo rs w :
  let r := for_of rs (push_all_round targetRepo true) w in
  outcome r = Ret tt
  /\ world r = w
  /\ spawned (events r) = []
  /\ announced (events r) = (fun remote => (name remote, branch remote)) <$> rs
  /\ reports (events r) = (fun remote => Pushed (name remote)) <$> rs.
Proof.
  induction rs as [|remote rs IH]; [done|].
  rewrite (for_of_cons _ _ _ _ _ _ (push_all_round_dry targetRepo remote w)).
  destruct IH as (Hout & Hworld & Hspawned & Hannounced & Hreports).
  cbn zeta in *. unfold after; cbn [outcome world events].
  unfold spawned, announced, reports in *.
  rewrite !omap_app, Hspawned, Hannounced, Hreports. done.
Qed.

(** [push] up to the choice between its two modes. *)
Lemma push_run options config rs w :
  stored_config None w = Some config ->
  remotes config = Some rs -> rs <> [] ->
  push options w
  = after [Fs (ReadFile (configPath None))]
      (if truthy_flag (opt_member all options)
       then push_all (target_repo config)
              (truthy_flag (opt_member dryRun options)) rs w
       else push_one options config rs w).
Proof.
  intros Hconfig Hremotes Hrs. unfold push.
  rewrite bind_loadConfig, Hconfig. simpl. rewrite Hremotes.
  destruct rs as [|remote rs]; [by destruct Hrs|].
  by destruct (truthy_flag (opt_member all options)).
Qed.

(** [push] in all-remotes mode, in terms of [git_push]. *)
Lemma push_all_facts w config rs options :
  stored_config None w = Some config ->
  remotes config = Some rs -> rs <> [] ->
  truthy_flag (all options) = true ->
  let r := push (Some options) w in
  let c remote := git_push (url remote) (branch remote) (target_repo config) in
  let attempt k remote := child_result (children w + k) (c remote) in
  outcome r = Ret tt
  /\ exit_status (outcome r) = 0%Z
  /\ announced (events r) = (fun remote => (name remote, branch remote)) <$> rs
  /\ (truthy_flag (dryRun options) = false ->
      spawned (events r) = c <$> rs
      /\ reports (events r)
         = imap (fun k remote => verdict remote (attempt k remote)) rs
      /\ (forall k remote error,
            rs !! k = Some remote ->
            attempt k remote = Rejected error ->
            (forall j other, j <> k -> rs !! j = Some other ->
                             exists stdout, attempt j other = Resolved stdout) ->
            reports (events r)
            = <[k := Failed (name remote) (message error)]>
                ((fun remote => Pushed (name remote)) <$> rs))).
Proof.
  intros Hconfig Hremotes Hrs Hall r c attempt. subst r.
  rewrite (push_run _ config rs w Hconfig Hremotes Hrs). simpl.
  rewrite Hall. unfold push_all, console_log. rewrite bind_emit.
  destruct (truthy_flag (dryRun options)).
  - destruct (push_all_loop_dry (target_repo config) rs w)
      as (Hout & _ & _ & Hannounced & _).
    cbn zeta in *. unfold after; cbn [outcome events].
    unfold announced in *. rewrite !omap_app, Hannounced, Hout. done.
  - destruct (push_all_loop_live (target_repo config) rs w)
      as (Hout & Hspawned & Hannounced & Hreports).
    cbn zeta in *. unfold after; cbn [outcome events].
    unfold spawned, announced, reports in *.
    rewrite !omap_app, Hannounced, Hspawned, Hreports, Hout.
    split; [done|]. split; [done|]. split; [done|]. intros _.
    split; [done|]. split; [done|].
    intros k remote error Hk Hfail Hothers. cbn [omap list_omap app].
    apply list_eq. intros j. rewrite list_lookup_imap.
    destruct (decide (j = k)) as [->|Hne].
    + rewrite list_lookup_insert_eq
        by (rewrite length_fmap; by eapply lookup_lt_Some).
      rewrite Hk. simpl. fold (c remote). fold (attempt k remote).
      by rewrite Hfail.
    + rewrite list_lookup_insert_ne by done. rewrite list_lookup_fmap.
      destruct (rs !! j) as [other|] eqn:Hj; [|done]. simpl.
      fold (c other). fold (attempt j other).
      destruct (Hothers j other Hne Hj) as [stdout ->]. done.
Qed.

(** C1: in all-remotes mode [push] goes through every remote in the
    order of the registry and returns, so the process ends with status 0.
    When it pushes, it starts one child for each remote, in that order:
    [git push <url> HEAD:<branch>] in the target repository, with the url
    and the branch of that remote.  Each remote gets the verdict of its
    own push, a failure is reported for the remote it happened to and for
    no other, and the remotes after it are pushed to all the same. *)
Theorem push_all_attempts_every_remote w config rs options :
  stored_config None w = Some config ->
  remotes config = Some rs -> rs <> [] ->
  truthy_flag (all options) = true ->
  let r := push (Some options) w in
  let c remote :=
    {| file := "git";
       args := ["push"; url remote; "HEAD:" +:+ branch remote];
       cwd := target_repo config;
       stdio := None |} in
  let attempt k remote := child_result (children w + k) (c remote) in
  outcome r = Ret tt
  /\ exit_status (outcome r) = 0%Z
  /\ announced (events r) = (fun remote => (name remote, branch remote)) <$> rs
  /\ (truthy_flag (dryRun options) = false ->
      spawned (events r) = c <$> rs
      /\ reports (events r)
         = imap (fun k remote => verdict remote (attempt k remote)) rs
      /\ (forall k remote error,
            rs !! k = Some remote ->
            attempt k remote = Rejected error ->
            (forall j other, j <> k -> rs !! j = Some other ->
                             exists stdout, attempt j other = Resolved stdout) ->
            reports (events r)
            = <[k := Failed (name remote) (message error)]>
                ((fun remote => Pushed (name remote)) <$> rs))).
Proof. exact (push_all_facts w config rs options). Qed.

Lemma push_one_missing options config rs w :
  List.find (named (remoteName options config)) rs = None ->
  push_one options config rs w
  = Run (Exit 1) w
      [Console Stderr (MsgErrRemoteNotFound (remoteName options config))].
Proof. intros Hfind. unfold push_one. simpl. by rewrite Hfind. Qed.

Lemma push_one_found options config rs w remote :
  List.find (named (remoteName options config)) rs = Some remote ->
  let n := remoteName options config in
  let b := or_else (opt_member branch_opt options) (branch remote) in
  let c := git_push (url remote) b (target_repo config) in
  push_one options config rs w =
    if truthy_flag (opt_member dryRun options)
    then Run (Ret tt) w
           [Console Stdout (MsgPushingTo n b);
            Console Stdout (MsgDryRun (url remote) b)]
    else
      match child_result (children w) c with
      | Resolved _ =>
          Run (Ret tt) (started w)
            [Console Stdout (MsgPushingTo n b); Spawn (children w) c;
             Console Stdout (MsgPushedTo n)]
      | Rejected error =>
          Run (Exit 1) (started w)
            [Console Stdout (MsgPushingTo n b); Spawn (children w) c;
             Console Stderr (MsgFailedPush (message error))]
      end.
Proof.
  intros Hfind n b c. unfold push_one. simpl. rewrite Hfind. fold n b c.
  destruct (truthy_flag (opt_member dryRun options)); [reflexivity|].
  unfold try_catch, bind, console_log, console_error, emit, run, execa, await,
    after. simpl.
  destruct (child_result (children w) c); reflexivity.
Qed.

Lemma find_named_None (rs : list RemoteConfig) n :
  List.find (named n) rs = None <-> n ∉ name <$> rs.
Proof.
  induction rs as [|r rs IH]; simpl.
  - split; [|done]. intros _ Hin. by apply elem_of_nil in Hin.
  - rewrite not_elem_of_cons. destruct (named n r) eqn:Hr.
    + apply named_true in Hr. split; [done|]. by intros [? _].
    + apply named_false in Hr. rewrite IH. split; [by split|by intros [_ ?]].
Qed.

Lemma find_named_Some (rs : list RemoteConfig) n remote :
  List.find (named n) rs = Some remote ->
  exists i, rs !! i = Some remote /\ name remote = n
            /\ forall j y, rs !! j = Some y -> j < i -> name y <> n.
Proof.
  induction rs as [|r rs IH]; simpl; [done|].
  destruct (named n r) eqn:Hr.
  - intros [= ->]. exists 0. split; [done|]. split; [by apply named_true|].
    intros; lia.
  - intros (i & Hi & Hname & Hfirst)%IH. exists (S i).
    split; [done|]. split; [done|].
    intros [|j] y Hj Hlt; simpl in Hj.
    + injection Hj as <-. by apply named_false.
    + apply (Hfirst j); [done|lia].
Qed.

(** C2: a dry run of [push] starts no child process in either mode, and
    announces the remotes and branches that the same push announces when
    it is not a dry run.  In all-remotes mode these are the name and
    branch of every remote, each reported as pushed, where the live push
    starts a [git push] to each; in single-remote mode the dry run names
    the url and the branch of the one [git push] the live push starts. *)
Theorem push_dry_run w config rs options :
  stored_config None w = Some config ->
  remotes config = Some rs -> rs <> [] ->
  truthy_flag (dryRun options) = true ->
  let dry := push (Some options) w in
  let pushed := push (Some (live options)) w in
  spawned (events dry) = []
  /\ world dry = w
  /\ announced (events dry) = announced (events pushed)
  /\ (truthy_flag (all options) = true ->
      outcome dry = Ret tt
      /\ announced (events dry)
         = (fun remote => (name remote, branch remote)) <$> rs
      /\ spawned (events pushed)
         = (fun remote =>
              git_push (url remote) (branch remote) (target_repo config)) <$> rs
      /\ reports (events dry) = (fun remote => Pushed (name remote)) <$> rs)
  /\ (truthy_flag (all options) = false ->
      forall remote,
        List.find (named (remoteName (Some options) config)) rs = Some remote ->
        let b := or_else (branch_opt options) (branch remote) in
        outcome dry = Ret tt
        /\ announced (events dry) = [(remoteName (Some options) config, b)]
        /\ dry_run_notices (events dry) = [(url remote, b)]
        /\ spawned (events pushed)
           = [git_push (url remote) b (target_repo config)]).
Proof.
  intros Hconfig Hremotes Hrs Hdry dry pushed. subst dry pushed.
  rewrite !(push_run _ config rs w Hconfig Hremotes Hrs). simpl. rewrite Hdry.
  destruct (truthy_flag (all options)) eqn:Hall.
  - unfold push_all, console_log. rewrite !bind_emit.
    destruct (push_all_loop_dry (target_repo config) rs w)
      as (Hout & Hworld & Hspawned & Hannounced & Hreports).
    destruct (push_all_loop_live (target_repo config) rs w)
      as (_ & Hspawned' & Hannounced' & _).
    cbn zeta in *. unfold after; cbn [outcome world events].
    unfold spawned, announced, reports in *.
    rewrite !omap_app, Hspawned, Hannounced, Hannounced', Hreports, Hspawned'.
    repeat split; done.
  - change (remoteName (Some (live options)) config)
      with (remoteName (Some options) config).
    destruct (List.find (named (remoteName (Some options) config)) rs)
      as [remote|] eqn:Hfind.
    + rewrite (push_one_found (Some options) config rs w remote Hfind).
      assert (Hfind' :
                List.find (named (remoteName (Some (live options)) config)) rs
                = Some remote) by exact Hfind.
      rewrite (push_one_found (Some (live options)) config rs w remote Hfind').
      simpl. rewrite Hdry.
      change (remoteName (Some (live options)) config)
        with (remoteName (Some options) config).
      unfold after; cbn [outcome world events].
      split; [done|]. split; [done|].
      split; [by destruct (child_result (children w) _)|].
      split; [done|]. intros _ remote' [= <-]. simpl.
      split; [done|]. split; [done|]. split; [done|].
      by destruct (child_result (children w) _).
    + rewrite (push_one_missing (Some options) config rs w Hfind).
      assert (Hfind' :
                List.find (named (remoteName (Some (live options)) config)) rs
                = None) by exact Hfind.
      rewrite (push_one_missing (Some (live options)) config rs w Hfind').
      unfold after; cbn [outcome world events].
      repeat split; done.
Qed.

Lemma remoteName_given options config given :
  opt_member remote_opt options = Some given -> given <> "" ->
  remoteName options config = given.
Proof.
  intros Hopt Hgiven. unfold remoteName, js_or. rewrite Hopt. simpl.
  rewrite (truthy_string_nonempty given) by done. simpl.
  by rewrite (truthy_string_nonempty given).
Qed.

Lemma remoteName_default options config d :
  truthy (opt_member remote_opt options) = false ->
  default_remote config = Some d -> d <> "" ->
  remoteName options config = d.
Proof.
  intros Hopt Hdefault Hd. unfold remoteName, js_or. rewrite Hopt, Hdefault.
  simpl. by rewrite (truthy_string_nonempty d).
Qed.

Lemma remoteName_origin options config :
  truthy (opt_member remote_opt options) = false ->
  truthy (default_remote config) = false ->
  remoteName options config = "origin".
Proof.
  intros Hopt Hdefault. unfold remoteName, js_or. rewrite Hopt.
  destruct (default_remote config) as [d|]; [|done]. simpl in *.
  by rewrite Hdefault.
Qed.

Lemma or_else_given o b given :
  o = Some given -> given <> "" -> or_else o b = given.
Proof. intros -> Hgiven. simpl. by rewrite (truthy_string_nonempty given). Qed.

Lemma or_else_fallback o b : truthy o = false -> or_else o b = b.
Proof. destruct o as [s|]; simpl; [|done]. by intros ->. Qed.

(** C3, as the code has it: in single-remote mode the remote name is the
    remote option when it is given and not empty, else the configured
    default when it is set and not empty, else ["origin"]; a name that is
    not registered ends the process with status 1 before any push; the
    branch is the branch option when it is given and not empty, else the
    branch of the first remote of that name, and this is the remote and
    the branch that are announced and pushed to. *)
Theorem push_single_resolution w config rs options :
  stored_config None w = Some config ->
  remotes config = Some rs -> rs <> [] ->
  truthy_flag (opt_member all options) = false ->
  let r := push options w in
  let n := remoteName options config in
  (forall given,
      opt_member remote_opt options = Some given -> given <> "" -> n = given)
  /\ (truthy (opt_member remote_opt options) = false ->
      forall d, default_remote config = Some d -> d <> "" -> n = d)
  /\ (truthy (opt_member remote_opt options) = false ->
      truthy (default_remote config) = false -> n = "origin")
  /\ (n ∉ name <$> rs ->
      outcome r = Exit 1 /\ exit_status (outcome r) <> 0%Z
      /\ spawned (events r) = []
      /\ Console Stderr (MsgErrRemoteNotFound n) ∈ events r)
  /\ (n ∈ name <$> rs ->
      exists i remote b,
        rs !! i = Some remote /\ name remote = n
        /\ (forall j y, rs !! j = Some y -> j < i -> name y <> n)
        /\ (forall given,
              opt_member branch_opt options = Some given -> given <> "" ->
              b = given)
        /\ (truthy (opt_member branch_opt options) = false -> b = branch remote)
        /\ announced (events r) = [(n, b)]
        /\ (truthy_flag (opt_member dryRun options) = false ->
            spawned (events r) = [git_push (url remote) b (target_repo config)])
        /\ (truthy_flag (opt_member dryRun options) = true ->
            spawned (events r) = []
            /\ dry_run_notices (events r) = [(url remote, b)])).
Proof.
  intros Hconfig Hremotes Hrs Hall r n. subst r.
  rewrite (push_run _ config rs w Hconfig Hremotes Hrs), Hall.
  split; [intros; by apply remoteName_given|].
  split; [intros; by apply remoteName_default|].
  split; [intros; by apply remoteName_origin|].
  split.
  - intros Hmissing%find_named_None.
    rewrite (push_one_missing options config rs w Hmissing).
    unfold after; cbn [outcome events exit_status]. fold n.
    split; [done|]. split; [done|]. split; [done|].
    apply elem_of_app. right. apply list_elem_of_singleton. done.
  - intros Hin. destruct (List.find (named n) rs) as [remote|] eqn:Hfind.
    2:{ by apply find_named_None in Hfind. }
    destruct (find_named_Some rs n remote Hfind) as (i & Hi & Hname & Hfirst).
    exists i, remote, (or_else (opt_member branch_opt options) (branch remote)).
    rewrite (push_one_found options config rs w remote Hfind). fold n.
    split; [done|]. split; [done|]. split; [done|].
    split; [intros; by apply or_else_given|].
    split; [intros; by apply or_else_fallback|].
    destruct (truthy_flag (opt_member dryRun options)).
    + repeat split; done.
    + destruct (child_result (children w) _); repeat split; done.
Qed.

(** ** Sync executor *)

Lemma signalHandler_run l w :
  signalHandler l w = Run (Ret tt) w (handler_events l).
Proof. by destruct l. Qed.

Lemma handlers_run (ls : list (Signal * Listener)) w :
  for_of ls (fun sl => signalHandler sl.2) w
  = Run (Ret tt) w (ls ≫= fun sl => handler_events sl.2).
Proof.
  induction ls as [|sl ls IH]; [done|].
  rewrite (for_of_cons sl ls (fun sl => signalHandler sl.2) w w
             (handler_events sl.2) (signalHandler_run sl.2 w)), IH.
  done.
Qed.

(** A signal with a listener runs its listeners and changes nothing
    else. *)
Lemma deliver_run sig h w :
  (sig, h) ∈ listeners w ->
  deliver sig w
  = Run (Ret tt) w
      (filter (fun sl => sl.1 = sig) (reverse (listeners w))
         ≫= fun sl => handler_events sl.2).
Proof.
  intros Hin. unfold deliver.
  destruct (filter (fun sl => sl.1 = sig) (reverse (listeners w)))
    as [|sl ls] eqn:Hfilter.
  - exfalso. apply (elem_of_nil (sig, h)). rewrite <- Hfilter.
    apply list_elem_of_filter. split; [done|]. by apply elem_of_reverse.
  - apply handlers_run.
Qed.

Lemma spawned_handlers (ls : list (Signal * Listener)) :
  spawned (ls ≫= fun sl => handler_events sl.2) = [].
Proof.
  induction ls as [|[sig l] ls IH]; [done|].
  cbn [mbind list_bind]. unfold spawned in *. rewrite omap_app, IH.
  by destruct l.
Qed.

Lemma deliver_all sigs h w :
  (SIGINT, h) ∈ listeners w -> (SIGTERM, h) ∈ listeners w ->
  exists es,
    for_of sigs deliver w = Run (Ret tt) w es
    /\ spawned es = []
    /\ (forall sig, sig ∈ sigs -> handler_events h ⊆ es).
Proof.
  intros Hint Hterm. induction sigs as [|sig sigs (es & Hrun & Hspawned & Hes)].
  - exists []. split; [done|]. split; [done|].
    intros sig Hsig. by apply elem_of_nil in Hsig.
  - assert (Hin : (sig, h) ∈ listeners w) by by destruct sig.
    rewrite (for_of_cons sig sigs deliver w w _ (deliver_run sig h w Hin)), Hrun.
    eexists. split; [reflexivity|]. cbn [events]. split.
    { unfold spawned in *. rewrite omap_app, Hspawned.
      fold (spawned (filter (fun sl => sl.1 = sig) (reverse (listeners w))
                       ≫= fun sl => handler_events sl.2)).
      by rewrite spawned_handlers. }
    intros sig' [->|Hsig']%elem_of_cons e He; apply elem_of_app.
    + left. apply list_elem_of_bind. exists (sig, h). split; [done|].
      apply list_elem_of_filter. split; [done|]. by apply elem_of_reverse.
    + right. by apply (Hes sig').
Qed.

Lemma bind_access_found {B} path (h : JsError -> M unit) (k : unit -> M B) w :
  is_Some (files w !! path) ->
  bind (try_catch (fs_access path) h) k w = after [Fs (Access path)] (k tt w).
Proof.
  intros [node Hnode]. unfold bind, try_catch, fs_access, emit, after. simpl.
  rewrite Hnode. simpl. by destruct (k tt w).
Qed.

Lemma bind_access_missing {B} path (h : JsError -> M unit) (k : unit -> M B) w :
  files w !! path = None ->
  bind (try_catch (fs_access path) h) k w
  = after [Fs (Access path)] (bind (h (fs_error "ENOENT" path)) k w).
Proof.
  intros Hnode. unfold bind, try_catch, fs_access, emit, after. simpl.
  rewrite Hnode. simpl. by destruct (h _ w) as [[a|e|c] w' es].
Qed.

Lemma bind_execa {B} c (k : Subprocess -> M B) w :
  bind (execa c) k w
  = after [Spawn (children w) c]
      (k {| pid := children w; command := c |} (started w)).
Proof. reflexivity. Qed.

Lemma bind_process_on {B} sig l (k : unit -> M B) w :
  bind (process_on sig l) k w
  = after [ProcessOn sig l]
      (k tt {| files := files w; children := children w;
               listeners := (sig, l) :: listeners w |}).
Proof.
  unfold bind, process_on, emit, after. simpl.
  by destruct (k tt _) as [o w' es].
Qed.

Lemma bind_process_off {B} sig l (k : unit -> M B) w :
  bind (process_off sig l) k w
  = after [ProcessOff sig l]
      (k tt {| files := files w; children := children w;
               listeners := remove_first (sig, l) (listeners w) |}).
Proof.
  unfold bind, process_off, emit, after. simpl.
  by destruct (k tt _) as [o w' es].
Qed.

(** Taking the handler off both signals undoes [listening]. *)
Lemma remove_handlers h ls :
  remove_first (SIGTERM, h) (remove_first (SIGINT, h) ((SIGTERM, h) :: (SIGINT, h) :: ls))
  = ls.
Proof.
  cbn [remove_first]. rewrite decide_False by discriminate.
  rewrite decide_True by done. cbn [remove_first]. by rewrite decide_True.
Qed.

Lemma signal_is_true error sig :
  signal_is error sig = true <-> signal error = Some sig.
Proof.
  unfold signal_is. destruct (signal error) as [s|]; [|done].
  rewrite String.eqb_eq. split; congruence.
Qed.

Lemma await_listening_run mode w :
  exists delivered,
    await_listening {| pid := children w; command := script_command mode |}
      (listening mode w)
    = match child_result (children w) (script_command mode) with
      | Resolved stdout => Run (Ret stdout) (listening mode w) delivered
      | Rejected error => Run (Throw error) (listening mode w) delivered
      end
    /\ spawned delivered = []
    /\ (forall sig, sig ∈ signals_during (children w) ->
                    handler_events (handler_of mode (children w)) ⊆ delivered).
Proof.
  destruct (deliver_all (signals_during (children w))
              (handler_of mode (children w)) (listening mode w))
    as (delivered & Hdelivered & Hquiet & Hforward).
  { apply list_elem_of_further, list_elem_of_here. }
  { apply list_elem_of_here. }
  exists delivered. split; [|done].
  unfold await_listening, bind, await. cbn [pid command]. rewrite Hdelivered.
  destruct (child_result (children w) (script_command mode)); unfold after; simpl;
    by rewrite app_nil_r.
Qed.

(** The executor whose child ends in an error: the handler has passed on
    every signal that arrived, and the [catch] block ends the process,
    with status 0 when SIGINT ended the child and with status 1
    otherwise. *)
Lemma executor_rejected mode options w error :
  is_Some (files w !! script mode) ->
  child_result (children w) (script_command mode) = Rejected error ->
  exists before delivered reported,
    executor mode options w
    = Run (Exit (if signal_is error "SIGINT" then 0 else 1)) (started w)
        (before ++ [Spawn (children w) (script_command mode)]
         ++ [ProcessOn SIGINT (handler_of mode (children w));
             ProcessOn SIGTERM (handler_of mode (children w))]
         ++ delivered
         ++ [ProcessOff SIGINT (handler_of mode (children w));
             ProcessOff SIGTERM (handler_of mode (children w));
             reported])
    /\ spawned before = []
    /\ spawned delivered = []
    /\ spawned [reported] = []
    /\ (forall sig, sig ∈ signals_during (children w) ->
                    handler_events (handler_of mode (children w)) ⊆ delivered).
Proof.
  intros Hscript Hchild.
  destruct (await_listening_run mode w) as (delivered & Hawait & Hquiet & Hforward).
  rewrite Hchild in Hawait.
  destruct mode; unfold listening, script_command, script in Hawait;
    simpl in Hscript, Hawait.
  - exists [Fs (Access (script SingleShot)); Console Stdout MsgRunningSync],
      delivered,
      (if signal_is error "SIGINT" then Console Stdout MsgSyncStopped
       else Console Stderr (MsgSyncFailed (message error))).
    split; [|by destruct (signal_is error "SIGINT")].
    unfold executor, sync.
    rewrite (bind_access_found _ _ _ _ Hscript).
    unfold console_log at 1. rewrite bind_emit, bind_execa.
    rewrite !bind_process_on. cbn [pid started children files listeners].
    unfold try_finally, try_catch. unfold bind at 1. rewrite Hawait.
    cbn iota. rewrite !bind_process_off. cbn [listeners files children].
    rewrite remove_handlers.
    destruct (signal_is error "SIGINT"); reflexivity.
  - exists [Fs (Access (script Continuous)); Console Stdout MsgRunningRalph;
            Console Stdout MsgPressCtrlC],
      delivered,
      (if signal_is error "SIGINT" then Console Stdout MsgContinuousStopped
       else Console Stderr (MsgContinuousFailed (message error))).
    split; [|by destruct (signal_is error "SIGINT")].
    unfold executor, syncForever.
    rewrite (bind_access_found _ _ _ _ Hscript).
    unfold console_log at 1 2. rewrite !bind_emit, bind_execa.
    rewrite !bind_process_on. cbn [pid started children files listeners].
    unfold try_finally, try_catch. unfold bind at 1. rewrite Hawait.
    cbn iota. rewrite !bind_process_off. cbn [listeners files children].
    rewrite remove_handlers.
    destruct (signal_is error "SIGINT"); reflexivity.
Qed.

(** Without its script the executor ends the process with status 1 and
    starts nothing. *)
Lemma executor_script_missing mode options w :
  files w !! script mode = None ->
  executor mode options w
  = Run (Exit 1) w
      [Fs (Access (script mode));
       Console Stderr (match mode with
                       | SingleShot => MsgSyncScriptMissing
                       | Continuous => MsgRalphScriptMissing
                       end)].
Proof.
  intros Hscript.
  destruct mode; unfold executor, sync, syncForever;
    by rewrite (bind_access_missing _ _ _ _ Hscript).
Qed.

(** C9: when the child of a sync, single-shot or continuous, ends in an
    error that carries SIGINT, the signal the handler passes on, the
    command ends the process with status 0; when the child ends in any
    other error, with status 1.  Every signal that arrived while the
    child ran was passed on to it as SIGINT. *)
Theorem executor_exit_status_by_cause mode options w error :
  is_Some (files w !! script mode) ->
  child_result (children w) (script_command mode) = Rejected error ->
  let r := executor mode options w in
  (signal error = Some "SIGINT" ->
   outcome r = Exit 0 /\ exit_status (outcome r) = 0%Z)
  /\ (signal error <> Some "SIGINT" ->
      outcome r = Exit 1 /\ exit_status (outcome r) <> 0%Z)
  /\ (forall sig, sig ∈ signals_during (children w) ->
                  Kill (children w) "SIGINT" ∈ events r)
  /\ spawned (events r) = [script_command mode].
Proof.
  intros Hscript Hchild r. subst r.
  destruct (executor_rejected mode options w error Hscript Hchild)
    as (before & delivered & reported & -> & Hbefore & Hdelivered & Hreported
        & Hforward).
  cbn [outcome events exit_status].
  split; [|split; [|split]].
  - intros Hsig%signal_is_true. by rewrite Hsig.
  - intros Hsig. destruct (signal_is error "SIGINT") eqn:His; [|done].
    by apply signal_is_true in His.
  - intros sig Hsig. rewrite !elem_of_app. right. right. right. left.
    apply (Hforward sig Hsig). destruct mode; apply list_elem_of_further, list_elem_of_here.
  - unfold spawned in *.
    rewrite !omap_app, Hbefore, Hdelivered,
      (omap_cons_app _ (ProcessOff SIGINT _)),
      (omap_cons_app _ (ProcessOff SIGTERM _)), Hreported.
    done.
Qed.

(** *** Nothing escapes the executor *)

Create HintDb throws.

Lemma no_throw_ret {A} (a : A) : no_throw (ret a).
Proof. by intros w e. Qed.

Lemma no_throw_emit e : no_throw (emit e).
Proof. by intros w e'. Qed.

Lemma no_throw_exit {A} code : no_throw (@process_exit A code).
Proof. by intros w e. Qed.

Lemma no_throw_bind {A B} (m : M A) (k : A -> M B) :
  no_throw m -> (forall a, no_throw (k a)) -> no_throw (bind m k).
Proof.
  intros Hm Hk w e. unfold bind. specialize (Hm w).
  destruct (m w) as [[a|e'|c] w' es]; simpl in *; [|by destruct (Hm e')|done].
  apply Hk.
Qed.

Lemma no_throw_try_catch {A} (body : M A) (handler : JsError -> M A) :
  (forall e, no_throw (handler e)) -> no_throw (try_catch body handler).
Proof.
  intros Hh w e. unfold try_catch.
  destruct (body w) as [[a|e'|c] w' es]; simpl; [done| |done].
  apply Hh.
Qed.

Lemma no_throw_try_finally {A} (body : M A) (cleanup : M unit) :
  no_throw body -> no_throw cleanup -> no_throw (try_finally body cleanup).
Proof.
  intros Hb Hc w e. unfold try_finally. specialize (Hb w).
  destruct (body w) as [[a|e'|c] w' es]; simpl in *; [|by destruct (Hb e')|done].
  apply (no_throw_bind cleanup (fun _ => ret a)); [done|].
  intros _. apply no_throw_ret.
Qed.

Lemma no_throw_when b (m : M unit) : no_throw m -> no_throw (when b m).
Proof. intros Hm. destruct b; [done|apply no_throw_ret]. Qed.

Lemma no_throw_execa c : no_throw (execa c).
Proof. by intros w e. Qed.

Lemma no_throw_process_on sig l : no_throw (process_on sig l).
Proof. by intros w e. Qed.

Lemma no_throw_process_off sig l : no_throw (process_off sig l).
Proof. by intros w e. Qed.

#[local] Hint Resolve no_throw_ret no_throw_emit no_throw_exit no_throw_bind
  no_throw_try_catch no_throw_try_finally no_throw_when no_throw_execa
  no_throw_process_on no_throw_process_off : throws.


Lemma try_catch_no_throw {A} (body : M A) handler w :
  (forall e, outcome (body w) <> Throw e) -> try_catch body handler w = body w.
Proof.
  intros Hb. unfold try_catch.
  destruct (body w) as [[a|e|c] w' es]; [done| |done]. by destruct (Hb e).
Qed.

(** ** Pull *)

Lemma bind_run {B} c (k : string -> M B) w :
  bind (run c) k w =
    match child_result (children w) c with
    | Resolved stdout => after [Spawn (children w) c] (k stdout (started w))
    | Rejected error => Run (Throw error) (started w) [Spawn (children w) c]
    end.
Proof.
  unfold bind at 1. rewrite run_run.
  destruct (child_result (children w) c); reflexivity.
Qed.




(** Case analysis on a membership in a list that is written out. *)
Ltac in_list H :=
  repeat (apply elem_of_cons in H as [H|H]; [try discriminate H; try subst|]);
  try (by apply elem_of_nil in H).

Lemma pull_check_run options w :
  truthy_flag (opt_member check options) = true ->
  pull options w =
    let read := Fs (ReadFile (configPath None)) in
    match stored_config None w with
    | None => Run (Exit 1) w [read; Console Stderr MsgConfigMissing]
    | Some config =>
        let fetch := git ["fetch"] (source_repo config) None in
        let status := git ["status"; "-uno"] (source_repo config) None in
        match child_result (children w) fetch with
        | Rejected error =>
            Run (Exit 1) (started w)
              [read; Console Stdout MsgChecking; Spawn (children w) fetch;
               Console Stderr (MsgFailedCheck (message error))]
        | Resolved _ =>
            match child_result (S (children w)) status with
            | Rejected error =>
                Run (Exit 1) (started (started w))
                  [read; Console Stdout MsgChecking; Spawn (children w) fetch;
                   Spawn (S (children w)) status;
                   Console Stderr (MsgFailedCheck (message error))]
            | Resolved stdout =>
                Run (Ret tt) (started (started w))
                  [read; Console Stdout MsgChecking; Spawn (children w) fetch;
                   Spawn (S (children w)) status;
                   Console Stdout (MsgText stdout)]
            end
        end
    end.
Proof.
  intros Hcheck. unfold pull. rewrite bind_loadConfig.
  destruct (stored_config None w) as [config|]; [|reflexivity].
  cbn iota beta zeta. rewrite Hcheck. unfold console_log at 1.
  rewrite bind_emit. unfold try_catch. rewrite bind_run.
  destruct (child_result (children w) _) as [out|error]; [|reflexivity].
  rewrite bind_run. cbn [started children].
  destruct (child_result (S (children w)) _) as [out'|error]; reflexivity.
Qed.

(** C7: in check mode [pull] starts [git fetch] and then
    [git status -uno] in the source repository and nothing else: no
    [git pull], no sync script; it writes no file and registers no
    listener, whatever [auto_sync] and the other options say. *)
Theorem pull_check_only_fetches w options :
  truthy_flag (opt_member check options) = true ->
  let r := pull options w in
  files (world r) = files w
  /\ listeners (world r) = listeners w
  /\ fs_calls (events r) = [ReadFile (configPath None)]
  /\ (forall config,
        stored_config None w = Some config ->
        spawned (events r) `prefix_of`
          [git ["fetch"] (source_repo config) None;
           git ["status"; "-uno"] (source_repo config) None])
  /\ (stored_config None w = None -> spawned (events r) = [])
  /\ (forall c, c ∈ spawned (events r) ->
                file c = "git" /\ args c <> ["pull"] /\ file c <> "bash")
  /\ (forall sig l, ProcessOn sig l ∉ events r).
Proof.
  intros Hcheck r. subst r. rewrite (pull_check_run options w Hcheck).
  cbn zeta.
  destruct (stored_config None w) as [config|];
    [destruct (child_result (children w) _) as [out|error];
     [destruct (child_result (S (children w)) _) as [out'|error]|]|];
    cbn;
    (split; [done|]); (split; [done|]); (split; [done|]);
    (split; [intros ? [= <-]; repeat apply prefix_cons; apply prefix_nil|]);
    (split; [done|]);
    (split; [intros c Hc; in_list Hc; by repeat split
            |intros sig l Hin; in_list Hin]).
Qed.

End Properties.

(** * The codec of the model reads back what it writes *)

Lemma append_cons a s t : String a s +:+ t = String a (s +:+ t).
Proof. reflexivity. Qed.

Lemma append_nil s : "" +:+ s = s.
Proof. reflexivity. Qed.

Lemma append_length s t : String.length (s +:+ t) = String.length s + String.length t.
Proof. induction s as [|a s IH]; [done|]. rewrite append_cons. simpl. by rewrite IH. Qed.

Lemma expect_app p s : Yaml.expect p (p +:+ s) = Some s.
Proof.
  induction p as [|a p IH]; [done|].
  rewrite append_cons. simpl. by rewrite Ascii.eqb_refl.
Qed.

Lemma read_escaped_escape v rest :
  Yaml.read_escaped (Yaml.escape v +:+ String Yaml.double_quote rest)
  = Some (v, rest).
Proof.
  induction v as [|c v IH]; [done|].
  cbn [Yaml.escape].
  destruct (Ascii.eqb c Yaml.double_quote) eqn:Hquote.
  { apply Ascii.eqb_eq in Hquote as ->. rewrite !append_cons.
    cbn [Yaml.read_escaped]. rewrite IH. reflexivity. }
  destruct (Ascii.eqb c Yaml.backslash) eqn:Hslash.
  { apply Ascii.eqb_eq in Hslash as ->. rewrite !append_cons.
    cbn [Yaml.read_escaped]. rewrite IH. reflexivity. }
  destruct (Ascii.eqb c Yaml.line_feed) eqn:Hfeed.
  { apply Ascii.eqb_eq in Hfeed as ->. rewrite !append_cons.
    cbn [Yaml.read_escaped]. rewrite IH. reflexivity. }
  rewrite append_cons. cbn [Yaml.read_escaped].
  by rewrite Hquote, Hslash, IH.
Qed.

Lemma read_quoted_put v rest :
  Yaml.read_quoted (Yaml.put_quoted v rest) = Some (v, rest).
Proof.
  unfold Yaml.read_quoted, Yaml.put_quoted.
  change (Ascii.eqb Yaml.double_quote Yaml.double_quote) with true.
  apply read_escaped_escape.
Qed.

Lemma read_bool_put b rest : Yaml.read_bool (Yaml.put_bool b rest) = Some (b, rest).
Proof.
  unfold Yaml.read_bool, Yaml.put_bool. destruct b.
  - by rewrite expect_app.
  - change (Yaml.expect "true" ("false" +:+ rest)) with (@None string).
    by rewrite expect_app.
Qed.

(** A member that was written is read, with whatever reads what its
    value was written as. *)
Lemma get_member_put {A} key (put : A -> string -> string) read v rest :
  (forall rest', read (put v (newline +:+ rest')) = Some (v, newline +:+ rest')) ->
  Yaml.get_member key read (Yaml.put_member key put v rest) = Some (v, rest).
Proof.
  intros Hread. unfold Yaml.get_member, Yaml.put_member.
  by rewrite !expect_app, Hread, expect_app.
Qed.

Lemma get_optional_put {A} key (put : A -> string -> string) read v rest :
  (forall x rest',
     v = Some x ->
     read (put x (newline +:+ rest')) = Some (x, newline +:+ rest')) ->
  (v = None -> Yaml.expect key rest = None) ->
  Yaml.get_optional key read (Yaml.put_optional key put v rest) = Some (v, rest).
Proof.
  intros Hread Hnext. unfold Yaml.get_optional, Yaml.put_optional.
  destruct v as [x|].
  - rewrite get_member_put by (intros; by apply Hread).
    unfold Yaml.put_member. by rewrite expect_app.
  - by rewrite Hnext.
Qed.

(** ** The remotes *)

Lemma get_entry_put r rest :
  Yaml.get_entry (Yaml.put_entry r rest) = Some (r, rest).
Proof.
  unfold Yaml.get_entry, Yaml.put_entry.
  rewrite expect_app, get_member_put by (intros; apply read_quoted_put).
  rewrite expect_app, get_member_put by (intros; apply read_quoted_put).
  rewrite expect_app, get_member_put by (intros; apply read_quoted_put).
  by destruct r.
Qed.

Lemma put_entry_length r rest :
  String.length rest < String.length (Yaml.put_entry r rest).
Proof.
  unfold Yaml.put_entry.
  repeat (rewrite append_length || cbn [String.length]
          || unfold Yaml.put_member || unfold Yaml.put_quoted).
  lia.
Qed.

Lemma put_entries_length rs rest :
  length rs <= String.length (Yaml.put_entries rs rest).
Proof.
  induction rs as [|r rs IH]; cbn [length Yaml.put_entries foldr]; [lia|].
  fold (Yaml.put_entries rs rest).
  pose proof (put_entry_length r (Yaml.put_entries rs rest)). lia.
Qed.

Lemma get_entries_put fuel rs rest :
  length rs <= fuel ->
  Yaml.expect "  - " rest = None ->
  Yaml.get_entries fuel (Yaml.put_entries rs rest) = Some (rs, rest).
Proof.
  intros Hfuel Hrest. revert fuel Hfuel.
  induction rs as [|r rs IH]; intros fuel Hfuel.
  - cbn [Yaml.put_entries foldr].
    destruct fuel; cbn [Yaml.get_entries]; by rewrite Hrest.
  - destruct fuel as [|fuel]; [simpl in Hfuel; lia|].
    cbn [Yaml.put_entries foldr Yaml.get_entries].
    fold (Yaml.put_entries rs rest).
    rewrite get_entry_put.
    unfold Yaml.put_entry at 1. rewrite expect_app.
    rewrite IH by (simpl in Hfuel; lia). done.
Qed.

Lemma get_remotes_put rs rest :
  Yaml.expect "remotes:" rest = None ->
  Yaml.expect "  - " rest = None ->
  Yaml.get_remotes (Yaml.put_remotes rs rest) = Some (rs, rest).
Proof.
  intros Hnext Hentry. unfold Yaml.get_remotes, Yaml.put_remotes.
  destruct rs as [[|r rs]|].
  - change ("remotes: []" +:+ newline +:+ rest)
      with ("remotes:" +:+ (" []" +:+ newline) +:+ rest).
    by rewrite !expect_app.
  - rewrite expect_app.
    change (Yaml.expect (" []" +:+ newline)
              (newline +:+ Yaml.put_entries (r :: rs) rest))
      with (@None string).
    rewrite expect_app, get_entries_put; [done| |done].
    apply put_entries_length.
  - by rewrite Hnext.
Qed.

(** ** Numbers *)

Lemma read_uint_app d rest :
  Yaml.read_uint rest = (Decimal.Nil, rest) ->
  Yaml.read_uint (NilEmpty.string_of_uint d +:+ rest) = (d, rest).
Proof.
  intros Hrest.
  induction d as [|d IH|d IH|d IH|d IH|d IH|d IH|d IH|d IH|d IH|d IH];
    cbn [NilEmpty.string_of_uint]; [done|..];
    rewrite append_cons; cbn [Yaml.read_uint]; by rewrite IH.
Qed.

Lemma to_uint_digits n : Yaml.no_digits (N.to_uint n) = false.
Proof.
  destruct n as [|p]; [done|]. cbn [N.to_uint].
  pose proof (DecimalPos.Unsigned.to_uint_nonnil p).
  by destruct (Pos.to_uint p).
Qed.

(** A text that starts with something else than a digit is not at the
    head of a number. *)
Lemma expect_digits a p n rest :
  uint_of_char a (Some Decimal.Nil) = None ->
  Yaml.expect (String a p) (Yaml.digits n +:+ rest) = None.
Proof.
  intros Hother. unfold Yaml.digits.
  pose proof (to_uint_digits n) as Hsome.
  destruct (N.to_uint n); [done|..];
    cbn [NilEmpty.string_of_uint]; rewrite append_cons; cbn [Yaml.expect];
    match goal with
    | |- context [Ascii.eqb a ?c] =>
        destruct (Ascii.eqb_spec a c) as [->|]; [discriminate Hother|done]
    end.
Qed.

Lemma read_digits n rest :
  Yaml.read_uint rest = (Decimal.Nil, rest) ->
  Yaml.read_uint (Yaml.digits (Z.to_N n) +:+ rest) = (N.to_uint (Z.to_N n), rest).
Proof. apply read_uint_app. Qed.

Lemma digits2_log2 m :
  Z.pos (SpecFloat.digits2_pos m) = (Z.log2 (Z.pos m) + 1)%Z.
Proof.
  induction m as [m IH|m IH|]; cbn [SpecFloat.digits2_pos]; [| |done].
  - rewrite Pos2Z.inj_succ, IH, Pos2Z.inj_xI, Z.log2_succ_double; lia.
  - rewrite Pos2Z.inj_succ, IH, Pos2Z.inj_xO, Z.log2_double; lia.
Qed.

(** The exponent of a canonical mantissa is the one [canonical] finds. *)
Lemma canonical_exponent m e :
  SpecFloat.canonical_mantissa FloatOps.prec FloatOps.emax m e = true ->
  Z.max (Z.log2 (Z.pos m) + 1 + e - 53) (-1074) = e.
Proof.
  unfold SpecFloat.canonical_mantissa, SpecFloat.fexp, SpecFloat.emin.
  rewrite digits2_log2. intros Heq%Z.eqb_eq.
  change FloatOps.prec with 53%Z in Heq. change FloatOps.emax with 1024%Z in Heq.
  lia.
Qed.

Lemma canonical_scaled (m : positive) e m' z :
  SpecFloat.canonical_mantissa FloatOps.prec FloatOps.emax m e = true ->
  (0 <= z)%Z -> (0 < m')%Z -> Z.pos m = (m' * 2 ^ z)%Z ->
  Yaml.canonical m' (e + z) = (m, e).
Proof.
  intros Hcanonical Hz Hm' Hm. unfold Yaml.canonical.
  assert (Hlog : (Z.log2 (Z.pos m) = z + Z.log2 m')%Z)
    by (rewrite Hm; by apply Z.log2_mul_pow2).
  replace (Z.log2 m' + 1 + (e + z) - 53)%Z
    with (Z.log2 (Z.pos m) + 1 + e - 53)%Z by lia.
  rewrite (canonical_exponent m e Hcanonical).
  replace (e + z - e)%Z with z by lia.
  by rewrite Z.shiftl_mul_pow2, <- Hm by done.
Qed.

Lemma canonical_integer (m : positive) e :
  SpecFloat.canonical_mantissa FloatOps.prec FloatOps.emax m e = true ->
  (0 <= e)%Z ->
  Yaml.canonical (Z.pos m * 2 ^ e) 0 = (m, e).
Proof.
  intros Hcanonical He. unfold Yaml.canonical.
  rewrite Z.log2_mul_pow2 by lia.
  replace (e + Z.log2 (Z.pos m) + 1 + 0 - 53)%Z
    with (Z.log2 (Z.pos m) + 1 + e - 53)%Z by lia.
  rewrite (canonical_exponent m e Hcanonical).
  replace (0 - e)%Z with (- e)%Z by lia.
  rewrite <- Z.shiftr_opp_r, Z.opp_involutive, Z.shiftr_div_pow2 by lia.
  rewrite Z.div_mul by lia. done.
Qed.

(** What [strip] takes off [n] are powers of two of the mantissa. *)
Lemma strip_spec fuel n k m' :
  (0 <= k)%Z -> (0 < m')%Z -> n = (m' * 5 ^ k)%Z ->
  exists z m'',
    (0 <= z <= k)%Z /\ (0 < m'')%Z /\ m' = (m'' * 2 ^ z)%Z
    /\ Yaml.strip fuel n k = ((m'' * 5 ^ (k - z))%Z, (k - z)%Z).
Proof.
  revert n k m'. induction fuel as [|fuel IH]; intros n k m' Hk Hm' ->.
  { exists 0%Z, m'. rewrite Z.sub_0_r, Z.pow_0_r, Z.mul_1_r.
    repeat split; try done; lia. }
  cbn [Yaml.strip].
  destruct (Z.eqb_spec k 0) as [->|Hpos].
  { exists 0%Z, m'. rewrite Z.sub_0_r, Z.pow_0_r, Z.mul_1_r.
    repeat split; try done; lia. }
  destruct (Z.eqb_spec ((m' * 5 ^ k) mod 10) 0) as [Hten|Hother].
  2:{ exists 0%Z, m'. rewrite Z.sub_0_r, Z.pow_0_r, Z.mul_1_r.
      repeat split; try done; lia. }
  assert (Heven : Z.even m' = true).
  { assert (Htwo : Z.even (m' * 5 ^ k) = true).
    { apply Z.even_spec. apply Z.mod_divide in Hten; [|lia].
      destruct Hten as [q Hq]. exists (q * 5)%Z. lia. }
    rewrite Z.even_mul, Z.even_pow in Htwo by lia.
    by rewrite orb_false_r in Htwo. }
  apply Z.even_spec in Heven as [q Hq].
  assert (Hdiv : ((m' * 5 ^ k) / 10 = q * 5 ^ (k - 1))%Z).
  { assert (Hpow : (5 ^ k = 5 * 5 ^ (k - 1))%Z)
      by (rewrite <- Z.pow_succ_r by lia; f_equal; lia).
    rewrite Hpow, Hq.
    replace (2 * q * (5 * 5 ^ (k - 1)))%Z with ((q * 5 ^ (k - 1)) * 10)%Z by lia.
    by rewrite Z.div_mul. }
  rewrite Hdiv.
  destruct (IH (q * 5 ^ (k - 1))%Z (k - 1)%Z q) as (z & m'' & Hz & Hm'' & Hq' & Hstrip);
    [lia|lia|done|].
  exists (Z.succ z), m''. rewrite Z.pow_succ_r by lia.
  replace (k - Z.succ z)%Z with (k - 1 - z)%Z by lia.
  repeat split; try done; lia.
Qed.

(** The decimal of a double is read back as its mantissa and exponent. *)
Lemma binary_of_decimal_of m e :
  SpecFloat.canonical_mantissa FloatOps.prec FloatOps.emax m e = true ->
  Yaml.binary_of (Yaml.decimal_of m e).1 (Yaml.decimal_of m e).2 = (m, e)
  /\ (0 < (Yaml.decimal_of m e).1)%Z /\ (0 <= (Yaml.decimal_of m e).2)%Z.
Proof.
  intros Hcanonical. unfold Yaml.decimal_of, Yaml.binary_of.
  destruct (Z.leb_spec 0 e) as [He|He]; cbn [fst snd].
  - rewrite Z.pow_0_r, Z.div_1_r. split; [by apply canonical_integer|].
    split; [|done]. apply Z.mul_pos_pos; [done|]. by apply Z.pow_pos_nonneg.
  - destruct (strip_spec (Z.to_nat (- e)) (Z.pos m * 5 ^ (- e)) (- e) (Z.pos m))
      as (z & m'' & Hz & Hm'' & Hm & ->); [lia|done|done|].
    cbn [fst snd]. rewrite Z.div_mul by (apply Z.pow_nonzero; lia).
    split.
    + replace (- (- e - z))%Z with (e + z)%Z by lia.
      apply canonical_scaled; [done|lia|done|done].
    + split; [|lia]. apply Z.mul_pos_pos; [done|].
      apply Z.pow_pos_nonneg; lia.
Qed.

Lemma read_exponent_put k rest :
  (0 <= k)%Z ->
  Yaml.read_exponent
    (if (k =? 0)%Z then newline +:+ rest
     else "e-" +:+ Yaml.digits (Z.to_N k) +:+ newline +:+ rest)
  = Some (k, newline +:+ rest).
Proof.
  intros Hk. unfold Yaml.read_exponent.
  destruct (Z.eqb_spec k 0) as [->|Hpos]; [done|].
  rewrite expect_app, read_digits by done.
  by rewrite to_uint_digits, DecimalN.Unsigned.of_to, Z2N.id.
Qed.

Lemma read_number_put f rest :
  Yaml.read_number (Yaml.put_number f (newline +:+ rest))
  = Some (f, newline +:+ rest).
Proof.
  unfold Yaml.put_number.
  pose proof (FloatAxioms.Prim2SF_valid f) as Hvalid.
  rewrite <- (FloatAxioms.SF2Prim_Prim2SF f) at 2.
  destruct (FloatOps.Prim2SF f) as [s|s| |s m e].
  - by destruct s.
  - by destruct s.
  - done.
  - cbn [SpecFloat.valid_binary] in Hvalid.
    assert (Hcanonical :
              SpecFloat.canonical_mantissa FloatOps.prec FloatOps.emax m e = true).
    { unfold SpecFloat.bounded in Hvalid. by apply andb_prop in Hvalid as [? _]. }
    destruct (binary_of_decimal_of m e Hcanonical) as (Hback & Hn & Hk).
    destruct (Yaml.decimal_of m e) as [n k] eqn:Hdecimal. cbn [fst snd] in *.
    assert (Htext :
              Yaml.put_decimal n k (newline +:+ rest)
              = Yaml.digits (Z.to_N n)
                +:+ (if (k =? 0)%Z then newline +:+ rest
                     else "e-" +:+ Yaml.digits (Z.to_N k) +:+ newline +:+ rest)).
    { unfold Yaml.put_decimal. by destruct (k =? 0)%Z. }
    rewrite Htext. clear Htext.
    set (tail := if (k =? 0)%Z then newline +:+ rest
                 else "e-" +:+ Yaml.digits (Z.to_N k) +:+ newline +:+ rest).
    assert (Htail : Yaml.read_uint tail = (Decimal.Nil, tail))
      by (subst tail; by destruct (k =? 0)%Z).
    assert (Hread :
              Yaml.read_number (Yaml.digits (Z.to_N n) +:+ tail)
              = Yaml.read_finite false n tail
              /\ Yaml.read_number ("-" +:+ Yaml.digits (Z.to_N n) +:+ tail)
                 = Yaml.read_finite true n tail).
    { unfold Yaml.read_number, Yaml.read_sign.
      rewrite expect_app, !expect_digits by done.
      rewrite read_digits, to_uint_digits, DecimalN.Unsigned.of_to, Z2N.id
        by (done || lia).
      destruct (Z.eqb_spec n 0); [lia|done]. }
    assert (Hfinite :
              forall negative,
                Yaml.read_finite negative n tail
                = Some (FloatOps.SF2Prim (SpecFloat.S754_finite negative m e),
                        newline +:+ rest)).
    { intros negative. unfold Yaml.read_finite. subst tail.
      rewrite read_exponent_put, Hback, Hdecimal, Hvalid, !Z.eqb_refl by done.
      done. }
    destruct s; cbn [Yaml.sign_text]; rewrite ?append_nil;
      [rewrite (proj2 Hread)|rewrite (proj1 Hread)]; apply Hfinite.
Qed.

(** ** Documents *)

(** What follows an optional member that is not set does not start with
    its key. *)
Lemma after_default_remote a rs t l :
  Yaml.expect "default_remote"
    (Yaml.put_optional "auto_sync" Yaml.put_bool a
       (Yaml.put_remotes rs
          (Yaml.put_optional "target_remote" Yaml.put_quoted t
             (Yaml.put_optional "times_to_loop" Yaml.put_number l ""))))
  = None.
Proof. by destruct a, rs as [[|r rs]|], t, l. Qed.

Lemma after_auto_sync rs t l :
  Yaml.expect "auto_sync"
    (Yaml.put_remotes rs
       (Yaml.put_optional "target_remote" Yaml.put_quoted t
          (Yaml.put_optional "times_to_loop" Yaml.put_number l "")))
  = None.
Proof. by destruct rs as [[|r rs]|], t, l. Qed.

Lemma after_remotes (key : string) t l :
  key = "remotes:" \/ key = "  - " ->
  Yaml.expect key
    (Yaml.put_optional "target_remote" Yaml.put_quoted t
       (Yaml.put_optional "times_to_loop" Yaml.put_number l ""))
  = None.
Proof. intros [-> | ->]; by destruct t, l. Qed.

Lemma after_target_remote l :
  Yaml.expect "target_remote"
    (Yaml.put_optional "times_to_loop" Yaml.put_number l "")
  = None.
Proof. by destruct l. Qed.

(** The codec of the model reads back every document as it was. *)
Lemma parse_stringify config :
  Yaml.parse (Yaml.stringify config) = Some config.
Proof.
  unfold Yaml.parse, Yaml.stringify.
  rewrite !get_member_put by (intros; apply read_quoted_put).
  rewrite get_optional_put;
    [|intros; apply read_quoted_put|intros; apply after_default_remote].
  rewrite get_optional_put;
    [|intros; apply read_bool_put|intros; apply after_auto_sync].
  rewrite get_remotes_put by (apply after_remotes; auto).
  rewrite get_optional_put;
    [|intros; apply read_quoted_put|intros; apply after_target_remote].
  rewrite get_optional_put; [|intros; apply read_number_put|done].
  by destruct config.
Qed.

(** ** Save, then load *)

(** C5: with the codec of the model, a save that goes through, followed
    by a load from the same base directory, gives a document equal to the
    one that was saved, whatever the document: the load returns it, each
    optional member is set in it exactly as it was set in the original, and
    in between the configuration file holds the text of the document. *)
Theorem save_then_load (P : Platform) config sourceRepo w :
  let saved := @saveConfig (Yaml.codec P) config sourceRepo w in
  let loaded := @loadConfig (Yaml.codec P) sourceRepo (world saved) in
  outcome saved = Ret tt ->
  files (world saved) !! @configPath (Yaml.codec P) sourceRepo
  = Some (File (Yaml.stringify config))
  /\ outcome loaded = Ret (Some config)
  /\ exists document,
       outcome loaded = Ret (Some document)
       /\ document = config
       /\ default_remote document = default_remote config
       /\ auto_sync document = auto_sync config
       /\ remotes document = remotes config
       /\ target_remote document = target_remote config
       /\ times_to_loop document = times_to_loop config.
Proof.
  cbn zeta. intros Hsaved.
  destruct (@saveConfig (Yaml.codec P) config sourceRepo w) as [o w' es] eqn:Hsave.
  cbn [outcome world] in *. subst o.
  destruct (@saved_document_loads (Yaml.codec P) config sourceRepo w w' es)
    as (document & Hloaded & -> & Hmembers); [apply parse_stringify|done|].
  apply (@saveConfig_returns (Yaml.codec P)) in Hsave as (-> & _ & _).
  split; [apply lookup_insert_eq|]. split; [done|]. by exists config.
Qed.


(** * Further properties *)

Section Registry.

Context `{Platform}.

(** Case analysis on a membership in a list that is written out. *)
Ltac in_list H :=
  repeat (apply elem_of_cons in H as [H|H]; [try discriminate H; try subst|]);
  try (by apply elem_of_nil in H).

Lemma remote_add_saves config n u b w :
  remote_add config n u b w
  = after [Console Stdout
             (if (0 <=? findIndex (named n) (default [] (remotes config)))%Z
              then MsgUpdatedRemote n else MsgAddedRemote n)]
      (saveConfig (set_remotes (upsert n u b (default [] (remotes config))) config)
         None w).
Proof.
  rewrite remote_add_run. unfold upsert. cbn zeta.
  by destruct (0 <=? findIndex (named n) (default [] (remotes config)))%Z.
Qed.

(** Adding the same remote again changes nothing. *)
Lemma upsert_idem n u b rs :
  upsert n u b (upsert n u b rs) = upsert n u b rs.
Proof.
  set (r := {| name := n; url := u; branch := b |}).
  assert (Hfound : forall rs' i,
             rs' !! i = Some r ->
             (forall j y, rs' !! j = Some y -> j < i -> named n y = false) ->
             upsert n u b rs' = rs').
  { intros rs' i Hi Hfirst. unfold upsert.
    rewrite (findIndex_first (named n) rs' i r Hi); [|by apply named_true|done].
    replace (0 <=? Z.of_nat i)%Z with true by (symmetry; apply Z.leb_le; lia).
    rewrite Nat2Z.id. by apply list_insert_id. }
  destruct (findIndex_spec (named n) rs)
    as [[Hidx Hall]|(i & old & Hidx & Hi & Hold & Hfirst)].
  - assert (Hrs : upsert n u b rs = rs ++ [r]) by (unfold upsert; by rewrite Hidx).
    rewrite Hrs. apply (Hfound _ (length rs)).
    + by rewrite lookup_app_r, Nat.sub_diag.
    + intros j y Hj Hlt. rewrite lookup_app_l in Hj by done.
      rewrite Forall_forall in Hall. apply Hall. by eapply list_elem_of_lookup_2.
  - assert (Hrs : upsert n u b rs = <[i := r]> rs).
    { unfold upsert. rewrite Hidx.
      replace (0 <=? Z.of_nat i)%Z with true by (symmetry; apply Z.leb_le; lia).
      by rewrite Nat2Z.id. }
    rewrite Hrs. apply (Hfound _ i).
    + apply list_lookup_insert_eq. by eapply lookup_lt_Some.
    + intros j y Hj Hlt. rewrite list_lookup_insert_ne in Hj by lia.
      by eapply Hfirst.
Qed.

Lemma stored_config_saved config sourceRepo w :
  stored_config sourceRepo (saved config sourceRepo w)
  = yaml_parse (yaml_stringify config).
Proof. unfold stored_config, saved. simpl. by rewrite lookup_insert_eq. Qed.

Lemma saved_saved config sourceRepo w :
  configPath sourceRepo <> baseDir sourceRepo ->
  files (saved config sourceRepo (saved config sourceRepo w))
  = files (saved config sourceRepo w).
Proof.
  intros Hne. unfold saved. simpl. apply map_eq. intros k.
  destruct (decide (k = configPath sourceRepo)) as [->|Hpath].
  - by rewrite !lookup_insert_eq.
  - rewrite !(lookup_insert_ne _ (configPath sourceRepo)) by done.
    destruct (decide (k = baseDir sourceRepo)) as [->|Hbase].
    + by rewrite !lookup_insert_eq.
    + rewrite !(lookup_insert_ne _ (baseDir sourceRepo)) by done.
      rewrite lookup_insert_ne by done. by rewrite lookup_insert_ne.
Qed.

Lemma set_remotes_id rs config :
  remotes config = Some rs -> set_remotes rs config = config.
Proof. destruct config. simpl. by intros ->. Qed.

Lemma saveConfig_on_saved config config' sourceRepo w :
  configPath sourceRepo <> baseDir sourceRepo ->
  saveConfig config sourceRepo (saved config' sourceRepo w)
  = Run (Ret tt) (saved config sourceRepo (saved config' sourceRepo w))
      [Fs (Mkdir (baseDir sourceRepo));
       Fs (WriteFile (configPath sourceRepo) (yaml_stringify config))].
Proof.
  intros Hne. rewrite saveConfig_run. cbn zeta. unfold saved at 1 3. simpl.
  rewrite (lookup_insert_ne _ (configPath sourceRepo)) by done.
  rewrite lookup_insert_eq.
  rewrite (lookup_insert_ne _ (baseDir sourceRepo)) by done.
  by rewrite lookup_insert_eq.
Qed.

Lemma remote_add_returns config n u b w :
  stored_config None w = Some config -> n <> "" -> u <> "" ->
  outcome (remote "add" [n; u; b] w) = Ret tt ->
  let config' := set_remotes (upsert n u b (default [] (remotes config))) config in
  world (remote "add" [n; u; b] w) = saved config' None w
  /\ fs_calls (events (remote "add" [n; u; b] w))
     = [ReadFile (configPath None); Mkdir (baseDir None);
        WriteFile (configPath None) (yaml_stringify config')]
  /\ configPath None <> baseDir None.
Proof.
  intros Hconfig Hn Hu. rewrite (remote_add_args config n u [b] w Hconfig Hn Hu).
  change (default "main" ([b] !! 0)) with b. rewrite remote_add_saves.
  set (config' := set_remotes _ config).
  destruct (saveConfig config' None w) as [o w' es] eqn:Hsave.
  cbn. intros ->. apply saveConfig_returns in Hsave as (-> & -> & Hne).
  done.
Qed.

(** X1: [remote add] is idempotent: after an add that went through, the
    same add again goes through, writes the same document and leaves the
    files as they were. *)
Theorem remote_add_twice w config n u b :
  stored_config None w = Some config -> n <> "" -> u <> "" ->
  let config' := set_remotes (upsert n u b (default [] (remotes config))) config in
  let r1 := remote "add" [n; u; b] w in
  outcome r1 = Ret tt ->
  yaml_parse (yaml_stringify config') = Some config' ->
  let r2 := remote "add" [n; u; b] (world r1) in
  outcome r2 = Ret tt
  /\ files (world r2) = files (world r1)
  /\ fs_calls (events r2) = fs_calls (events r1)
  /\ stored_config None (world r2) = Some config'.
Proof.
  intros Hconfig Hn Hu config' r1 Hout Hyaml r2. subst r1 r2.
  destruct (remote_add_returns config n u b w Hconfig Hn Hu Hout)
    as (Hworld & Hcalls & Hne).
  fold config' in Hworld, Hcalls. rewrite Hworld, Hcalls.
  assert (Hstored : stored_config None (saved config' None w) = Some config')
    by by rewrite stored_config_saved.
  rewrite (remote_add_args config' n u [b] _ Hstored Hn Hu).
  change (default "main" ([b] !! 0)) with b. rewrite remote_add_saves.
  change (default [] (remotes config'))
    with (upsert n u b (default [] (remotes config))).
  rewrite upsert_idem.
  change (set_remotes (upsert n u b (default [] (remotes config))) config')
    with config'.
  rewrite (saveConfig_on_saved config' config' None w Hne).
  unfold after; cbn [outcome world events].
  split; [done|]. split; [by apply saved_saved|]. split; [done|].
  by rewrite stored_config_saved.
Qed.

Lemma remote_remove_args config n rest w :
  stored_config None w = Some config -> n <> "" ->
  remote "remove" (n :: rest) w
  = after [Fs (ReadFile (configPath None))] (remote_remove config n w).
Proof.
  intros Hconfig Hn. unfold remote. rewrite bind_loadConfig, Hconfig. simpl.
  by rewrite (truthy_string_nonempty n).
Qed.

(** X2: [remote remove] of a name that is not registered reports it and
    changes nothing: the command returns, and the configuration file is
    read and not written. *)
Theorem remote_remove_unknown w config n rest :
  stored_config None w = Some config -> n <> "" ->
  n ∉ name <$> default [] (remotes config) ->
  remote "remove" (n :: rest) w
  = Run (Ret tt) w
      [Fs (ReadFile (configPath None)); Console Stdout (MsgRemoteNotFound n)].
Proof.
  intros Hconfig Hn Hfresh. rewrite (remote_remove_args config n rest w Hconfig Hn).
  unfold remote_remove. destruct (remotes config) as [rs|]; [|done].
  destruct (findIndex_spec (named n) rs)
    as [[-> _]|(i & old & _ & Hi & Hold & _)]; [done|].
  exfalso. apply Hfresh. apply list_elem_of_fmap. exists old.
  split; [symmetry; by apply named_true|]. by eapply list_elem_of_lookup_2.
Qed.

(** The run of [remote remove] on a registered name. *)
Lemma remote_remove_run w config rs n rest i old :
  stored_config None w = Some config -> remotes config = Some rs ->
  n <> "" ->
  rs !! i = Some old -> name old = n ->
  (forall j y, rs !! j = Some y -> j < i -> name y <> n) ->
  remote "remove" (n :: rest) w
  = after [Fs (ReadFile (configPath None)); Console Stdout (MsgRemovedRemote n)]
      (saveConfig (set_remotes (delete i rs) config) None w).
Proof.
  intros Hconfig Hremotes Hn Hi Hold Hfirst.
  rewrite (remote_remove_args config n rest w Hconfig Hn).
  unfold remote_remove. rewrite Hremotes.
  rewrite (findIndex_first (named n) rs i old Hi); [|by apply named_true|].
  2:{ intros j y Hj Hlt. apply named_false. by eapply Hfirst. }
  replace (0 <=? Z.of_nat i)%Z with true by (symmetry; apply Z.leb_le; lia).
  rewrite Nat2Z.id. unfold console_log. by rewrite bind_emit, after_after.
Qed.

(** X3: [remote remove] of a registered name takes out the first entry of
    that name and nothing else, keeps the order of the others, and saves
    the whole document: the document that was stored, with the remaining
    remotes for its [remotes] and every other member as it was; when names
    are unique the name is gone. *)
Theorem remote_remove_first w config rs n rest i old :
  stored_config None w = Some config -> remotes config = Some rs ->
  n <> "" ->
  rs !! i = Some old -> name old = n ->
  (forall j y, rs !! j = Some y -> j < i -> name y <> n) ->
  let rs' := delete i rs in
  let document :=
    {| source_repo := source_repo config;
       target_repo := target_repo config;
       transformation_instructions := transformation_instructions config;
       config_version := config_version config;
       default_remote := default_remote config;
       auto_sync := auto_sync config;
       remotes := Some rs';
       target_remote := target_remote config;
       times_to_loop := times_to_loop config |} in
  remote "remove" (n :: rest) w
  = after [Fs (ReadFile (configPath None)); Console Stdout (MsgRemovedRemote n)]
      (saveConfig document None w)
  /\ (outcome (remote "remove" (n :: rest) w) = Ret tt ->
      files (world (remote "remove" (n :: rest) w)) !! configPath None
      = Some (File (yaml_stringify document)))
  /\ rs' = take i rs ++ drop (S i) rs
  /\ S (length rs') = length rs
  /\ rs' `sublist_of` rs
  /\ (forall r, r ∈ rs -> name r <> n -> r ∈ rs')
  /\ (NoDup (name <$> rs) -> n ∉ name <$> rs').
Proof.
  intros Hconfig Hremotes Hn Hi Hold Hfirst rs' document.
  rewrite (remote_remove_run w config rs n rest i old) by done. fold rs'.
  change (set_remotes rs' config) with document.
  assert (Hsplit : rs = take i rs ++ old :: drop (S i) rs)
    by (symmetry; by apply take_drop_middle).
  assert (Hdelete : rs' = take i rs ++ drop (S i) rs) by apply delete_take_drop.
  split; [done|]. split.
  { unfold after. cbn [outcome world]. apply saveConfig_stored. }
  split; [done|]. split.
  { subst rs'. rewrite length_delete by done.
    apply lookup_lt_Some in Hi. lia. }
  split; [apply sublist_delete|]. split.
  - intros r Hr Hname. rewrite Hdelete. rewrite Hsplit in Hr.
    apply elem_of_app in Hr as [Hr|Hr]; [apply elem_of_app; by left|].
    apply elem_of_cons in Hr as [->|Hr]; [done|]. apply elem_of_app; by right.
  - intros Hnodup Hin. rewrite Hsplit in Hnodup. rewrite Hdelete in Hin.
    rewrite fmap_app in Hnodup, Hin. simpl in Hnodup.
    apply NoDup_app in Hnodup as (_ & Hdisjoint & Hrest).
    apply NoDup_cons in Hrest as [Hnotin _].
    apply elem_of_app in Hin as [Hin|Hin].
    + apply (Hdisjoint n Hin). rewrite Hold. apply list_elem_of_here.
    + apply Hnotin. by rewrite Hold.
Qed.

(** X4: adding a remote under a fresh name and removing it again writes
    the document back with the registry it had.  For a document with a
    [remotes] member that is the original document; for one without, the
    document written has an empty [remotes] where the original had none, so
    it is not the original.  This is for an add that went through and a
    codec that reads the document of the add back as it was written. *)
Theorem remote_add_then_remove w config n u b :
  stored_config None w = Some config ->
  n <> "" -> u <> "" ->
  let rs := default [] (remotes config) in
  let document rs' :=
    {| source_repo := source_repo config;
       target_repo := target_repo config;
       transformation_instructions := transformation_instructions config;
       config_version := config_version config;
       default_remote := default_remote config;
       auto_sync := auto_sync config;
       remotes := Some rs';
       target_remote := target_remote config;
       times_to_loop := times_to_loop config |} in
  let added := document (rs ++ [{| name := n; url := u; branch := b |}]) in
  let restored := document rs in
  n ∉ name <$> rs ->
  let r1 := remote "add" [n; u; b] w in
  outcome r1 = Ret tt ->
  yaml_parse (yaml_stringify added) = Some added ->
  let r2 := remote "remove" [n] (world r1) in
  outcome r2 = Ret tt
  /\ files (world r2) !! configPath None = Some (File (yaml_stringify restored))
  /\ fs_calls (events r2)
     = [ReadFile (configPath None); Mkdir (baseDir None);
        WriteFile (configPath None) (yaml_stringify restored)]
  /\ (is_Some (remotes config) -> restored = config)
  /\ (remotes config = None ->
      remotes restored = Some [] /\ restored <> config).
Proof.
  intros Hconfig Hn Hu rs document added restored Hfresh r1 Hout Hyaml r2.
  subst r1 r2.
  destruct (remote_add_returns config n u b w Hconfig Hn Hu Hout)
    as (Hworld & _ & Hne).
  assert (Hupsert : upsert n u b (default [] (remotes config))
                    = rs ++ [{| name := n; url := u; branch := b |}]).
  { fold rs. unfold upsert.
    destruct (findIndex_spec (named n) rs)
      as [[-> _]|(i & old & _ & Hi & Hold & _)]; [done|].
    exfalso. apply Hfresh. apply list_elem_of_fmap. exists old.
    split; [symmetry; by apply named_true|]. by eapply list_elem_of_lookup_2. }
  rewrite Hupsert in Hworld.
  change (set_remotes (rs ++ [{| name := n; url := u; branch := b |}]) config)
    with added in Hworld.
  rewrite Hworld.
  assert (Hstored : stored_config None (saved added None w) = Some added)
    by by rewrite stored_config_saved.
  rewrite (remote_remove_run (saved added None w) added
             (rs ++ [{| name := n; url := u; branch := b |}]) n []
             (length rs) {| name := n; url := u; branch := b |});
    [|done|done|done| |done|].
  2:{ by rewrite lookup_app_r, Nat.sub_diag. }
  2:{ intros j y Hj Hlt Hname. rewrite lookup_app_l in Hj by done.
      apply Hfresh. apply list_elem_of_fmap. exists y.
      split; [done|]. by eapply list_elem_of_lookup_2. }
  assert (Hback : delete (length rs) (rs ++ [{| name := n; url := u; branch := b |}])
                  = rs).
  { rewrite delete_take_drop, take_app_length.
    rewrite drop_ge by (rewrite length_app; simpl; lia). apply app_nil_r. }
  rewrite Hback.
  change (set_remotes rs added) with restored.
  rewrite (saveConfig_on_saved restored added None w Hne).
  unfold after; cbn [outcome world events]. split; [done|]. split.
  { unfold saved at 1. simpl. apply lookup_insert_eq. }
  split; [done|]. split.
  - intros [rs0 Hremotes]. subst restored document rs. rewrite Hremotes.
    cbn [default from_option id]. destruct config. simpl in *. by subst.
  - intros Hnone. subst restored document rs. rewrite Hnone.
    split; [done|]. intros Heq. apply (f_equal remotes) in Heq.
    rewrite Hnone in Heq. discriminate Heq.
Qed.

(** X5: without a configuration document [remote] refuses every action
    and [pull] every option, in check mode and in apply mode: the process
    ends with status 1, no child was started, and the one thing done to the
    file system was the attempt to read the document. *)
Theorem commands_without_config w :
  stored_config None w = None ->
  let refused :=
    Run (Exit 1) w
      [Fs (ReadFile (configPath None)); Console Stderr MsgConfigMissing] in
  (forall action args, remote action args w = refused)
  /\ (forall options, pull options w = refused).
Proof.
  intros Hconfig. cbn zeta. split; intros; unfold remote, pull;
    by rewrite bind_loadConfig, Hconfig.
Qed.

(** X6: [remote add] without a name or without a url, or with an empty
    one, is a usage error: the process ends with status 1 and nothing is
    written. *)
Theorem remote_add_usage w config args :
  stored_config None w = Some config ->
  truthy (args !! 0) = false \/ truthy (args !! 1) = false ->
  remote "add" args w
  = Run (Exit 1) w
      [Fs (ReadFile (configPath None)); Console Stderr MsgUsageAdd].
Proof.
  intros Hconfig Hargs. unfold remote. rewrite bind_loadConfig, Hconfig. simpl.
  destruct (args !! 0) as [n|], (args !! 1) as [u|]; simpl in *;
    try reflexivity.
  destruct Hargs as [->| ->]; [done|]. by rewrite orb_true_r.
Qed.

Lemma for_of_console_log {A} (xs : list A) (m : A -> Message) w :
  for_of xs (fun x => console_log (m x)) w
  = Run (Ret tt) w ((fun x => Console Stdout (m x)) <$> xs).
Proof.
  induction xs as [|x xs IH]; [done|].
  rewrite (for_of_cons x xs _ w w [Console Stdout (m x)] eq_refl), IH. done.
Qed.

Lemma remote_list_run config w :
  remote_list config w
  = Run (Ret tt) w
      match default [] (remotes config) with
      | [] => [Console Stdout MsgNoRemotesListed]
      | rs => Console Stdout MsgConfiguredRemotes
              :: ((fun r => Console Stdout (MsgRemoteLine r)) <$> rs)
      end.
Proof.
  unfold remote_list. destruct (remotes config) as [[|r rs]|]; try reflexivity.
  unfold console_log at 1. rewrite bind_emit.
  by rewrite (for_of_console_log (r :: rs) MsgRemoteLine).
Qed.

Lemma console_lines_quiet {A} (m : A -> Message) (xs : list A) :
  fs_calls ((fun x => Console Stdout (m x)) <$> xs) = []
  /\ spawned ((fun x => Console Stdout (m x)) <$> xs) = [].
Proof. induction xs as [|x xs [IH1 IH2]]; [done|]. by split. Qed.

(** X7: [remote list] prints the remotes one line each, in the order of
    the registry, under a heading, or says that there are none; it
    returns and changes nothing. *)
Theorem remote_list_prints_registry w config args :
  stored_config None w = Some config ->
  remote "list" args w
  = Run (Ret tt) w
      (Fs (ReadFile (configPath None))
       :: match default [] (remotes config) with
          | [] => [Console Stdout MsgNoRemotesListed]
          | rs => Console Stdout MsgConfiguredRemotes
                  :: ((fun r => Console Stdout (MsgRemoteLine r)) <$> rs)
          end).
Proof.
  intros Hconfig. unfold remote. rewrite bind_loadConfig, Hconfig. simpl.
  by rewrite remote_list_run.
Qed.

Lemma saveConfig_calls config sourceRepo w :
  fs_calls (events (saveConfig config sourceRepo w))
    `prefix_of` [Mkdir (baseDir sourceRepo);
                 WriteFile (configPath sourceRepo) (yaml_stringify config)].
Proof.
  rewrite saveConfig_run. cbn zeta.
  destruct (files w !! baseDir sourceRepo) as [[c|]|];
    [by apply prefix_cons, prefix_nil| |];
    destruct (<[baseDir sourceRepo:=Dir]> (files w) !! configPath sourceRepo)
      as [[c'|]|]; done.
Qed.

(** X8: whatever the action and the arguments, [remote] touches no file
    but the configuration document: it reads it, and what it writes, if
    anything, is a whole document to that path, and only for the actions
    ["add"] and ["remove"]. *)
Theorem remote_touches_only_config action args w :
  let r := remote action args w in
  (forall call, call ∈ fs_calls (events r) ->
     call = ReadFile (configPath None)
     \/ call = Mkdir (baseDir None)
     \/ exists config, call = WriteFile (configPath None) (yaml_stringify config))
  /\ (fs_calls (events r) <> [ReadFile (configPath None)] ->
      action = "add" \/ action = "remove")
  /\ spawned (events r) = [].
Proof.
  assert (Hsave : forall (es : list Event) config,
             fs_calls es = [] -> spawned es = [] ->
             let r := after (Fs (ReadFile (configPath None)) :: es)
                        (saveConfig config None w) in
             (forall call, call ∈ fs_calls (events r) ->
                call = ReadFile (configPath None)
                \/ call = Mkdir (baseDir None)
                \/ exists config,
                     call = WriteFile (configPath None) (yaml_stringify config))
             /\ spawned (events r) = []).
  { intros es config Hes Hspawned r. subst r. unfold after; cbn [events].
    pose proof (saveConfig_calls config None w) as Hprefix.
    assert (Hquiet : spawned (events (saveConfig config None w)) = []).
    { rewrite saveConfig_run. cbn zeta.
      destruct (files w !! baseDir None) as [[c|]|]; [done| |];
        destruct (<[baseDir None:=Dir]> (files w) !! configPath None)
          as [[c'|]|]; done. }
    unfold fs_calls, spawned in *.
    rewrite !omap_app, !(omap_cons_app _ (Fs _) es).
    rewrite Hes, Hspawned, Hquiet. simpl. split; [|done].
    intros call [->|Hcall]%elem_of_cons; [by left|].
    destruct Hprefix as [rest Hrest].
    assert (Hin : call ∈ [Mkdir (baseDir None);
                          WriteFile (configPath None) (yaml_stringify config)]).
    { rewrite Hrest. apply elem_of_app. by left. }
    in_list Hin; [by right; left|right; right; by exists config]. }
  cbn zeta. unfold remote. rewrite bind_loadConfig.
  destruct (stored_config None w) as [config|].
  2:{ cbn. split; [|done]. intros call Hcall. in_list Hcall. by left. }
  cbn iota beta.
  destruct (String.eqb action "add") eqn:Hadd.
  { apply String.eqb_eq in Hadd as ->.
    assert (Husage :
              let r : Result unit :=
                after [Fs (ReadFile (configPath None))]
                  ((console_error MsgUsageAdd;; process_exit 1) w) in
              (forall call, call ∈ fs_calls (events r) ->
                 call = ReadFile (configPath None)
                 \/ call = Mkdir (baseDir None)
                 \/ exists config,
                      call = WriteFile (configPath None) (yaml_stringify config))
              /\ (fs_calls (events r) <> [ReadFile (configPath None)] ->
                  "add" = "add" \/ "add" = "remove")
              /\ spawned (events r) = []).
    { cbn. split; [|done]. intros call Hcall. in_list Hcall. by left. }
    destruct (args !! 0) as [n|]; [|exact Husage].
    destruct (args !! 1) as [u|]; [|exact Husage].
    destruct (negb (truthy_string n) || negb (truthy_string u)); [exact Husage|].
    rewrite remote_add_saves, after_after. simpl app.
    destruct (Hsave [Console Stdout
                       (if (0 <=? findIndex (named n) (default [] (remotes config)))%Z
                        then MsgUpdatedRemote n else MsgAddedRemote n)]
                (set_remotes
                   (upsert n u (default "main" (args !! 2))
                      (default [] (remotes config))) config))
      as [Hcalls Hquiet]; [done..|].
    split; [exact Hcalls|]. split; [by left|exact Hquiet]. }
  destruct (String.eqb action "list") eqn:Hlist.
  { rewrite remote_list_run. unfold after; cbn [events].
    destruct (default [] (remotes config)) as [|r rs].
    - cbn. split; [|done]. intros call Hcall. in_list Hcall. by left.
    - destruct (console_lines_quiet MsgRemoteLine (r :: rs)) as [Hfs Hsp].
      unfold fs_calls, spawned in *.
      rewrite !omap_app, !(omap_cons_app _ (Console _ _) (_ <$> _)), Hfs, Hsp.
      cbn. split; [|done]. intros call Hcall. in_list Hcall. by left. }
  destruct (String.eqb action "remove") eqn:Hremove.
  { apply String.eqb_eq in Hremove as ->.
    assert (Hread :
              forall (o : Outcome unit) m,
                let r := Run o w [Fs (ReadFile (configPath None)); Console m.1 m.2] in
                (forall call, call ∈ fs_calls (events r) ->
                   call = ReadFile (configPath None)
                   \/ call = Mkdir (baseDir None)
                   \/ exists config,
                        call = WriteFile (configPath None) (yaml_stringify config))
                /\ (fs_calls (events r) <> [ReadFile (configPath None)] ->
                    "remove" = "add" \/ "remove" = "remove")
                /\ spawned (events r) = []).
    { intros o m. cbn. split; [|done]. intros call Hcall. in_list Hcall. by left. }
    destruct (args !! 0) as [n|];
      [|exact (Hread (Exit 1) (Stderr, MsgUsageRemove))].
    destruct (negb (truthy_string n));
      [exact (Hread (Exit 1) (Stderr, MsgUsageRemove))|].
    unfold remote_remove.
    destruct (remotes config) as [rs|];
      [|exact (Hread (Ret tt) (Stdout, MsgRemoteNotFound n))].
    destruct (0 <=? findIndex (named n) rs)%Z;
      [|exact (Hread (Ret tt) (Stdout, MsgRemoteNotFound n))].
    unfold console_log. rewrite bind_emit, after_after. simpl app.
    destruct (Hsave [Console Stdout (MsgRemovedRemote n)]
                (set_remotes (delete (Z.to_nat (findIndex (named n) rs)) rs) config))
      as [Hcalls Hquiet]; [done..|].
    split; [exact Hcalls|]. split; [by right|exact Hquiet]. }
  cbn. split; [|done]. intros call Hcall. in_list Hcall. by left.
Qed.

End Registry.

Section Coordinator.

Context `{Platform}.

Ltac in_list H :=
  repeat (apply elem_of_cons in H as [H|H]; [try discriminate H; try subst|]);
  try (by apply elem_of_nil in H).

(** The run of [push] when there is nothing to push to. *)
Lemma push_nowhere options w :
  registry w = [] ->
  push options w
  = Run (Exit 1) w
      [Fs (ReadFile (configPath None)); Console Stderr MsgNoRemotesConfigured].
Proof.
  unfold registry, push. rewrite bind_loadConfig.
  destruct (stored_config None w) as [config|]; [|done]. simpl.
  destruct (remotes config) as [[|r rs]|]; done.
Qed.

(** X9: with no configuration document, or one whose registry is missing
    or empty, [push] ends the process with status 1 before it starts any
    child, whatever the options: neither [--all] nor [--dry-run] makes a
    difference. *)
Theorem push_without_remotes options w :
  registry w = [] ->
  let r := push options w in
  outcome r = Exit 1 /\ world r = w
  /\ spawned (events r) = [] /\ announced (events r) = []
  /\ reports (events r) = []
  /\ fs_calls (events r) = [ReadFile (configPath None)]
  /\ Console Stderr MsgNoRemotesConfigured ∈ events r.
Proof.
  intros Hnone. cbn zeta. rewrite (push_nowhere options w Hnone).
  cbn [outcome world events]. repeat split. set_solver.
Qed.

(** X10: in single-remote mode [push] starts one child, [git push <url>
    HEAD:<branch>] in the target repository, with the url of the remote
    and the branch of the options or else of the remote.  A push that
    fails is fatal: the process ends with status 1 after the one push,
    where a push that goes through lets the command return with the remote
    reported as pushed. *)
Theorem push_single_failure_is_fatal w config rs options remote :
  stored_config None w = Some config ->
  remotes config = Some rs -> rs <> [] ->
  truthy_flag (opt_member all options) = false ->
  truthy_flag (opt_member dryRun options) = false ->
  List.find (named (remoteName options config)) rs = Some remote ->
  let b := or_else (opt_member branch_opt options) (branch remote) in
  let c :=
    {| file := "git"; args := ["push"; url remote; "HEAD:" +:+ b];
       cwd := target_repo config; stdio := None |} in
  let r := push options w in
  spawned (events r) = [c]
  /\ (forall error,
        child_result (children w) c = Rejected error ->
        outcome r = Exit 1
        /\ Console Stderr (MsgFailedPush (message error)) ∈ events r
        /\ reports (events r) = [])
  /\ (forall stdout,
        child_result (children w) c = Resolved stdout ->
        outcome r = Ret tt
        /\ reports (events r) = [Pushed (remoteName options config)]).
Proof.
  intros Hconfig Hremotes Hrs Hall Hdry Hfind b c r. subst r.
  rewrite (push_run options config rs w Hconfig Hremotes Hrs), Hall.
  rewrite (push_one_found options config rs w remote Hfind), Hdry.
  fold b. change (git_push (url remote) b (target_repo config)) with c.
  destruct (child_result (children w) c) as [out|error].
  - split; [done|]. split; [done|]. intros ? _. by split.
  - split; [done|]. split; [|done]. intros ? [= <-].
    split; [done|]. split; [|done].
    unfold after; cbn [events]. apply elem_of_app. right.
    do 2 apply list_elem_of_further. apply list_elem_of_here.
Qed.

(** X11: in check mode [pull] returns exactly when both [git fetch] and
    [git status -uno] go through, and then the last thing it prints is
    the output of the status; otherwise it ends the process with
    status 1, and a failed fetch is not followed by a status. *)
Theorem pull_check_outcome w config options :
  stored_config None w = Some config ->
  truthy_flag (opt_member check options) = true ->
  let fetch := git ["fetch"] (source_repo config) None in
  let status := git ["status"; "-uno"] (source_repo config) None in
  let r := pull options w in
  (outcome r = Ret tt
   <-> exists out stdout,
         child_result (children w) fetch = Resolved out
         /\ child_result (S (children w)) status = Resolved stdout)
  /\ (outcome r <> Ret tt -> outcome r = Exit 1)
  /\ (forall out stdout,
        child_result (children w) fetch = Resolved out ->
        child_result (S (children w)) status = Resolved stdout ->
        last (events r) = Some (Console Stdout (MsgText stdout)))
  /\ (forall error,
        child_result (children w) fetch = Rejected error ->
        spawned (events r) = [fetch]).
Proof.
  intros Hconfig Hcheck fetch status r. subst r.
  rewrite (pull_check_run options w Hcheck), Hconfig. cbn zeta.
  fold fetch. fold status.
  destruct (child_result (children w) fetch) as [out|error];
    [destruct (child_result (S (children w)) status) as [stdout|error]|];
    cbn [outcome events].
  - split; [split; [intros _; by exists out, stdout|done]|].
    split; [done|]. split; [|done]. by intros ? ? _ [= <-].
  - split; [split; [done|by intros (? & ? & _ & ?)]|]. by repeat split.
  - split; [split; [done|by intros (? & ? & ? & _)]|]. by repeat split.
Qed.

End Coordinator.

Section Executor.

Context `{Platform}.

Create HintDb caught.

#[local] Hint Resolve no_throw_ret no_throw_emit no_throw_exit no_throw_bind
  no_throw_try_catch no_throw_try_finally no_throw_when no_throw_execa
  no_throw_process_on no_throw_process_off : caught.

Lemma no_throw_for_of {A} (xs : list A) (body : A -> M unit) :
  (forall x, no_throw (body x)) -> no_throw (for_of xs body).
Proof.
  intros Hbody. induction xs as [|x xs IH]; simpl; auto with caught.
Qed.

(** Nothing escapes [push]: a failure is reported in the loop or ends the
    process. *)
Lemma push_no_throw options : no_throw (push options).
Proof.
  unfold push, loadConfig. apply no_throw_bind; [auto with caught|].
  intros [config|]; [|unfold console_error; auto with caught].
  destruct (remotes config) as [[|r rs]|];
    try (unfold console_error; auto with caught).
  destruct (truthy_flag (opt_member all options)).
  - unfold push_all, console_log. apply no_throw_bind; [auto with caught|].
    intros _. apply no_throw_for_of. intros x. unfold push_all_round, console_error.
    auto with caught.
  - unfold push_one. destruct (List.find _ _) as [remote|];
      [|unfold console_error; auto with caught].
    unfold console_log, console_error.
    destruct (negb _); auto 10 with caught.
Qed.

Lemma auto_push_no_throw : no_throw auto_push.
Proof.
  unfold auto_push, loadConfig. apply no_throw_bind; [auto with caught|].
  intros [config|]; [apply push_no_throw|auto with caught].
Qed.

Lemma deliver_exact sigs h h' w :
  (SIGINT, h) ∈ listeners w -> (SIGTERM, h') ∈ listeners w ->
  for_of sigs deliver w = Run (Ret tt) w (sigs ≫= answers (listeners w)).
Proof.
  intros Hint Hterm. induction sigs as [|sig sigs IH]; [done|].
  assert (Hin : exists l, (sig, l) ∈ listeners w)
    by (destruct sig; eauto).
  destruct Hin as [l Hin].
  rewrite (for_of_cons sig sigs deliver w w _ (deliver_run sig l w Hin)), IH.
  done.
Qed.

Lemma await_listening_exact mode w :
  await_listening {| pid := children w; command := script_command mode |}
    (listening mode w)
  = let heard :=
      signals_during (children w) ≫= answers (listeners (listening mode w)) in
    match child_result (children w) (script_command mode) with
    | Resolved stdout => Run (Ret stdout) (listening mode w) heard
    | Rejected error => Run (Throw error) (listening mode w) heard
    end.
Proof.
  unfold await_listening, bind, await. cbn [pid command].
  rewrite (deliver_exact _ (handler_of mode (children w))
             (handler_of mode (children w)) (listening mode w)).
  - destruct (child_result (children w) (script_command mode));
      unfold after; simpl; by rewrite app_nil_r.
  - apply list_elem_of_further, list_elem_of_here.
  - apply list_elem_of_here.
Qed.

Lemma try_finally_off {A} (m : M A) l w :
  try_finally m (process_off SIGINT l ;; process_off SIGTERM l) w
  = match m w with
    | Run (Exit c) w' es => Run (Exit c) w' es
    | Run o w' es =>
        Run o (unlistening l w') (es ++ [ProcessOff SIGINT l; ProcessOff SIGTERM l])
    end.
Proof.
  unfold try_finally. destruct (m w) as [[a|e|c] w' es]; [| |done];
    rewrite bind_bind, bind_process_off, bind_process_off; reflexivity.
Qed.

Lemma unlistening_listening mode w (w' : World) :
  listeners w' = listeners (listening mode w) ->
  listeners (unlistening (handler_of mode (children w)) w') = listeners w.
Proof. intros Hw'. unfold unlistening. simpl. rewrite Hw'. apply remove_handlers. Qed.

(** [sync] up to the end of its [try] block, when the child goes
    through. *)
Lemma sync_resolved options w stdout :
  is_Some (files w !! script SingleShot) ->
  child_result (children w) (script_command SingleShot) = Resolved stdout ->
  sync options w
  = after ([Fs (Access (script SingleShot)); Console Stdout MsgRunningSync;
            Spawn (children w) (script_command SingleShot);
            ProcessOn SIGINT (SyncHandler (children w));
            ProcessOn SIGTERM (SyncHandler (children w))]
           ++ (signals_during (children w)
                 ≫= answers (listeners (listening SingleShot w)))
           ++ [Console Stdout MsgSyncCompleted])
      (try_finally
         (when (truthy_flag (opt_member autoPush options)) auto_push)
         (process_off SIGINT (SyncHandler (children w)) ;;
          process_off SIGTERM (SyncHandler (children w)))
         (listening SingleShot w)).
Proof.
  intros Hscript Hchild.
  pose proof (await_listening_exact SingleShot w) as Hawait.
  rewrite Hchild in Hawait. cbn zeta in Hawait.
  unfold listening, script_command, script in Hawait. simpl in Hawait, Hscript.
  unfold sync. rewrite (bind_access_found _ _ _ _ Hscript).
  unfold console_log at 1. rewrite bind_emit, bind_execa.
  rewrite !bind_process_on. cbn [pid started children files listeners].
  fold auto_push_options.
  change (config <- loadConfig None;;
          match config with
          | Some _ => push (Some auto_push_options)
          | None => ret ()
          end) with auto_push.
  set (chain := when (truthy_flag (opt_member autoPush options)) auto_push).
  assert (Hchain : no_throw chain)
    by (apply no_throw_when, auto_push_no_throw).
  unfold try_finally at 1.
  rewrite try_catch_no_throw.
  - unfold bind at 1. rewrite Hawait. unfold console_log. rewrite bind_emit.
    unfold listening. cbn [handler_of].
    set (w1 := {| files := files w; children := S (children w); listeners := _ |}).
    unfold try_finally, after.
    destruct (chain w1) as [[a|e|c] w' es]; cbn;
      rewrite ?app_nil_r, <- ?app_assoc; reflexivity.
  - intros e. unfold bind at 1. rewrite Hawait. unfold console_log.
    rewrite bind_emit. cbn [after outcome]. apply Hchain.
Qed.

Lemma after_ret {A} es (a : A) w : after es (ret a w) = Run (Ret a) w es.
Proof. unfold after, ret. simpl. by rewrite app_nil_r. Qed.

Lemma syncForever_resolved options w stdout :
  is_Some (files w !! script Continuous) ->
  child_result (children w) (script_command Continuous) = Resolved stdout ->
  syncForever options w
  = Run (Ret tt) (started w)
      ([Fs (Access (script Continuous)); Console Stdout MsgRunningRalph;
        Console Stdout MsgPressCtrlC;
        Spawn (children w) (script_command Continuous);
        ProcessOn SIGINT (SyncForeverHandler (children w));
        ProcessOn SIGTERM (SyncForeverHandler (children w))]
       ++ (signals_during (children w)
             ≫= answers (listeners (listening Continuous w)))
       ++ [ProcessOff SIGINT (SyncForeverHandler (children w));
           ProcessOff SIGTERM (SyncForeverHandler (children w))]).
Proof.
  intros Hscript Hchild.
  pose proof (await_listening_exact Continuous w) as Hawait.
  rewrite Hchild in Hawait. cbn zeta in Hawait.
  unfold listening, script_command, script in Hawait. simpl in Hawait, Hscript.
  unfold syncForever. rewrite (bind_access_found _ _ _ _ Hscript).
  unfold console_log at 1 2. rewrite !bind_emit, bind_execa.
  rewrite !bind_process_on. cbn [pid started children files listeners].
  unfold try_finally, try_catch. unfold bind at 1. rewrite Hawait.
  cbn iota. unfold listening. cbn [handler_of listeners].
  rewrite after_ret. cbn iota.
  rewrite bind_bind, !bind_process_off. cbn [listeners files children].
  rewrite remove_handlers, after_ret, !after_after.
  unfold after, started. cbn [outcome world events].
  by rewrite <- ?app_assoc, ?app_nil_r.
Qed.

Lemma executor_rejected_exact mode options w error :
  is_Some (files w !! script mode) ->
  child_result (children w) (script_command mode) = Rejected error ->
  exists before reported,
    executor mode options w
    = Run (Exit (if signal_is error "SIGINT" then 0 else 1)) (started w)
        (before ++ [Spawn (children w) (script_command mode)]
         ++ [ProcessOn SIGINT (handler_of mode (children w));
             ProcessOn SIGTERM (handler_of mode (children w))]
         ++ (signals_during (children w)
               ≫= answers (listeners (listening mode w)))
         ++ [ProcessOff SIGINT (handler_of mode (children w));
             ProcessOff SIGTERM (handler_of mode (children w));
             Console reported.1 reported.2])
    /\ kills before = [].
Proof.
  intros Hscript Hchild.
  pose proof (await_listening_exact mode w) as Hawait.
  rewrite Hchild in Hawait. cbn zeta in Hawait.
  destruct mode; unfold listening, script_command, script in Hawait;
    simpl in Hscript, Hawait.
  - exists [Fs (Access (script SingleShot)); Console Stdout MsgRunningSync],
      (if signal_is error "SIGINT" then (Stdout, MsgSyncStopped)
       else (Stderr, MsgSyncFailed (message error))).
    split; [|done].
    unfold executor, sync.
    rewrite (bind_access_found _ _ _ _ Hscript).
    unfold console_log at 1. rewrite bind_emit, bind_execa.
    rewrite !bind_process_on. cbn [pid started children files listeners].
    unfold try_finally, try_catch. unfold bind at 1. rewrite Hawait.
    cbn iota. rewrite !bind_process_off. cbn [listeners files children].
    rewrite remove_handlers.
    destruct (signal_is error "SIGINT"); reflexivity.
  - exists [Fs (Access (script Continuous)); Console Stdout MsgRunningRalph;
            Console Stdout MsgPressCtrlC],
      (if signal_is error "SIGINT" then (Stdout, MsgContinuousStopped)
       else (Stderr, MsgContinuousFailed (message error))).
    split; [|done].
    unfold executor, syncForever.
    rewrite (bind_access_found _ _ _ _ Hscript).
    unfold console_log at 1 2. rewrite !bind_emit, bind_execa.
    rewrite !bind_process_on. cbn [pid started children files listeners].
    unfold try_finally, try_catch. unfold bind at 1. rewrite Hawait.
    cbn iota. rewrite !bind_process_off. cbn [listeners files children].
    rewrite remove_handlers.
    destruct (signal_is error "SIGINT"); reflexivity.
Qed.

(** X12: without its script the executor, single-shot or continuous,
    ends the process with status 1 at once: no child is started and no
    listener is registered, whatever the options. *)
Theorem executor_without_script mode options w :
  files w !! script mode = None ->
  let r := executor mode options w in
  outcome r = Exit 1
  /\ world r = w
  /\ spawned (events r) = []
  /\ fs_calls (events r) = [Access (script mode)]
  /\ (forall sig l, ProcessOn sig l ∉ events r).
Proof.
  intros Hscript r. subst r. rewrite (executor_script_missing _ _ _ Hscript).
  cbn. repeat split. intros sig l Hin.
  repeat (apply elem_of_cons in Hin as [Hin|Hin]; [discriminate|]).
  by apply elem_of_nil in Hin.
Qed.

Lemma spawned_answers ls sig : spawned (answers ls sig) = [].
Proof. unfold answers. apply spawned_handlers. Qed.

Lemma spawned_heard sigs ls : spawned (sigs ≫= answers ls) = [].
Proof.
  induction sigs as [|sig sigs IH]; [done|].
  cbn [mbind list_bind]. unfold spawned in *.
  rewrite omap_app, IH. fold (spawned (answers ls sig)).
  by rewrite spawned_answers.
Qed.

(** X13: when the child of a sync goes through and no push is asked for
    (always so for the continuous sync), the command returns with both
    handlers taken off again: the listeners are those it started with, the
    script is the only child, and no file is touched. *)
Theorem executor_completes mode options w stdout :
  is_Some (files w !! script mode) ->
  child_result (children w) (script_command mode) = Resolved stdout ->
  mode = Continuous \/ truthy_flag (opt_member autoPush options) = false ->
  let r := executor mode options w in
  outcome r = Ret tt
  /\ world r = started w
  /\ listeners (world r) = listeners w
  /\ spawned (events r) = [script_command mode]
  /\ fs_calls (events r) = [Access (script mode)].
Proof.
  intros Hscript Hchild Hplain r. subst r.
  assert (Hquiet : forall sigs ls, fs_calls (sigs ≫= answers ls) = []).
  { intros sigs ls. induction sigs as [|sig sigs IH]; [done|].
    cbn [mbind list_bind]. unfold fs_calls in *. rewrite omap_app, IH.
    unfold answers. generalize (filter (fun sl => sl.1 = sig) (reverse ls)).
    intros l. induction l as [|[s h] l IHl]; [done|].
    cbn [mbind list_bind]. rewrite !omap_app in *. rewrite app_nil_r in IHl.
    rewrite IHl. by destruct h. }
  destruct mode.
  - destruct Hplain as [|Hplain]; [done|].
    unfold executor. rewrite (sync_resolved options w stdout Hscript Hchild).
    rewrite Hplain, try_finally_off. cbn [when ret].
    unfold unlistening, listening, after.
    cbn [outcome world events listeners files children handler_of].
    rewrite remove_handlers.
    unfold spawned, fs_calls. rewrite !omap_app.
    fold (spawned (signals_during (children w)
                     ≫= answers ((SIGTERM, SyncHandler (children w))
                                 :: (SIGINT, SyncHandler (children w))
                                 :: listeners w))).
    fold (fs_calls (signals_during (children w)
                      ≫= answers ((SIGTERM, SyncHandler (children w))
                                  :: (SIGINT, SyncHandler (children w))
                                  :: listeners w))).
    rewrite spawned_heard, Hquiet. done.
  - unfold executor.
    rewrite (syncForever_resolved options w stdout Hscript Hchild).
    cbn [outcome world events listening listeners handler_of].
    unfold spawned, fs_calls. rewrite !omap_app.
    fold (spawned (signals_during (children w)
                     ≫= answers ((SIGTERM, SyncForeverHandler (children w))
                                 :: (SIGINT, SyncForeverHandler (children w))
                                 :: listeners w))).
    fold (fs_calls (signals_during (children w)
                      ≫= answers ((SIGTERM, SyncForeverHandler (children w))
                                  :: (SIGINT, SyncForeverHandler (children w))
                                  :: listeners w))).
    rewrite spawned_heard, Hquiet. done.
Qed.

Lemma started_n_listeners n w :
  listeners (started_n n w) = listeners w /\ files (started_n n w) = files w.
Proof. induction n as [|n [IH1 IH2]]; [done|]. by split. Qed.

Lemma push_all_loop_world targetRepo rs w :
  world (for_of rs (push_all_round targetRepo false) w)
  = started_n (length rs) w.
Proof.
  revert w. induction rs as [|remote rs IH]; intros w; [done|].
  rewrite (for_of_cons _ _ _ _ _ _ (push_all_round_live targetRepo remote w)).
  cbn [after world]. rewrite IH. unfold started_n. cbn [length].
  by rewrite Nat.iter_succ_r.
Qed.

Lemma stored_config_listening mode w :
  stored_config None (listening mode w) = stored_config None w.
Proof. reflexivity. Qed.

(** X14: a single-shot sync that is asked to push does so after its
    child went through: with remotes registered it runs [git push <url>
    HEAD:<branch>] in the target repository for every one of them, in the
    order of the registry, and returns with its handlers taken off; without
    a configuration document it returns without pushing; with
    a document that registers no remote it ends the process with status 1,
    although the sync itself went through. *)
Theorem sync_auto_push options w stdout :
  is_Some (files w !! script SingleShot) ->
  child_result (children w) (script_command SingleShot) = Resolved stdout ->
  truthy_flag (opt_member autoPush options) = true ->
  let r := sync options w in
  (stored_config None w = None ->
   outcome r = Ret tt
   /\ spawned (events r) = [script_command SingleShot]
   /\ listeners (world r) = listeners w)
  /\ (forall config,
        stored_config None w = Some config -> default [] (remotes config) = [] ->
        outcome r = Exit 1
        /\ spawned (events r) = [script_command SingleShot]
        /\ Console Stdout MsgSyncCompleted ∈ events r)
  /\ (forall config rs,
        stored_config None w = Some config -> remotes config = Some rs ->
        rs <> [] ->
        outcome r = Ret tt
        /\ spawned (events r)
           = script_command SingleShot
             :: ((fun remote =>
                    {| file := "git";
                       args := ["push"; url remote; "HEAD:" +:+ branch remote];
                       cwd := target_repo config;
                       stdio := None |})
                   <$> rs)
        /\ listeners (world r) = listeners w).
Proof.
  intros Hscript Hchild Hauto r. subst r.
  rewrite (sync_resolved options w stdout Hscript Hchild), Hauto.
  rewrite try_finally_off. cbn [when]. unfold auto_push.
  rewrite bind_loadConfig, stored_config_listening.
  set (heard := signals_during (children w)
                  ≫= answers (listeners (listening SingleShot w))).
  assert (Hheard : spawned heard = []) by apply spawned_heard.
  split; [|split].
  - intros ->. cbn iota beta. rewrite after_ret.
    unfold after; cbn [outcome world events].
    split; [done|]. split.
    + unfold spawned in *. rewrite !omap_app, Hheard. done.
    + by apply (unlistening_listening SingleShot).
  - intros config Hconfig Hempty. rewrite Hconfig. cbn iota beta.
    rewrite push_nowhere.
    2:{ unfold registry. rewrite stored_config_listening, Hconfig. exact Hempty. }
    unfold after; cbn [outcome world events].
    split; [done|]. split.
    + unfold spawned in *. rewrite !omap_app, Hheard. done.
    + rewrite !elem_of_app. left. right. right. apply list_elem_of_here.
  - intros config rs Hconfig Hremotes Hrs. rewrite Hconfig. cbn iota beta.
    rewrite (push_run (Some auto_push_options) config rs (listening SingleShot w)
               Hconfig Hremotes Hrs).
    cbn [opt_member auto_push_options all dryRun truthy_flag].
    unfold push_all, console_log. rewrite bind_emit.
    destruct (push_all_loop_live (target_repo config) rs (listening SingleShot w))
      as (Hout & Hspawned & _ & _).
    pose proof (push_all_loop_world (target_repo config) rs (listening SingleShot w))
      as Hworld.
    destruct (for_of rs (push_all_round (target_repo config) false)
                (listening SingleShot w)) as [o w' es].
    cbn [outcome world events] in *. subst o w'.
    unfold after; cbn [outcome world events].
    split; [done|]. split.
    + unfold spawned in *. rewrite !omap_app, Hheard, Hspawned. simpl.
      by rewrite ?app_nil_r.
    + apply (unlistening_listening SingleShot).
      apply started_n_listeners.
Qed.

Lemma kills_answers mode sig child :
  kills (answers [(SIGTERM, handler_of mode child);
                  (SIGINT, handler_of mode child)] sig)
  = [(child, "SIGINT")].
Proof. by destruct mode, sig. Qed.

(** X15: in a process with no other listeners, every signal that arrives
    while the sync child runs, SIGTERM as well as SIGINT, is answered by
    one SIGINT to that child, and no other signal is ever sent to it. *)
Theorem signals_are_passed_on_as_sigint mode options w :
  is_Some (files w !! script mode) ->
  listeners w = [] ->
  (mode = Continuous \/ truthy_flag (opt_member autoPush options) = false
   \/ exists error,
        child_result (children w) (script_command mode) = Rejected error) ->
  kills (events (executor mode options w))
  = (fun _ => (children w, "SIGINT")) <$> signals_during (children w).
Proof.
  intros Hscript Hfresh Hcase.
  assert (Hheard :
            kills (signals_during (children w)
                     ≫= answers (listeners (listening mode w)))
            = (fun _ => (children w, "SIGINT")) <$> signals_during (children w)).
  { unfold listening. cbn [listeners]. rewrite Hfresh.
    induction (signals_during (children w)) as [|sig sigs IH]; [done|].
    cbn [mbind list_bind fmap list_fmap]. unfold kills in *.
    rewrite omap_app, IH.
    fold (kills (answers [(SIGTERM, handler_of mode (children w));
                          (SIGINT, handler_of mode (children w))] sig)).
    by rewrite kills_answers. }
  destruct (child_result (children w) (script_command mode))
    as [stdout|error] eqn:Hchild.
  - destruct Hcase as [Hcase|[Hcase|[error Herror]]]; [| |done].
    + subst mode. unfold executor.
      rewrite (syncForever_resolved options w stdout Hscript Hchild).
      cbn [events]. unfold kills in *. rewrite !omap_app, Hheard. cbn.
      by rewrite ?app_nil_r.
    + destruct mode.
      * unfold executor. rewrite (sync_resolved options w stdout Hscript Hchild).
        rewrite Hcase, try_finally_off. cbn [when ret].
        unfold after; cbn [events]. unfold kills in *.
        rewrite !omap_app, Hheard. cbn. by rewrite ?app_nil_r.
      * unfold executor.
        rewrite (syncForever_resolved options w stdout Hscript Hchild).
        cbn [events]. unfold kills in *. rewrite !omap_app, Hheard. cbn.
        by rewrite app_nil_r.
  - destruct (executor_rejected_exact mode options w error Hscript Hchild)
      as (before & reported & -> & Hbefore).
    cbn [events]. unfold kills in *. rewrite !omap_app, Hbefore, Hheard. cbn.
    by rewrite ?app_nil_r.
Qed.

End Executor.

Section Preflight.

Context `{Platform} `{Host}.

Ltac in_list H :=
  repeat (apply elem_of_cons in H as [H|H]; [try discriminate H; try subst|]);
  try (by apply elem_of_nil in H).

Lemma bind_try_catch {A B} (body : M A) handler (k : A -> M B) w :
  bind (try_catch body handler) k w
  = match body w with
    | Run (Ret a) w' es => after es (k a w')
    | Run (Throw e) w' es => after es (bind (handler e) k w')
    | Run (Exit c) w' es => Run (Exit c) w' es
    end.
Proof.
  unfold bind, try_catch. destruct (body w) as [[a|e|c] w' es]; [done| |done].
  unfold after. destruct (handler e w') as [[a|e'|c] w2 es2]; [|done..].
  cbn [outcome world events]. by rewrite app_assoc.
Qed.

Lemma after_Run {A} es (o : Outcome A) w es' :
  after es (Run o w es') = Run o w (es ++ es').
Proof. reflexivity. Qed.

Lemma after_emit es e w : after es (emit e w) = Run (Ret tt) w (es ++ [e]).
Proof. reflexivity. Qed.

Lemma access_then path e w :
  bind (fs_access path) (fun _ => emit e) w
  = match files w !! path with
    | Some _ => Run (Ret tt) w [Fs (Access path); e]
    | None => Run (Throw (fs_error "ENOENT" path)) w [Fs (Access path)]
    end.
Proof.
  unfold fs_access, emit, bind, after. cbn [outcome world events].
  by destruct (files w !! path).
Qed.

(** [spinner.fail(text); process.exit(1)], wherever it stands. *)
Lemma fail_exit {A B} e (k : A -> M B) w :
  bind (bind (emit e) (fun _ => process_exit 1)) k w = Run (Exit 1) w [e].
Proof. reflexivity. Qed.

Lemma fail_exit_here {B} (k : unit -> M B) w :
  bind (process_exit 1) k w = Run (Exit 1) w [].
Proof. reflexivity. Qed.

(** The checks in one table: how the run ends and which children it
    started, by the first check that fails. *)
Lemma preflight_table targetRepo w :
  let r := performPreflightChecks targetRepo w in
  let rev_parse := git ["rev-parse"; "--git-dir"] targetRepo None in
  let remote_v := git ["remote"; "-v"] targetRepo None in
  (fs_calls (events r) = [Access targetRepo] /\ files (world r) = files w
   /\ listeners (world r) = listeners w)
  /\ match files w !! targetRepo with
     | None => outcome r = Exit 1 /\ spawned (events r) = []
     | Some _ =>
         match child_result (children w) rev_parse with
         | Rejected _ => outcome r = Exit 1 /\ spawned (events r) = [rev_parse]
         | Resolved _ =>
             match child_result (S (children w)) remote_v with
             | Rejected _ =>
                 outcome r = Exit 1
                 /\ spawned (events r) = [rev_parse; remote_v]
             | Resolved listing =>
                 if negb (truthy_string (js_trim listing))
                 then outcome r = Exit 1
                      /\ spawned (events r) = [rev_parse; remote_v]
                 else if skip_claude_test
                 then outcome r = Ret tt
                      /\ spawned (events r) = [rev_parse; remote_v]
                 else
                   spawned (events r) = [rev_parse; remote_v; claude_test]
                   /\ match child_result (S (S (children w))) claude_test with
                      | Rejected _ => outcome r = Exit 1
                      | Resolved reply =>
                          outcome r
                          = if negb (truthy_string reply)
                               || Nat.ltb (js_length (js_trim reply)) 10
                            then Exit 1 else Ret tt
                      end
             end
         end
     end.
Proof.
  cbn zeta.
  remember (performPreflightChecks targetRepo w) as r eqn:Hr.
  unfold performPreflightChecks in Hr.
  unfold log, ora_start, ora_succeed, ora_fail, console_log in Hr.
  rewrite !bind_emit, !after_after, bind_try_catch, access_then in Hr.
  destruct (files w !! targetRepo) as [node|]; cbv beta iota in Hr.
  2:{ rewrite fail_exit, !after_Run in Hr. by subst r. }
  rewrite !bind_emit, !after_after, bind_try_catch, bind_run in Hr.
  destruct (child_result (children w) _) as [out2|e2]; cbv beta iota in Hr.
  2:{ rewrite fail_exit, !after_Run in Hr. by subst r. }
  rewrite after_emit in Hr. cbv beta iota in Hr.
  rewrite !bind_emit, !after_after, bind_try_catch, bind_run in Hr.
  change (children (started w)) with (S (children w)) in *.
  destruct (child_result (S (children w)) _) as [out3|e3]; cbv beta iota in Hr.
  2:{ rewrite fail_exit, !after_Run in Hr. by subst r. }
  destruct (negb (truthy_string (js_trim out3))); cbn [when] in Hr.
  { rewrite fail_exit, !after_Run in Hr. by subst r. }
  rewrite bind_ret, after_emit in Hr. cbv beta iota in Hr.
  destruct skip_claude_test; cbn [negb when] in Hr.
  { rewrite bind_ret in Hr. unfold emit in Hr. rewrite !after_Run in Hr.
    by subst r. }
  rewrite bind_bind, bind_emit, bind_bind, bind_emit, !after_after in Hr.
  rewrite bind_try_catch, bind_run in Hr.
  change (children (started (started w))) with (S (S (children w))) in *.
  destruct (child_result (S (S (children w))) claude_test) as [out4|e4];
    cbv beta iota in Hr.
  2:{ rewrite bind_bind, bind_emit, bind_bind, bind_emit, fail_exit_here,
        !after_Run in Hr.
      by subst r. }
  destruct (negb (truthy_string out4) || Nat.ltb (js_length (js_trim out4)) 10);
    cbn [when] in Hr.
  { rewrite fail_exit, !after_Run in Hr. by subst r. }
  rewrite bind_ret, after_emit in Hr. cbv beta iota in Hr.
  unfold emit in Hr. rewrite !after_Run in Hr. by subst r.
Qed.

Lemma skip_claude_test_true :
  skip_claude_test = true <-> process_env "SKIP_CLAUDE_TEST" = Some "true".
Proof.
  unfold skip_claude_test. destruct (process_env "SKIP_CLAUDE_TEST") as [v|].
  - rewrite String.eqb_eq. split; congruence.
  - split; discriminate.
Qed.

Lemma truthy_string_true s : truthy_string s = true <-> s <> "".
Proof. destruct s; split; try done. Qed.

(** X16: the preflight checks stop at the first one that fails, with
    status 1: a target directory that is not there is not asked about
    git; a directory that is not a repository is not asked for its
    remotes; a repository without remotes never gets to the Claude Code
    test. *)
Theorem preflight_fails_fast targetRepo w :
  let r := performPreflightChecks targetRepo w in
  let rev_parse := git ["rev-parse"; "--git-dir"] targetRepo None in
  let remote_v := git ["remote"; "-v"] targetRepo None in
  (files w !! targetRepo = None ->
   outcome r = Exit 1 /\ spawned (events r) = [])
  /\ (forall error,
        is_Some (files w !! targetRepo) ->
        child_result (children w) rev_parse = Rejected error ->
        outcome r = Exit 1 /\ spawned (events r) = [rev_parse])
  /\ (forall out listing,
        is_Some (files w !! targetRepo) ->
        child_result (children w) rev_parse = Resolved out ->
        child_result (S (children w)) remote_v = Resolved listing ->
        js_trim listing = "" ->
        outcome r = Exit 1 /\ spawned (events r) = [rev_parse; remote_v]).
Proof.
  cbn zeta. destruct (preflight_table targetRepo w) as [_ Htable].
  cbn zeta in Htable. split; [|split].
  - intros Hmissing. by rewrite Hmissing in Htable.
  - intros error [node Hnode] Hchild. by rewrite Hnode, Hchild in Htable.
  - intros out listing [node Hnode] Hout Hlisting Hblank.
    by rewrite Hnode, Hout, Hlisting, Hblank in Htable.
Qed.

(** X17: the preflight checks return exactly when the target is there,
    [git rev-parse] goes through, [git remote -v] goes through with
    something to show, and the Claude Code test is skipped or answers
    with at least 10 characters; in every other case the process ends
    with status 1. *)
Theorem preflight_passes_iff targetRepo w :
  let r := performPreflightChecks targetRepo w in
  let rev_parse := git ["rev-parse"; "--git-dir"] targetRepo None in
  let remote_v := git ["remote"; "-v"] targetRepo None in
  (outcome r = Ret tt
   <-> is_Some (files w !! targetRepo)
       /\ (exists out, child_result (children w) rev_parse = Resolved out)
       /\ (exists listing,
             child_result (S (children w)) remote_v = Resolved listing
             /\ js_trim listing <> "")
       /\ (process_env "SKIP_CLAUDE_TEST" = Some "true"
           \/ exists reply,
                child_result (S (S (children w))) claude_test = Resolved reply
                /\ reply <> "" /\ 10 <= js_length (js_trim reply)))
  /\ (outcome r <> Ret tt -> outcome r = Exit 1).
Proof.
  cbn zeta. destruct (preflight_table targetRepo w) as [_ Htable].
  cbn zeta in Htable.
  destruct (files w !! targetRepo) as [node|].
  2:{ destruct Htable as [-> _]. split; [|done].
      split; [done|]. by intros [[? ?] _]. }
  destruct (child_result (children w) _) as [out|error].
  2:{ destruct Htable as [-> _]. split; [|done].
      split; [done|]. by intros (_ & [? ?] & _). }
  destruct (child_result (S (children w)) _) as [listing|error].
  2:{ destruct Htable as [-> _]. split; [|done].
      split; [done|]. by intros (_ & _ & (? & ? & _) & _). }
  destruct (truthy_string (js_trim listing)) eqn:Hlisting; cbn [negb] in Htable.
  2:{ destruct Htable as [-> _]. split; [|done].
      split; [done|]. intros (_ & _ & (? & [= <-] & Hshown) & _).
      apply truthy_string_true in Hshown. congruence. }
  apply truthy_string_true in Hlisting.
  destruct skip_claude_test eqn:Hskip.
  { destruct Htable as [-> _]. split; [|done]. split; [|done]. intros _.
    split; [done|]. split; [by exists out|]. split; [by exists listing|].
    left. by apply skip_claude_test_true. }
  assert (Hnot : process_env "SKIP_CLAUDE_TEST" <> Some "true").
  { intros Htrue%skip_claude_test_true. congruence. }
  destruct Htable as [_ Htable].
  destruct (child_result (S (S (children w))) claude_test) as [reply|error].
  2:{ rewrite Htable. split; [|done]. split; [done|].
      by intros (_ & _ & _ & [?|(? & ? & _)]). }
  rewrite Htable.
  destruct (truthy_string reply) eqn:Hreply; cbn [negb orb].
  2:{ split; [|done]. split; [done|].
      intros (_ & _ & _ & [?|(? & [= <-] & Hfull & _)]); [done|].
      apply truthy_string_true in Hfull. congruence. }
  apply truthy_string_true in Hreply.
  destruct (Nat.ltb_spec (js_length (js_trim reply)) 10) as [Hshort|Hlong].
  - split; [|done]. split; [done|].
    intros (_ & _ & _ & [?|(? & [= <-] & _ & Hlen)]); [done|lia].
  - split; [|done]. split; [|done]. intros _.
    split; [done|]. split; [by exists out|]. split; [by exists listing|].
    right. by exists reply.
Qed.

(** X18: the Claude Code test is run exactly when the three checks before
    it pass and SKIP_CLAUDE_TEST is not the string ["true"]; any other
    value of the variable, or none, does not skip it. *)
Theorem preflight_claude_tested_iff targetRepo w :
  let r := performPreflightChecks targetRepo w in
  let rev_parse := git ["rev-parse"; "--git-dir"] targetRepo None in
  let remote_v := git ["remote"; "-v"] targetRepo None in
  claude_test ∈ spawned (events r)
  <-> is_Some (files w !! targetRepo)
      /\ (exists out, child_result (children w) rev_parse = Resolved out)
      /\ (exists listing,
            child_result (S (children w)) remote_v = Resolved listing
            /\ js_trim listing <> "")
      /\ process_env "SKIP_CLAUDE_TEST" <> Some "true".
Proof.
  cbn zeta. destruct (preflight_table targetRepo w) as [_ Htable].
  cbn zeta in Htable.
  assert (Hgit : forall cs : list Command,
             (forall c, c ∈ cs -> file c = "git") -> claude_test ∉ cs).
  { intros cs Hcs Hin. by apply Hcs in Hin. }
  destruct (files w !! targetRepo) as [node|].
  2:{ destruct Htable as [_ ->]. split; [by intros ?%elem_of_nil|].
      by intros [[? ?] _]. }
  destruct (child_result (children w) _) as [out|error].
  2:{ destruct Htable as [_ ->]. split.
      - intros Hin. in_list Hin.
      - by intros (_ & [? ?] & _). }
  destruct (child_result (S (children w)) _) as [listing|error].
  2:{ destruct Htable as [_ ->]. split.
      - intros Hin. in_list Hin.
      - by intros (_ & _ & (? & ? & _) & _). }
  destruct (truthy_string (js_trim listing)) eqn:Hlisting; cbn [negb] in Htable.
  2:{ destruct Htable as [_ ->]. split.
      - intros Hin. in_list Hin.
      - intros (_ & _ & (? & [= <-] & Hshown) & _).
        apply truthy_string_true in Hshown. congruence. }
  apply truthy_string_true in Hlisting.
  destruct skip_claude_test eqn:Hskip.
  { destruct Htable as [_ ->]. split.
    - intros Hin. in_list Hin.
    - intros (_ & _ & _ & Hnot). by apply skip_claude_test_true in Hskip. }
  destruct Htable as [-> _]. split.
  - intros _. split; [done|]. split; [by exists out|].
    split; [by exists listing|].
    intros Htrue%skip_claude_test_true. congruence.
  - intros _. do 2 apply list_elem_of_further. apply list_elem_of_here.
Qed.

(** X19: the preflight checks only look: the one file system call is the
    access to the target directory, no file and no listener changes, and
    the children are [git rev-parse], [git remote -v] and the Claude Code
    test, in this order, as far as the checks get. *)
Theorem preflight_only_looks targetRepo w :
  let r := performPreflightChecks targetRepo w in
  fs_calls (events r) = [Access targetRepo]
  /\ files (world r) = files w
  /\ listeners (world r) = listeners w
  /\ spawned (events r)
       `prefix_of` [git ["rev-parse"; "--git-dir"] targetRepo None;
                    git ["remote"; "-v"] targetRepo None; claude_test].
Proof.
  cbn zeta. destruct (preflight_table targetRepo w) as [(Hfs & Hfiles & Hls) Htable].
  cbn zeta in Htable. split; [done|]. split; [done|]. split; [done|].
  destruct (files w !! targetRepo) as [node|];
    [|destruct Htable as [_ ->]; apply prefix_nil].
  destruct (child_result (children w) _) as [out|error];
    [|destruct Htable as [_ ->]; apply prefix_cons, prefix_nil].
  destruct (child_result (S (children w)) _) as [listing|error];
    [|destruct Htable as [_ ->]; apply prefix_cons, prefix_cons, prefix_nil].
  destruct (negb (truthy_string (js_trim listing)));
    [destruct Htable as [_ ->]; apply prefix_cons, prefix_cons, prefix_nil|].
  destruct skip_claude_test;
    [destruct Htable as [_ ->]; apply prefix_cons, prefix_cons, prefix_nil|].
  destruct Htable as [-> _]. done.
Qed.

End Preflight.

Section Init.

Context `{Platform} `{Host}.

Lemma bind_exit {A B} (m : M A) (k : A -> M B) w c :
  outcome (m w) = Exit c ->
  bind m k w = Run (Exit c) (world (m w)) (events (m w)).
Proof. unfold bind. destruct (m w) as [[a|e|c'] w' es]; simpl; congruence. Qed.

Lemma fs_calls_app es es' : fs_calls (es ++ es') = fs_calls es ++ fs_calls es'.
Proof. apply omap_app. Qed.

Lemma spawned_app es es' : spawned (es ++ es') = spawned es ++ spawned es'.
Proof. apply omap_app. Qed.

Lemma bind_ask {B} asked name message default (k : option string -> M B) w :
  bind (ask asked name message default) k w
  = after (if asked then [Console Stdout (MsgText message)] else [])
      (k (if asked then Some (inquirer_answer name default) else None) w).
Proof.
  unfold ask. destruct asked.
  - unfold log, console_log. by rewrite bind_bind, bind_emit, bind_ret.
  - by rewrite bind_ret, after_nil.
Qed.

Lemma bind_when_log {B} (b : bool) text (k : unit -> M B) w :
  bind (when b (log text)) k w
  = after (if b then [Console Stdout (MsgText text)] else []) (k tt w).
Proof.
  destruct b; cbn [when].
  - unfold log, console_log. by rewrite bind_emit.
  - by rewrite bind_ret, after_nil.
Qed.

(** [init] up to the point where the document is saved: so far it has
    read the document that may be there, talked to the user, and started
    nothing. *)
Lemma init_run options w :
  exists es,
    init options w
    = after es
        (bind (saveConfig (init_config options w)
                 (Some (source_repo (init_config options w))))
           (fun _ => init_setup (init_config options w)) w)
    /\ fs_calls es
       = [ReadFile (configPath (Some (or_else (opt_member sourceRepo options) "./")))]
    /\ spawned es = [].
Proof.
  unfold init. cbn zeta. unfold log at 1. unfold console_log at 1.
  rewrite bind_emit, bind_loadConfig, bind_when_log, !bind_ask, !after_after.
  eexists. split; [reflexivity|].
  rewrite !fs_calls_app, !spawned_app.
  destruct (bool_decide _);
    destruct (negb (truthy (opt_member sourceRepo options)));
    destruct (negb (truthy (opt_member targetRepo options)));
    destruct (negb (truthy (opt_member transformationInstructions options)));
    done.
Qed.

(** The run of [init_setup] when the target directory is not there. *)
Lemma init_setup_no_target config w :
  files w !! target_repo config = None ->
  let r := init_setup config w in
  outcome r = Exit 1 /\ files (world r) = files w
  /\ fs_calls (events r) = [Access (target_repo config)]
  /\ spawned (events r) = [].
Proof.
  intros Hmissing. cbn zeta.
  remember (init_setup config w) as r eqn:Hr.
  unfold init_setup in Hr. unfold log at 1 in Hr. unfold console_log at 1 in Hr.
  rewrite bind_emit in Hr.
  pose proof (preflight_table (target_repo config) w) as Htable.
  cbn zeta in Htable. rewrite Hmissing in Htable.
  destruct Htable as ((Hcalls & Hfiles & _) & Hexit & Hspawned).
  rewrite (bind_exit _ _ _ _ Hexit), after_Run in Hr. subst r.
  cbn [outcome world events].
  by rewrite fs_calls_app, spawned_app, Hcalls, Hspawned.
Qed.

(** X20: whatever was configured before, [init] reads the document of the
    source repository it was given (or of the working directory), and the
    next thing it does to the file system is to save a new document at
    the source repository it arrived at: version 0.1.0, and no remotes, no
    default remote, no auto-sync settings, whatever the old document had.
    A source repository given as an option is the one it arrives at. *)
Theorem init_writes_fresh_document options w :
  let r := init options w in
  let config := init_config options w in
  (exists rest,
     fs_calls (events r)
     = ReadFile (configPath (Some (or_else (opt_member sourceRepo options) "./")))
       :: Mkdir (baseDir (Some (source_repo config))) :: rest
     /\ ((rest = [] /\ exists e, outcome r = Throw e)
         \/ exists more,
              rest = WriteFile (configPath (Some (source_repo config)))
                       (yaml_stringify config) :: more))
  /\ config_version config = "0.1.0"
  /\ remotes config = None /\ default_remote config = None
  /\ auto_sync config = None /\ target_remote config = None
  /\ times_to_loop config = None
  /\ (forall given, opt_member sourceRepo options = Some given ->
        given <> "" -> source_repo config = given).
Proof.
  cbn zeta. split; [|repeat split].
  - destruct (init_run options w) as (es & -> & Hfs & _).
    set (config := init_config options w).
    unfold after. cbn [outcome events]. rewrite fs_calls_app, Hfs.
    unfold bind. rewrite saveConfig_run. cbn zeta.
    destruct (files w !! baseDir (Some (source_repo config))) as [[c|]|];
      [exists []; split; [done|left; split; [done|by eexists]]| |];
      (destruct (<[baseDir (Some (source_repo config)):=Dir]> (files w)
                 !! configPath (Some (source_repo config))) as [[c'|]|];
       cbn [outcome events after]; eexists; (split; [reflexivity|]);
       right; eexists; reflexivity).
  - intros given Hgiven Hne. unfold init_config. cbn [source_repo].
    rewrite Hgiven. by destruct given.
Qed.

(** X21: [init] saves the configuration before it checks anything: when
    the target directory is not there, it ends the process with status 1
    and the new document is on the disk all the same, while no child was
    started and nothing of [.repomirror] was written. *)
Theorem init_saves_before_preflight options w :
  let r := init options w in
  let config := init_config options w in
  let source := Some (source_repo config) in
  outcome (saveConfig config source w) = Ret tt ->
  files (saved config source w) !! target_repo config = None ->
  outcome r = Exit 1
  /\ files (world r) = files (saved config source w)
  /\ stored_config source (world r) = yaml_parse (yaml_stringify config)
  /\ fs_calls (events r)
     = [ReadFile (configPath (Some (or_else (opt_member sourceRepo options) "./")));
        Mkdir (baseDir source);
        WriteFile (configPath source) (yaml_stringify config);
        Access (target_repo config)]
  /\ spawned (events r) = [].
Proof.
  cbn zeta. intros Hsave Hmissing.
  destruct (init_run options w) as (es & -> & Hfs & Hsp).
  set (config := init_config options w) in *.
  destruct (saveConfig config (Some (source_repo config)) w) as [o w' es'] eqn:Hrun.
  cbn [outcome] in Hsave. subst o.
  apply saveConfig_returns in Hrun as Hreturns. destruct Hreturns as (-> & -> & _).
  unfold bind. rewrite Hrun. clear Hrun.
  destruct (init_setup_no_target config _ Hmissing) as (Hout & Hfiles & Hcalls & Hspawned).
  unfold after. cbn [outcome world events].
  rewrite !fs_calls_app, !spawned_app, Hfs, Hsp, Hcalls, Hspawned, Hfiles.
  repeat split; try done.
  unfold stored_config. rewrite Hfiles. apply stored_config_saved.
Qed.

Lemma bind_mkdir {B} path (k : unit -> M B) w :
  bind (fs_mkdir path) k w
  = match files w !! path with
    | Some (File _) => Run (Throw (fs_error "EEXIST" path)) w [Fs (Mkdir path)]
    | _ => after [Fs (Mkdir path)]
             (k tt (set_files (<[path := Dir]> (files w)) w))
    end.
Proof.
  unfold fs_mkdir. rewrite bind_bind, bind_emit. unfold bind.
  destruct (files w !! path) as [[c|]|]; [done| |];
    unfold after; cbn [outcome world events]; by destruct (k tt _).
Qed.

Lemma bind_writeFile {B} path content (k : unit -> M B) w :
  bind (fs_writeFile path content) k w
  = match files w !! path with
    | Some Dir =>
        Run (Throw (fs_error "EISDIR" path)) w [Fs (WriteFile path content)]
    | _ => after [Fs (WriteFile path content)]
             (k tt (set_files (<[path := File content]> (files w)) w))
    end.
Proof.
  unfold fs_writeFile. rewrite bind_bind, bind_emit. unfold bind.
  destruct (files w !! path) as [[c|]|]; [|done|];
    unfold after; cbn [outcome world events]; by destruct (k tt _).
Qed.

Lemma writeFile_run path content w :
  fs_writeFile path content w
  = match files w !! path with
    | Some Dir =>
        Run (Throw (fs_error "EISDIR" path)) w [Fs (WriteFile path content)]
    | _ => Run (Ret tt) (set_files (<[path := File content]> (files w)) w)
             [Fs (WriteFile path content)]
    end.
Proof.
  unfold fs_writeFile. rewrite bind_emit.
  by destruct (files w !! path) as [[c|]|].
Qed.

(** [chmod] on the file that was just written. *)
Lemma bind_chmod_written {B} path mode content (k : unit -> M B) m w :
  bind (fs_chmod path mode) k (set_files (<[path := File content]> m) w)
  = after [Fs (Chmod path mode)]
      (k tt (set_files (<[path := File content]> m) w)).
Proof.
  unfold fs_chmod. rewrite bind_bind, bind_emit. f_equal.
  unfold bind. cbn [files set_files]. rewrite lookup_insert_eq.
  by rewrite after_nil.
Qed.

Lemma bind_writeFile_prompt {B} path data (k : unit -> M B) w :
  bind (fs_writeFile_prompt path data) k w
  = match prompt_drained data with
    | Written text => bind (fs_writeFile path text) k w
    | Broken written error =>
        match files w !! path with
        | Some Dir =>
            Run (Throw (fs_error "EISDIR" path)) w [Fs (WriteFile path written)]
        | _ =>
            Run (Throw error) (set_files (<[path := File written]> (files w)) w)
                [Fs (WriteFile path written)]
        end
    end.
Proof.
  unfold fs_writeFile_prompt. destruct (prompt_drained data); [done|].
  rewrite bind_bind, bind_emit. unfold bind.
  by destruct (files w !! path) as [[|]|].
Qed.

(** One step of [createRepoMirrorFiles], in the equation [Hr] of its
    run: the step throws, or goes on. *)
Ltac scaffold_step Hr lemma :=
  rewrite lemma in Hr; cbn [files set_files] in Hr;
  match type of Hr with
  | context [match ?m !! ?k with _ => _ end] =>
      destruct (m !! k) as [[?|]|]
  end; rewrite ?bind_chmod_written, ?after_after, ?after_Run in Hr.

(** [createRepoMirrorFiles] when it returns: the prompt was written out in
    full; the seven calls it made and the files it left. *)
Lemma createRepoMirrorFiles_returns source target prompt w :
  let r := createRepoMirrorFiles source target prompt w in
  let d := repomirrorDir source in
  outcome r = Ret tt ->
  exists text,
    prompt_drained prompt = Written text
    /\ files (world r)
       = <[join [d; ".gitignore"]
           := File ("*.log" +:+ newline +:+ "tmp/" +:+ newline)]>
           (<[join [d; "ralph.sh"] := File (ralphScript source target)]>
              (<[join [d; "sync.sh"] := File (syncScript source target)]>
                 (<[join [d; "prompt.md"] := File text]>
                    (<[d := Dir]> (files w)))))
    /\ fs_calls (events r)
       = [Mkdir d;
          WriteFile (join [d; "prompt.md"]) text;
          WriteFile (join [d; "sync.sh"]) (syncScript source target);
          Chmod (join [d; "sync.sh"]) rwxr_xr_x;
          WriteFile (join [d; "ralph.sh"]) (ralphScript source target);
          Chmod (join [d; "ralph.sh"]) rwxr_xr_x;
          WriteFile (join [d; ".gitignore"])
            ("*.log" +:+ newline +:+ "tmp/" +:+ newline)]
    /\ spawned (events r) = []
    /\ children (world r) = children w
    /\ listeners (world r) = listeners w.
Proof.
  cbn zeta. remember (createRepoMirrorFiles source target prompt w) as r eqn:Hr.
  intros Hret. unfold createRepoMirrorFiles in Hr.
  scaffold_step Hr @bind_mkdir; [by subst r|..];
    (rewrite bind_writeFile_prompt in Hr;
     destruct (prompt_drained prompt) as [text|written error];
     [|cbn [files set_files] in Hr;
       match type of Hr with
       | context [match ?m !! ?k with _ => _ end] =>
           destruct (m !! k) as [[?|]|]
       end; rewrite ?after_Run in Hr; by subst r];
     exists text;
     (scaffold_step Hr @bind_writeFile; [|by subst r|];
      (scaffold_step Hr @bind_writeFile; [|by subst r|];
       (scaffold_step Hr @bind_writeFile; [|by subst r|];
        (scaffold_step Hr writeFile_run; [|by subst r|];
         by subst r))))).
Qed.

(** X22: the scripts [createRepoMirrorFiles] writes are the ones [sync]
    and [syncForever] run. When the source repository resolves to the
    working directory and the run returns, both scripts are files where
    the executors look for them, and each holds what was written for it
    when the file names of the directory are kept apart by [join]. *)
Theorem createRepoMirrorFiles_feeds_executors source target prompt w :
  let r := createRepoMirrorFiles source target prompt w in
  resolve process_cwd source = process_cwd ->
  (forall f, join [join [process_cwd; ".repomirror"]; f]
             = join [process_cwd; ".repomirror"; f]) ->
  outcome r = Ret tt ->
  (forall mode, exists content,
      files (world r) !! script mode = Some (File content))
  /\ (script SingleShot <> script Continuous ->
      (forall mode, script mode <> join [process_cwd; ".repomirror"; ".gitignore"]) ->
      files (world r) !! script SingleShot = Some (File (syncScript source target))
      /\ files (world r) !! script Continuous
         = Some (File (ralphScript source target))).
Proof.
  cbn zeta. intros Hresolve Hjoin Hret.
  destruct (createRepoMirrorFiles_returns source target prompt w Hret)
    as (text & _ & Hfiles & _).
  rewrite Hfiles. unfold repomirrorDir. rewrite Hresolve, !Hjoin.
  fold (script SingleShot) (script Continuous).
  set (gitignore := join [process_cwd; ".repomirror"; ".gitignore"]).
  split.
  - intros mode.
    destruct (decide (script mode = gitignore)) as [->|Hg];
      [rewrite lookup_insert_eq; by eexists|rewrite lookup_insert_ne by done].
    destruct (decide (script mode = script Continuous)) as [->|Hr];
      [rewrite lookup_insert_eq; by eexists|rewrite lookup_insert_ne by done].
    destruct mode; [|done]. rewrite lookup_insert_eq. by eexists.
  - intros Hapart Hgitignore. split.
    + rewrite lookup_insert_ne by (intros Heq; by apply (Hgitignore SingleShot)).
      rewrite lookup_insert_ne by done. apply lookup_insert_eq.
    + rewrite lookup_insert_ne by (intros Heq; by apply (Hgitignore Continuous)).
      apply lookup_insert_eq.
Qed.

Lemma createRepoMirrorFiles_no_exit source target prompt w c :
  outcome (createRepoMirrorFiles source target prompt w) <> Exit c.
Proof.
  remember (createRepoMirrorFiles source target prompt w) as r eqn:Hr.
  unfold createRepoMirrorFiles in Hr.
  scaffold_step Hr @bind_mkdir; [by subst r|..];
    (rewrite bind_writeFile_prompt in Hr;
     destruct (prompt_drained prompt) as [text|written error];
     [|cbn [files set_files] in Hr;
       match type of Hr with
       | context [match ?m !! ?k with _ => _ end] =>
           destruct (m !! k) as [[?|]|]
       end; rewrite ?after_Run in Hr; by subst r];
     (scaffold_step Hr @bind_writeFile; [|by subst r|];
      (scaffold_step Hr @bind_writeFile; [|by subst r|];
       (scaffold_step Hr @bind_writeFile; [|by subst r|];
        (scaffold_step Hr writeFile_run; by subst r))))).
Qed.

(** [createRepoMirrorFiles] when the writing of the prompt is broken off:
    the directory is made, [prompt.md] holds what was written by then, and
    the error of the session is thrown. *)
Lemma createRepoMirrorFiles_broken source target prompt w written error :
  let d := repomirrorDir source in
  prompt_drained prompt = Broken written error ->
  (forall content, files w !! d <> Some (File content)) ->
  <[d := Dir]> (files w) !! join [d; "prompt.md"] <> Some Dir ->
  createRepoMirrorFiles source target prompt w
  = Run (Throw error)
      (set_files (<[join [d; "prompt.md"] := File written]>
                    (<[d := Dir]> (files w))) w)
      [Fs (Mkdir d); Fs (WriteFile (join [d; "prompt.md"]) written)].
Proof.
  cbn zeta. intros Hdrained Hdir Hprompt. unfold createRepoMirrorFiles.
  rewrite bind_mkdir.
  destruct (files w !! repomirrorDir source) as [[content|]|] eqn:Hd;
    [by destruct (Hdir content)|..];
    rewrite bind_writeFile_prompt, Hdrained; cbn [files set_files];
    (destruct (<[repomirrorDir source:=Dir]> (files w)
               !! join [repomirrorDir source; "prompt.md"]) as [[content|]|];
     [|done|]; by rewrite after_Run).
Qed.

(** The prompt that [init] hands to [createRepoMirrorFiles]. *)
Lemma generateTransformationPrompt_run source target instructions w :
  generateTransformationPrompt source target instructions w
  = Run (Ret (if skip_claude_test
              then PromptText (template_prompt source target instructions)
              else PromptQuery (metaPrompt source target instructions))) w [].
Proof.
  unfold generateTransformationPrompt. by destruct skip_claude_test.
Qed.

Lemma bind_unfold {A B} (m : M A) (k : A -> M B) w :
  bind m k w
  = match m w with
    | Run (Ret a) w' es => after es (k a w')
    | Run (Throw e) w' es => Run (Throw e) w' es
    | Run (Exit c) w' es => Run (Exit c) w' es
    end.
Proof. reflexivity. Qed.

Lemma try_catch_unfold {A} (body : M A) handler w :
  try_catch body handler w
  = match body w with
    | Run (Throw e) w' es => after es (handler e w')
    | r => r
    end.
Proof. reflexivity. Qed.

(** [init_setup] once the preflight checks have passed: what is left is
    to write the files, and an error there ends the process. *)
Lemma init_setup_checked config w w2 es2 :
  performPreflightChecks (target_repo config) w = Run (Ret tt) w2 es2 ->
  let r := init_setup config w in
  let prompt :=
    if skip_claude_test
    then PromptText (template_prompt (source_repo config) (target_repo config)
                       (transformation_instructions config))
    else PromptQuery (metaPrompt (source_repo config) (target_repo config)
                        (transformation_instructions config)) in
  let made :=
    createRepoMirrorFiles (source_repo config) (target_repo config) prompt w2 in
  outcome r = match outcome made with Ret _ => Ret tt | _ => Exit 1 end
  /\ world r = world made
  /\ fs_calls (events r) = fs_calls es2 ++ fs_calls (events made)
  /\ spawned (events r) = spawned es2 ++ spawned (events made)
  /\ Console Stdout (MsgText "✔ Generated transformation prompt") ∈ events r
  /\ (forall error,
        outcome made = Throw error ->
        Console Stderr (MsgText ("Error: " +:+ message error)) ∈ events r).
Proof.
  intros Hchecked. cbn zeta.
  remember (init_setup config w) as r eqn:Hr.
  unfold init_setup in Hr.
  unfold log, log_error, console_log, console_error in Hr.
  rewrite bind_emit, bind_unfold, Hchecked, bind_emit, !after_after in Hr.
  rewrite try_catch_unfold, bind_unfold in Hr.
  rewrite generateTransformationPrompt_run in Hr.
  cbv beta iota in Hr. rewrite after_nil, bind_emit, bind_unfold in Hr.
  match type of Hr with
  | context [createRepoMirrorFiles ?s ?t ?p ?w] =>
      pose proof (createRepoMirrorFiles_no_exit s t p w) as Hno_exit;
      destruct (createRepoMirrorFiles s t p w) as [[[]|e|c] w3 es3]
  end;
    [|
     |by destruct (Hno_exit c)];
    cbv beta iota in Hr; cbn [outcome world events];
    rewrite ?bind_emit, ?after_emit, ?after_after, ?after_Run in Hr;
    cbv beta iota in Hr;
    rewrite ?bind_emit in Hr; unfold process_exit in Hr;
    rewrite ?after_after, ?after_Run in Hr;
    subst r; cbn [outcome world events];
    rewrite !fs_calls_app, !spawned_app;
    (split; [done|]); (split; [done|]);
    (split; [cbn; by rewrite ?app_nil_r|]);
    (split; [cbn; by rewrite ?app_nil_r|]);
    (split; [rewrite !elem_of_app, !elem_of_cons; tauto|]);
    intros error Hthrown; [discriminate Hthrown|].
  injection Hthrown as ->.
  rewrite !elem_of_app, !elem_of_cons. tauto.
Qed.

(** [init] once the document is saved and the checks have passed. *)
Lemma init_checked options w :
  let r := init options w in
  let config := init_config options w in
  let source := Some (source_repo config) in
  let checked :=
    performPreflightChecks (target_repo config) (saved config source w) in
  outcome (saveConfig config source w) = Ret tt ->
  outcome checked = Ret tt ->
  exists es,
    r = after es (init_setup config (saved config source w))
    /\ fs_calls es
       = [ReadFile (configPath (Some (or_else (opt_member sourceRepo options) "./")));
          Mkdir (baseDir source);
          WriteFile (configPath source) (yaml_stringify config)]
    /\ spawned es = [].
Proof.
  cbn zeta. intros Hsave Hchecked.
  destruct (init_run options w) as (es & -> & Hfs & Hsp).
  set (config := init_config options w) in *.
  destruct (saveConfig config (Some (source_repo config)) w) as [o w' es'] eqn:Hrun.
  cbn [outcome] in Hsave. subst o.
  apply saveConfig_returns in Hrun as Hreturns. destruct Hreturns as (-> & -> & _).
  unfold bind. rewrite Hrun, after_after. eexists. split; [reflexivity|].
  by rewrite fs_calls_app, spawned_app, Hfs, Hsp.
Qed.

(** X23: once the document is saved and the preflight checks have
    passed, [init] either returns or ends the process with status 1, and
    nothing is thrown to the caller. It returns exactly when the prompt is
    generated and every file of [.repomirror] is written; a failure to
    write the files ends the process as a failure of the prompt does. *)
Theorem init_completes_iff options w :
  let r := init options w in
  let config := init_config options w in
  let source := Some (source_repo config) in
  let checked :=
    performPreflightChecks (target_repo config) (saved config source w) in
  outcome (saveConfig config source w) = Ret tt ->
  outcome checked = Ret tt ->
  (outcome r = Ret tt \/ outcome r = Exit 1)
  /\ (outcome r = Ret tt
      <-> exists prompt,
            outcome (generateTransformationPrompt (source_repo config)
                       (target_repo config) (transformation_instructions config)
                       (world checked)) = Ret prompt
            /\ outcome (createRepoMirrorFiles (source_repo config)
                          (target_repo config) prompt (world checked)) = Ret tt).
Proof.
  cbn zeta. intros Hsave Hchecked.
  destruct (init_checked options w Hsave Hchecked) as (es & -> & _).
  set (config := init_config options w) in *.
  destruct (performPreflightChecks (target_repo config)
              (saved config (Some (source_repo config)) w))
    as [o w2 es2] eqn:Hpre.
  cbn [outcome world] in *. subst o.
  pose proof (init_setup_checked config _ w2 es2 Hpre) as Hsetup.
  cbn zeta in Hsetup. destruct Hsetup as (Hout & _).
  unfold after. cbn [outcome]. rewrite Hout.
  rewrite generateTransformationPrompt_run. cbn [outcome].
  match goal with
  | |- context [Ret ?p = Ret _] => set (given := p) in *
  end.
  destruct (outcome (createRepoMirrorFiles _ _ given w2)) as [[]|e|c] eqn:Hmade.
  - split; [by left|]. split; [|done]. intros _. by exists given.
  - split; [by right|]. split; [done|].
    intros (prompt & Hprompt & Hmade'). injection Hprompt as <-. congruence.
  - split; [by right|]. split; [done|].
    intros (prompt & Hprompt & Hmade'). injection Hprompt as <-. congruence.
Qed.

(** X24: with [SKIP_CLAUDE_TEST] set to [true], an [init] that gets
    through writes the template prompt with the user's instructions into
    [prompt.md] and asks nothing of the SDK: it returns, it made these
    eleven calls to the file system in this order, the two [chmod] to
    [0o755] among them, and the children it started are those of the
    preflight checks. *)
Theorem init_scaffolds_from_template options w :
  let r := init options w in
  let config := init_config options w in
  let source := Some (source_repo config) in
  let checked :=
    performPreflightChecks (target_repo config) (saved config source w) in
  let prompt :=
    template_prompt (source_repo config) (target_repo config)
      (transformation_instructions config) in
  let d := repomirrorDir (source_repo config) in
  process_env "SKIP_CLAUDE_TEST" = Some "true" ->
  outcome (saveConfig config source w) = Ret tt ->
  outcome checked = Ret tt ->
  outcome (createRepoMirrorFiles (source_repo config) (target_repo config)
             (PromptText prompt) (world checked)) = Ret tt ->
  outcome r = Ret tt
  /\ fs_calls (events r)
     = [ReadFile (configPath (Some (or_else (opt_member sourceRepo options) "./")));
        Mkdir (baseDir source);
        WriteFile (configPath source) (yaml_stringify config);
        Access (target_repo config);
        Mkdir d;
        WriteFile (join [d; "prompt.md"]) prompt;
        WriteFile (join [d; "sync.sh"])
          (syncScript (source_repo config) (target_repo config));
        Chmod (join [d; "sync.sh"]) 493;
        WriteFile (join [d; "ralph.sh"])
          (ralphScript (source_repo config) (target_repo config));
        Chmod (join [d; "ralph.sh"]) 493;
        WriteFile (join [d; ".gitignore"])
          ("*.log" +:+ newline +:+ "tmp/" +:+ newline)]
  /\ spawned (events r)
     = [git ["rev-parse"; "--git-dir"] (target_repo config) None;
        git ["remote"; "-v"] (target_repo config) None].
Proof.
  cbn zeta. intros Hskip Hsave Hchecked Hmade.
  apply skip_claude_test_true in Hskip.
  destruct (init_checked options w Hsave Hchecked) as (es & -> & Hfs & Hsp).
  set (config := init_config options w) in *.
  pose proof (preflight_table (target_repo config)
                (saved config (Some (source_repo config)) w)) as Htable.
  cbn zeta in Htable. destruct Htable as ((Hcalls & _) & Htable).
  assert (Hspawned :
            spawned (events (performPreflightChecks (target_repo config)
                               (saved config (Some (source_repo config)) w)))
            = [git ["rev-parse"; "--git-dir"] (target_repo config) None;
               git ["remote"; "-v"] (target_repo config) None]).
  { destruct (files _ !! target_repo config); [|destruct Htable; congruence].
    destruct (child_result (children _) _); [|destruct Htable; congruence].
    destruct (child_result (S (children _)) _); [|destruct Htable; congruence].
    destruct (negb _); [destruct Htable; congruence|].
    rewrite Hskip in Htable. by destruct Htable. }
  destruct (performPreflightChecks (target_repo config)
              (saved config (Some (source_repo config)) w))
    as [o w2 es2] eqn:Hpre.
  cbn [outcome world events] in *. subst o.
  pose proof (init_setup_checked config _ w2 es2 Hpre) as Hsetup.
  cbn zeta in Hsetup. rewrite Hskip, Hmade in Hsetup.
  destruct Hsetup as (Hout & _ & Hfs' & Hsp' & _).
  destruct (createRepoMirrorFiles_returns _ _ _ _ Hmade)
    as (text & [= <-] & _ & Hfiles & Hnone & _).
  unfold after. cbn [outcome events].
  by rewrite fs_calls_app, spawned_app, Hfs, Hsp, Hfs', Hsp', Hcalls, Hspawned,
    Hfiles, Hnone.
Qed.

(** X25: when [SKIP_CLAUDE_TEST] is not [true], the prompt is the [Query]
    of the SDK, and a session that fails does not fail [init] at the
    query: [init] reports the prompt as generated, makes [.repomirror],
    and the failure comes up in the write of [prompt.md].  Then the error
    is printed on the error stream and the process ends with status 1,
    with [.repomirror] and [prompt.md] left behind, [prompt.md] holding
    what the session had written, and no script written. *)
Theorem init_query_breaks_in_write options w written error :
  let r := init options w in
  let config := init_config options w in
  let source := Some (source_repo config) in
  let checked :=
    performPreflightChecks (target_repo config) (saved config source w) in
  let d := repomirrorDir (source_repo config) in
  let asked :=
    metaPrompt (source_repo config) (target_repo config)
      (transformation_instructions config) in
  process_env "SKIP_CLAUDE_TEST" <> Some "true" ->
  outcome (saveConfig config source w) = Ret tt ->
  outcome checked = Ret tt ->
  query asked = Broken written error ->
  (forall content, files (saved config source w) !! d <> Some (File content)) ->
  <[d := Dir]> (files (saved config source w)) !! join [d; "prompt.md"]
  <> Some Dir ->
  outcome (generateTransformationPrompt (source_repo config) (target_repo config)
             (transformation_instructions config) (world checked))
  = Ret (PromptQuery asked)
  /\ outcome r = Exit 1
  /\ fs_calls (events r)
     = [ReadFile (configPath (Some (or_else (opt_member sourceRepo options) "./")));
        Mkdir (baseDir source);
        WriteFile (configPath source) (yaml_stringify config);
        Access (target_repo config);
        Mkdir d;
        WriteFile (join [d; "prompt.md"]) written]
  /\ files (world r)
     = <[join [d; "prompt.md"] := File written]>
         (<[d := Dir]> (files (saved config source w)))
  /\ Console Stdout (MsgText "✔ Generated transformation prompt") ∈ events r
  /\ Console Stderr (MsgText ("Error: " +:+ message error)) ∈ events r.
Proof.
  cbn zeta. intros Hskip Hsave Hchecked Hquery Hdir Hprompt.
  assert (Hskip' : skip_claude_test = false).
  { destruct skip_claude_test eqn:Heq; [|done].
    by apply skip_claude_test_true in Heq. }
  destruct (init_checked options w Hsave Hchecked) as (es & -> & Hfs & Hsp).
  set (config := init_config options w) in *.
  pose proof (preflight_table (target_repo config)
                (saved config (Some (source_repo config)) w)) as Htable.
  cbn zeta in Htable. destruct Htable as ((Hcalls & Hfiles & _) & _).
  destruct (performPreflightChecks (target_repo config)
              (saved config (Some (source_repo config)) w))
    as [o w2 es2] eqn:Hpre.
  cbn [outcome world events] in *. subst o.
  pose proof (init_setup_checked config _ w2 es2 Hpre) as Hsetup.
  cbn zeta in Hsetup. rewrite Hskip' in Hsetup.
  rewrite generateTransformationPrompt_run, Hskip'. cbn [outcome].
  rewrite <- Hfiles in Hdir, Hprompt.
  rewrite (createRepoMirrorFiles_broken (source_repo config) (target_repo config)
             (PromptQuery _) w2 written error Hquery Hdir Hprompt) in Hsetup.
  cbn [outcome world events] in Hsetup.
  destruct Hsetup as (Hout & Hworld & Hfs' & _ & Hgenerated & Herror).
  unfold after. cbn [outcome world events].
  rewrite fs_calls_app, Hfs, Hfs', Hcalls, Hworld, Hout, !elem_of_app.
  cbn [files set_files]. rewrite Hfiles.
  repeat split; try done; [by right|]. right. by apply Herror.
Qed.

End Init.


(** ** The properties on the demo platform *)

Lemma save_then_load_witness :
  let saved := @saveConfig Desk.calm Desk.config None Desk.empty in
  outcome saved = Ret tt
  /\ Yaml.stringify Desk.config = Desk.config_text
  /\ files (world saved) !! @configPath Desk.calm None
     = Some (File (Yaml.stringify Desk.config))
  /\ outcome (@loadConfig Desk.calm None (world saved)) = Ret (Some Desk.config).
Proof.
  assert (Hsaved :
            outcome (@saveConfig Desk.calm Desk.config None Desk.empty) = Ret tt)
    by (vm_compute; reflexivity).
  destruct (@save_then_load Demo.calm Desk.config None Desk.empty Hsaved)
    as (Hfile & Hloaded & _).
  split; [exact Hsaved|]. split; [vm_compute; reflexivity|].
  split; [exact Hfile|exact Hloaded].
Defined.

Lemma remote_add_upsert_witness :
  let r :=
    @remote Desk.calm "add" ["staging"; "https://x/new.git"; "release"]
      Desk.world in
  let document :=
    {| source_repo := "./source"; target_repo := "./target";
       transformation_instructions := "convert to typescript";
       config_version := "0.1.0";
       default_remote := Some "staging"; auto_sync := Some true;
       remotes :=
         Some [Demo.origin;
               {| name := "staging"; url := "https://x/new.git";
                  branch := "release" |}];
       target_remote := None; times_to_loop := Some 2.5%float |} in
  @stored_config Desk.calm None Desk.world = Some Desk.config
  /\ outcome r = Ret tt
  /\ files (world r) !! @configPath Desk.calm None
     = Some (File (Yaml.stringify document))
  /\ @stored_config Desk.calm None (world r) = Some document.
Proof.
  cbn zeta.
  assert (Hconfig : @stored_config Desk.calm None Desk.world = Some Desk.config)
    by (vm_compute; reflexivity).
  assert (Hout :
            outcome (@remote Desk.calm "add"
                       ["staging"; "https://x/new.git"; "release"] Desk.world)
            = Ret tt) by (vm_compute; reflexivity).
  split; [exact Hconfig|]. split; [exact Hout|].
  destruct (@remote_add_upsert Desk.calm Desk.world Desk.config
              "staging" "https://x/new.git" "release" Hconfig)
    as (rs' & msg & _ & Hfile & Hin & _ & _); [discriminate..|].
  change (default [] (remotes Desk.config)) with [Demo.origin; Demo.staging]
    in Hin.
  destruct Hin as (i & old & Hi & Hold & _ & -> & _).
  { apply list_elem_of_further, list_elem_of_here. }
  destruct i as [|[|i]]; [| |discriminate Hi].
  { injection Hi as <-. discriminate Hold. }
  split; [exact (Hfile Hout)|].
  unfold stored_config. rewrite (Hfile Hout). apply parse_stringify.
Defined.

Lemma remote_add_default_branch_witness :
  let r := @remote Desk.calm "add" ["staging"; "https://x/new.git"] Desk.world in
  let document :=
    {| source_repo := "./source"; target_repo := "./target";
       transformation_instructions := "convert to typescript";
       config_version := "0.1.0";
       default_remote := Some "staging"; auto_sync := Some true;
       remotes :=
         Some [Demo.origin;
               {| name := "staging"; url := "https://x/new.git";
                  branch := "main" |}];
       target_remote := None; times_to_loop := Some 2.5%float |} in
  @stored_config Desk.calm None Desk.world = Some Desk.config
  /\ Demo.staging
     = {| name := "staging"; url := "https://x/repo2.git"; branch := "dev" |}
  /\ outcome r = Ret tt
  /\ files (world r) !! @configPath Desk.calm None
     = Some (File (Yaml.stringify document))
  /\ @stored_config Desk.calm None (world r) = Some document.
Proof.
  cbn zeta.
  assert (Hconfig : @stored_config Desk.calm None Desk.world = Some Desk.config)
    by (vm_compute; reflexivity).
  assert (Hout :
            outcome (@remote Desk.calm "add" ["staging"; "https://x/new.git"]
                       Desk.world)
            = Ret tt) by (vm_compute; reflexivity).
  split; [exact Hconfig|]. split; [reflexivity|]. split; [exact Hout|].
  destruct (@remote_add_default_branch Desk.calm Desk.world Desk.config
              "staging" "https://x/new.git" 1 Demo.staging Hconfig)
    as (_ & Hfile & _); [discriminate|discriminate|reflexivity|reflexivity|..].
  { intros [|j] y Hj Hlt; [|lia]. injection Hj as <-. discriminate. }
  split; [exact (Hfile Hout)|].
  unfold stored_config. rewrite (Hfile Hout). apply parse_stringify.
Defined.

Lemma push_all_attempts_every_remote_witness :
  let r := @push Demo.unreachable (Some Demo.push_everywhere) Demo.world in
  outcome r = Ret tt
  /\ exit_status (outcome r) = 0%Z
  /\ spawned (events r)
     = [{| file := "git";
           args := ["push"; "https://x/repo.git"; "HEAD:main"];
           cwd := "./target"; stdio := None |};
        {| file := "git";
           args := ["push"; "https://x/repo2.git"; "HEAD:dev"];
           cwd := "./target"; stdio := None |}]
  /\ reports (events r)
     = [Pushed "origin"; Failed "staging" (message Demo.unreachable_error)].
Proof.
  destruct (@push_all_attempts_every_remote Demo.unreachable Demo.world
              Demo.config [Demo.origin; Demo.staging] Demo.push_everywhere)
    as (Hout & Hstatus & _ & Hpushes);
    [vm_compute; reflexivity|reflexivity|discriminate|reflexivity|].
  destruct (Hpushes eq_refl) as (Hspawned & Hreports & _).
  repeat split; assumption.
Defined.

Lemma push_dry_run_witness :
  let dry := @push Demo.unreachable (Some Demo.dry_run_everywhere) Demo.world in
  spawned (events dry) = []
  /\ announced (events dry) = [("origin", "main"); ("staging", "dev")]
  /\ reports (events dry) = [Pushed "origin"; Pushed "staging"].
Proof.
  destruct (@push_dry_run Demo.unreachable Demo.world Demo.config
              [Demo.origin; Demo.staging] Demo.dry_run_everywhere)
    as (Hspawned & _ & _ & Hall & _);
    [vm_compute; reflexivity|reflexivity|discriminate|reflexivity|].
  destruct (Hall eq_refl) as (_ & Hannounced & _ & Hreports).
  repeat split; assumption.
Defined.

Lemma push_single_resolution_witness :
  let r := @push Demo.calm (Some Demo.push_to_origin) Demo.world in
  announced (events r) = [("origin", "main")]
  /\ spawned (events r) = [git_push "https://x/repo.git" "main" "./target"].
Proof.
  destruct (@push_single_resolution Demo.calm Demo.world Demo.config
              [Demo.origin; Demo.staging] (Some Demo.push_to_origin))
    as (Hgiven & _ & _ & _ & Hfound);
    [vm_compute; reflexivity|reflexivity|discriminate|reflexivity|].
  pose proof (Hgiven "origin" eq_refl ltac:(discriminate)) as Hname.
  destruct Hfound as (i & remote & b & Hi & _ & _ & _ & Hb & Hannounced & Hspawned & _).
  { rewrite Hname. vm_compute. apply list_elem_of_here. }
  rewrite Hname in *. specialize (Hb eq_refl). specialize (Hspawned eq_refl).
  destruct i as [|[|i]]; simpl in Hi; [|exfalso|discriminate].
  - injection Hi as <-. subst b. split; assumption.
  - injection Hi as <-. subst b.
    vm_compute in Hannounced. discriminate Hannounced.
Defined.

(** C3 as it is worded fails on options that are given and empty: the
    name that the wording resolves is not registered, which should be
    fatal, and the run pushes to the configured default remote, on that
    remote's branch, and returns. *)
Lemma push_empty_options_counterexample :
  let r := @push Demo.calm (Some Demo.empty_options) Demo.world in
  specified_remoteName (Some Demo.empty_options) Demo.config = ""
  /\ ("" ∉ name <$> [Demo.origin; Demo.staging])
  /\ outcome r = Ret tt
  /\ spawned (events r) = [git_push "https://x/repo2.git" "dev" "./target"]
  /\ specified_branch (Some Demo.empty_options) Demo.staging = ""
  /\ ~ single_remote_as_specified (Some Demo.empty_options) Demo.config
        [Demo.origin; Demo.staging] r.
Proof.
  split; [reflexivity|]. split.
  { intros Hin. vm_compute in Hin. repeat (apply elem_of_cons in Hin as [Hin|Hin]; [discriminate|]).
    by apply elem_of_nil in Hin. }
  split; [vm_compute; reflexivity|]. split; [vm_compute; reflexivity|].
  split; [reflexivity|].
  unfold single_remote_as_specified. vm_compute. intros Hne. by apply Hne.
Qed.

Lemma saveConfig_writes_in_place_witness :
  let r := @saveConfig Demo.calm Demo.config None Demo.world in
  outcome r = Ret tt
  /\ fs_calls (events r)
     = [Mkdir "/work"; WriteFile "/work/repomirror.yaml" Demo.config_text]
  /\ files (world r) !! "/work" = Some Dir.
Proof.
  destruct (@saveConfig_writes_in_place Demo.calm Demo.config None Demo.world
              (@saved Demo.calm Demo.config None Demo.world)
              [Fs (Mkdir "/work");
               Fs (WriteFile "/work/repomirror.yaml" Demo.config_text)])
    as (Hcalls & Hdir & _ & _); [vm_compute; reflexivity|].
  split; [vm_compute; reflexivity|]. split; [|exact Hdir].
  vm_compute. reflexivity.
Defined.

(** C6 as it is worded fails: a save writes to the configuration path
    itself and renames nothing. *)
Lemma saveConfig_not_by_rename_counterexample :
  let r := @saveConfig Demo.calm Demo.config None Demo.world in
  outcome r = Ret tt
  /\ WriteFile "/work/repomirror.yaml" Demo.config_text ∈ fs_calls (events r)
  /\ (forall oldPath newPath, Rename oldPath newPath ∉ fs_calls (events r))
  /\ ~ writes_by_rename "/work/repomirror.yaml" (fs_calls (events r)).
Proof.
  assert (Hcalls :
            fs_calls (events (@saveConfig Demo.calm Demo.config None Demo.world))
            = [Mkdir "/work"; WriteFile "/work/repomirror.yaml" Demo.config_text])
    by (vm_compute; reflexivity).
  cbn zeta. rewrite Hcalls.
  split; [vm_compute; reflexivity|]. split; [|split].
  - apply list_elem_of_further, list_elem_of_here.
  - intros oldPath newPath Hin.
    repeat (apply elem_of_cons in Hin as [Hin|Hin]; [discriminate|]).
    by apply elem_of_nil in Hin.
  - intros [_ Hnot]. apply (Hnot Demo.config_text).
    apply list_elem_of_further, list_elem_of_here.
Qed.

Lemma pull_check_only_fetches_witness :
  let r := @pull Demo.calm (Some Demo.check_and_sync_after) Demo.world in
  auto_sync Demo.config = Some true
  /\ files (world r) = files Demo.world
  /\ spawned (events r)
       `prefix_of` [git ["fetch"] "./source" None;
                    git ["status"; "-uno"] "./source" None].
Proof.
  destruct (@pull_check_only_fetches Demo.calm Demo.world
              (Some Demo.check_and_sync_after) eq_refl)
    as (Hfiles & _ & _ & Hspawned & _).
  split; [reflexivity|]. split; [exact Hfiles|].
  apply (Hspawned Demo.config). vm_compute. reflexivity.
Defined.


Lemma executor_exit_status_by_cause_witness :
  let r := @sync Demo.interrupted None Demo.world in
  outcome r = Exit 0 /\ Kill 0 "SIGINT" ∈ events r.
Proof.
  destruct (@executor_exit_status_by_cause Demo.interrupted SingleShot None
              Demo.world Demo.interrupted_error)
    as (Hsigint & _ & Hforward & _).
  - vm_compute. eexists. reflexivity.
  - reflexivity.
  - split; [exact (proj1 (Hsigint eq_refl))|].
    apply (Hforward SIGINT). apply list_elem_of_here.
Defined.

(** ** The further properties on the demo and trial platforms *)

Ltac not_listed H :=
  intros H; vm_compute in H;
  repeat (apply elem_of_cons in H as [H|H]; [discriminate H|]);
  by apply elem_of_nil in H.

Lemma remote_add_twice_witness :
  let add := ["backup"; "https://x/backup.git"; "main"] in
  let r1 := @remote Trial.calm "add" add Demo.world in
  let r2 := @remote Trial.calm "add" add (world r1) in
  outcome r2 = Ret tt
  /\ files (world r2) = files (world r1)
  /\ fs_calls (events r2) = fs_calls (events r1)
  /\ @stored_config Trial.calm None (world r2) = Some Trial.added.
Proof.
  apply (@remote_add_twice Trial.calm Demo.world Demo.config
           "backup" "https://x/backup.git" "main");
    [vm_compute; reflexivity|discriminate|discriminate
    |vm_compute; reflexivity|vm_compute; reflexivity].
Defined.

Lemma remote_remove_unknown_witness :
  @remote Demo.calm "remove" ["nowhere"] Demo.world
  = Run (Ret tt) Demo.world
      [Fs (ReadFile (@configPath Demo.calm None));
       Console Stdout (MsgRemoteNotFound "nowhere")].
Proof.
  apply (@remote_remove_unknown Demo.calm Demo.world Demo.config "nowhere" []);
    [vm_compute; reflexivity|discriminate|not_listed Hin].
Defined.

Lemma remote_remove_first_witness :
  let r := @remote Desk.calm "remove" ["staging"] Desk.world in
  let document :=
    {| source_repo := "./source"; target_repo := "./target";
       transformation_instructions := "convert to typescript";
       config_version := "0.1.0";
       default_remote := Some "staging"; auto_sync := Some true;
       remotes := Some [Demo.origin];
       target_remote := None; times_to_loop := Some 2.5%float |} in
  outcome r = Ret tt
  /\ files (world r) !! @configPath Desk.calm None
     = Some (File (Yaml.stringify document))
  /\ @stored_config Desk.calm None (world r) = Some document.
Proof.
  cbn zeta.
  assert (Hout : outcome (@remote Desk.calm "remove" ["staging"] Desk.world)
                 = Ret tt) by (vm_compute; reflexivity).
  split; [exact Hout|].
  destruct (@remote_remove_first Desk.calm Desk.world Desk.config
              [Demo.origin; Demo.staging] "staging" [] 1 Demo.staging)
    as (_ & Hfile & _);
    [vm_compute; reflexivity|reflexivity|discriminate|reflexivity|reflexivity|..].
  { intros [|j] y Hj Hlt; [|lia]. injection Hj as <-. discriminate. }
  split; [exact (Hfile Hout)|].
  unfold stored_config. rewrite (Hfile Hout). apply parse_stringify.
Defined.

Lemma remote_add_then_remove_witness :
  let r1 :=
    @remote Desk.calm "add" ["backup"; "https://x/backup.git"; "main"]
      Desk.world in
  let r2 := @remote Desk.calm "remove" ["backup"] (world r1) in
  outcome r1 = Ret tt
  /\ outcome r2 = Ret tt
  /\ files (world r2) !! @configPath Desk.calm None
     = Some (File (Yaml.stringify Desk.config))
  /\ files (world r2) !! @configPath Desk.calm None
     = Desk.world.(files) !! @configPath Desk.calm None.
Proof.
  cbn zeta.
  assert (Hadded :
            outcome (@remote Desk.calm "add"
                       ["backup"; "https://x/backup.git"; "main"] Desk.world)
            = Ret tt) by (vm_compute; reflexivity).
  split; [exact Hadded|].
  destruct (@remote_add_then_remove Desk.calm Desk.world Desk.config
              "backup" "https://x/backup.git" "main")
    as (Hout & Hfile & _);
    [vm_compute; reflexivity|discriminate|discriminate|not_listed Hin
    |exact Hadded|apply parse_stringify|].
  split; [exact Hout|]. split; [exact Hfile|].
  rewrite Hfile. vm_compute. reflexivity.
Defined.

Lemma commands_without_config_witness :
  let refused :=
    Run (Exit 1) Trial.nothing
      [Fs (ReadFile (@configPath Demo.calm None));
       Console Stderr MsgConfigMissing] in
  @remote Demo.calm "list" [] Trial.nothing = refused
  /\ @pull Demo.calm (Some Trial.check_only) Trial.nothing = refused.
Proof.
  destruct (@commands_without_config Demo.calm Trial.nothing)
    as [Hremote Hpull]; [vm_compute; reflexivity|].
  split; [apply Hremote|apply Hpull].
Defined.

Lemma remote_add_usage_witness :
  @remote Demo.calm "add" ["staging"] Demo.world
  = Run (Exit 1) Demo.world
      [Fs (ReadFile (@configPath Demo.calm None)); Console Stderr MsgUsageAdd].
Proof.
  apply (@remote_add_usage Demo.calm Demo.world Demo.config ["staging"]);
    [vm_compute; reflexivity|right; reflexivity].
Defined.

Lemma remote_list_prints_registry_witness :
  @remote Demo.calm "list" [] Demo.world
  = Run (Ret tt) Demo.world
      [Fs (ReadFile (@configPath Demo.calm None));
       Console Stdout MsgConfiguredRemotes;
       Console Stdout (MsgRemoteLine Demo.origin);
       Console Stdout (MsgRemoteLine Demo.staging)].
Proof.
  apply (@remote_list_prints_registry Demo.calm Demo.world Demo.config []).
  vm_compute; reflexivity.
Defined.

Lemma remote_touches_only_config_witness :
  spawned (events (@remote Demo.calm "add" ["staging"; "https://x/new.git"]
                     Demo.world)) = [].
Proof.
  apply (@remote_touches_only_config Demo.calm "add"
           ["staging"; "https://x/new.git"] Demo.world).
Defined.

Lemma push_without_remotes_witness :
  let r := @push Demo.calm (Some Demo.push_everywhere) Trial.nothing in
  outcome r = Exit 1 /\ spawned (events r) = [].
Proof.
  destruct (@push_without_remotes Demo.calm (Some Demo.push_everywhere)
              Trial.nothing) as (Hout & _ & Hspawned & _);
    [vm_compute; reflexivity|].
  split; assumption.
Defined.

Lemma push_single_failure_is_fatal_witness :
  let r := @push Demo.unreachable None Demo.world in
  spawned (events r)
  = [{| file := "git"; args := ["push"; "https://x/repo2.git"; "HEAD:dev"];
        cwd := "./target"; stdio := None |}]
  /\ outcome r = Exit 1
  /\ reports (events r) = [].
Proof.
  destruct (@push_single_failure_is_fatal Demo.unreachable Demo.world
              Demo.config [Demo.origin; Demo.staging] None Demo.staging)
    as (Hspawned & Hfatal & _);
    [vm_compute; reflexivity|reflexivity|discriminate|reflexivity|reflexivity
    |reflexivity|].
  destruct (Hfatal Demo.unreachable_error) as (Hout & _ & Hreports);
    [vm_compute; reflexivity|].
  split; [exact Hspawned|]. split; assumption.
Defined.

Lemma pull_check_outcome_witness :
  let r := @pull Demo.calm (Some Trial.check_only) Demo.world in
  outcome r = Ret tt /\ last (events r) = Some (Console Stdout (MsgText "")).
Proof.
  destruct (@pull_check_outcome Demo.calm Demo.world Demo.config
              (Some Trial.check_only)) as (Hiff & _ & Hlast & _);
    [vm_compute; reflexivity|reflexivity|].
  split; [apply Hiff; by exists "", ""|by apply (Hlast "" "")].
Defined.

Lemma executor_without_script_witness :
  let r := @sync Demo.calm None Trial.nothing in
  outcome r = Exit 1 /\ world r = Trial.nothing /\ spawned (events r) = [].
Proof.
  destruct (@executor_without_script Demo.calm SingleShot None Trial.nothing)
    as (Hout & Hworld & Hspawned & _); [vm_compute; reflexivity|].
  split; [exact Hout|]. split; assumption.
Defined.

Lemma executor_completes_witness :
  let r := @syncForever Demo.calm None Demo.world in
  outcome r = Ret tt /\ listeners (world r) = []
  /\ spawned (events r) = [@script_command Demo.calm Continuous].
Proof.
  destruct (@executor_completes Demo.calm Continuous None Demo.world "")
    as (Hout & _ & Hlisteners & Hspawned & _);
    [vm_compute; eexists; reflexivity|reflexivity|by left|].
  split; [exact Hout|]. split; assumption.
Defined.

Lemma sync_auto_push_witness :
  let r := @sync Demo.calm (Some Trial.push_after) Demo.world in
  outcome r = Ret tt
  /\ spawned (events r)
     = [@script_command Demo.calm SingleShot;
        {| file := "git"; args := ["push"; "https://x/repo.git"; "HEAD:main"];
           cwd := "./target"; stdio := None |};
        {| file := "git"; args := ["push"; "https://x/repo2.git"; "HEAD:dev"];
           cwd := "./target"; stdio := None |}].
Proof.
  destruct (@sync_auto_push Demo.calm (Some Trial.push_after) Demo.world "")
    as (_ & _ & Hpushes);
    [vm_compute; eexists; reflexivity|reflexivity|reflexivity|].
  destruct (Hpushes Demo.config [Demo.origin; Demo.staging])
    as (Hout & Hspawned & _); [vm_compute; reflexivity|reflexivity|discriminate|].
  split; assumption.
Defined.

Lemma signals_are_passed_on_as_sigint_witness :
  kills (events (@sync Demo.interrupted None Demo.world)) = [(0, "SIGINT")].
Proof.
  apply (@signals_are_passed_on_as_sigint Demo.interrupted SingleShot None
           Demo.world);
    [vm_compute; eexists; reflexivity|reflexivity|right; by left].
Defined.

Lemma preflight_fails_fast_witness :
  let r :=
    @performPreflightChecks Trial.calm Trial.offline "/target" Trial.nothing in
  outcome r = Exit 1 /\ spawned (events r) = [].
Proof.
  apply (@preflight_fails_fast Trial.calm Trial.offline "/target" Trial.nothing).
  vm_compute; reflexivity.
Defined.

Lemma preflight_passes_iff_witness :
  outcome (@performPreflightChecks Trial.calm Trial.skipping "/target"
             Trial.world) = Ret tt.
Proof.
  apply (@preflight_passes_iff Trial.calm Trial.skipping "/target" Trial.world).
  split; [vm_compute; eexists; reflexivity|].
  split; [by exists Trial.listing|].
  split; [exists Trial.listing; split; [reflexivity|vm_compute; discriminate]|].
  by left.
Defined.

Lemma preflight_claude_tested_iff_witness :
  @claude_test Trial.calm
  ∈ spawned (events (@performPreflightChecks Trial.calm Trial.offline "/target"
                       Trial.world)).
Proof.
  apply (@preflight_claude_tested_iff Trial.calm Trial.offline "/target"
           Trial.world).
  split; [vm_compute; eexists; reflexivity|].
  split; [by exists Trial.listing|].
  split; [exists Trial.listing; split; [reflexivity|vm_compute; discriminate]|].
  discriminate.
Defined.

Lemma preflight_only_looks_witness :
  let r :=
    @performPreflightChecks Trial.calm Trial.offline "/target" Trial.world in
  fs_calls (events r) = [Access "/target"] /\ files (world r) = files Trial.world.
Proof.
  destruct (@preflight_only_looks Trial.calm Trial.offline "/target" Trial.world)
    as (Hcalls & Hfiles & _).
  split; assumption.
Defined.

Lemma init_writes_fresh_document_witness :
  let config := @init_config Demo.calm Trial.offline None Demo.world in
  @stored_config Demo.calm (Some "./") Demo.world = Some Demo.config
  /\ remotes config = None /\ default_remote config = None
  /\ auto_sync config = None.
Proof.
  split; [vm_compute; reflexivity|].
  destruct (@init_writes_fresh_document Demo.calm Trial.offline None Demo.world)
    as (_ & _ & Hremotes & Hdefault & Hauto & _).
  split; [exact Hremotes|]. split; assumption.
Defined.

Lemma init_saves_before_preflight_witness :
  let r := @init Trial.calm Trial.offline (Some Trial.options) Trial.nothing in
  outcome r = Exit 1
  /\ is_Some (files (world r) !! "/work/repomirror.yaml")
  /\ spawned (events r) = [].
Proof.
  destruct (@init_saves_before_preflight Trial.calm Trial.offline
              (Some Trial.options) Trial.nothing)
    as (Hout & Hfiles & _ & _ & Hspawned);
    [vm_compute; reflexivity|vm_compute; reflexivity|].
  split; [exact Hout|]. split; [|exact Hspawned].
  rewrite Hfiles. vm_compute. eexists. reflexivity.
Defined.

Lemma init_completes_iff_witness :
  outcome (@init Trial.calm Trial.skipping (Some Trial.options) Trial.world)
  = Ret tt.
Proof.
  apply (@init_completes_iff Trial.calm Trial.skipping (Some Trial.options)
           Trial.world);
    [vm_compute; reflexivity|vm_compute; reflexivity|].
  exists (PromptText (template_prompt "./" "/target" "port it to go")).
  split; vm_compute; reflexivity.
Defined.

Lemma createRepoMirrorFiles_feeds_executors_witness :
  let w :=
    world (@createRepoMirrorFiles Trial.calm Trial.skipping "./" "/target"
             (PromptText "port it to go") Trial.world) in
  (exists content, files w !! @script Trial.calm SingleShot = Some (File content))
  /\ (exists content,
        files w !! @script Trial.calm Continuous = Some (File content)).
Proof.
  destruct (@createRepoMirrorFiles_feeds_executors Trial.calm Trial.skipping
              "./" "/target" (PromptText "port it to go") Trial.world)
    as [Hfound _];
    [reflexivity|intros f; by destruct f|vm_compute; reflexivity|].
  split; apply Hfound.
Defined.

Lemma init_scaffolds_from_template_witness :
  let r :=
    @init (Yaml.codec Trial.calm) Trial.skipping (Some Trial.options)
      Trial.world in
  outcome r = Ret tt
  /\ fs_calls (events r)
     = [ReadFile "/work/repomirror.yaml";
        Mkdir "/work";
        WriteFile "/work/repomirror.yaml"
          (Yaml.stringify
             {| source_repo := "./"; target_repo := "/target";
                transformation_instructions := "port it to go";
                config_version := "0.1.0";
                default_remote := None; auto_sync := None; remotes := None;
                target_remote := None; times_to_loop := None |});
        Access "/target";
        Mkdir "/work/.repomirror";
        WriteFile "/work/.repomirror/prompt.md"
          (template_prompt "./" "/target" "port it to go");
        WriteFile "/work/.repomirror/sync.sh"
          (@syncScript Trial.calm "./" "/target");
        Chmod "/work/.repomirror/sync.sh" 493;
        WriteFile "/work/.repomirror/ralph.sh"
          (@ralphScript Trial.calm "./" "/target");
        Chmod "/work/.repomirror/ralph.sh" 493;
        WriteFile "/work/.repomirror/.gitignore"
          ("*.log" +:+ newline +:+ "tmp/" +:+ newline)]
  /\ spawned (events r)
     = [git ["rev-parse"; "--git-dir"] "/target" None;
        git ["remote"; "-v"] "/target" None].
Proof.
  destruct (@init_scaffolds_from_template (Yaml.codec Trial.calm) Trial.skipping
              (Some Trial.options) Trial.world)
    as (Hout & Hcalls & Hspawned);
    [reflexivity|vm_compute; reflexivity|vm_compute; reflexivity
    |vm_compute; reflexivity|].
  split; [exact Hout|]. split; [exact Hcalls|exact Hspawned].
Defined.

Lemma init_query_breaks_in_write_witness :
  let r :=
    @init (Yaml.codec Trial.calm) Trial.offline (Some Trial.options)
      Trial.world in
  outcome r = Exit 1
  /\ fs_calls (events r)
     = [ReadFile "/work/repomirror.yaml";
        Mkdir "/work";
        WriteFile "/work/repomirror.yaml"
          (Yaml.stringify
             {| source_repo := "./"; target_repo := "/target";
                transformation_instructions := "port it to go";
                config_version := "0.1.0";
                default_remote := None; auto_sync := None; remotes := None;
                target_remote := None; times_to_loop := None |});
        Access "/target";
        Mkdir "/work/.repomirror";
        WriteFile "/work/.repomirror/prompt.md" ""]
  /\ files (world r) !! "/work/.repomirror/prompt.md" = Some (File "")
  /\ files (world r) !! "/work/.repomirror/sync.sh" = None
  /\ Console Stdout (MsgText "✔ Generated transformation prompt") ∈ events r
  /\ Console Stderr (MsgText ("Error: " +:+ message Trial.no_sdk_error))
     ∈ events r.
Proof.
  destruct (@init_query_breaks_in_write (Yaml.codec Trial.calm) Trial.offline
              (Some Trial.options) Trial.world "" Trial.no_sdk_error)
    as (_ & Hout & Hcalls & Hfiles & Hgenerated & Herror);
    [discriminate|vm_compute; reflexivity|vm_compute; reflexivity|reflexivity
    |intros content; vm_compute; discriminate|vm_compute; discriminate|].
  split; [exact Hout|]. split; [exact Hcalls|].
  split; [rewrite Hfiles; vm_compute; reflexivity|].
  split; [rewrite Hfiles; vm_compute; reflexivity|].
  split; assumption.
Defined.
